(** * Interactive Tables API: CSV schema inference and query-filter compiler

    A shallow embedding of [main.py]: the schema inference of [upload_csv]
    and the filter that [query_dataset] builds from a query text, with the
    Python built-ins they call, followed by the properties of the two.

    - Text is [string]; a character is a code point in U+0000..U+00FF, and
      [isspace], [lower], [isdigit], [int] and [float] are Python's on that
      range.  Python integers are [Z].
    - [float] keeps the decimal it reads; the rounding to binary64 is left
      out.
    - An exception is a [Raise] in [result]; [try]/[except] is
      [try_except].
    - A [dict] whose order matters (the votes of a column) is a list of
      pairs in insertion order; the others are [gmap]s.
    - [csv.DictReader] and the store are outside: the header and the rows
      are given, and the storage call is returned as a [find_call]. *)

From Stdlib Require Import ZArith NArith List Ascii String Bool Lia.
From stdpp Require Import base option gmap strings.
Import ListNotations.

Local Open Scope string_scope.
Local Open Scope bool_scope.

(** ** Exceptions *)

Inductive exn : Type :=
  | ValueError
  | IndexError
  | UnicodeDecodeError
  | HTTPException (status_code : Z) (detail : string).

Inductive result (A : Type) : Type :=
  | Ok (a : A)
  | Raise (e : exn).

Arguments Ok {A} a.
Arguments Raise {A} e.

(** ** Python built-ins on [str] *)

Module Py.

Definition code (c : ascii) : N := N_of_ascii c.

Definition between (lo hi : N) (c : ascii) : bool :=
  ((lo <=? code c) && (code c <=? hi))%N.

(** [str.isspace] on one character: TAB..CR, FS..US, SPACE, NEL, NBSP. *)
Definition isspace (c : ascii) : bool :=
  between 9 13 c || between 28 32 c || (code c =? 133)%N || (code c =? 160)%N.

(** The characters [int] and [float] read as decimal digits. *)
Definition isdecimal (c : ascii) : bool := between 48 57 c.

(** [str.isdigit] on one character: also the superscripts 1, 2 and 3. *)
Definition isdigit (c : ascii) : bool :=
  isdecimal c || (code c =? 178)%N || (code c =? 179)%N || (code c =? 185)%N.

Definition lower_char (c : ascii) : ascii :=
  if between 65 90 c || (between 192 222 c && negb (code c =? 215)%N)
  then ascii_of_N (code c + 32)
  else c.

(** [s.lower()] *)
Fixpoint lower (s : string) : string :=
  match s with
  | EmptyString => EmptyString
  | String c s' => String (lower_char c) (lower s')
  end.

Fixpoint lstrip (s : string) : string :=
  match s with
  | EmptyString => EmptyString
  | String c s' => if isspace c then lstrip s' else s
  end.

Fixpoint rstrip (s : string) : string :=
  match s with
  | EmptyString => EmptyString
  | String c s' =>
      match rstrip s' with
      | EmptyString => if isspace c then EmptyString else String c EmptyString
      | r => String c r
      end
  end.

(** [s.strip()] *)
Definition strip (s : string) : string := rstrip (lstrip s).

(** [s.startswith(p)] *)
Fixpoint startswith (s p : string) {struct p} : bool :=
  match p, s with
  | EmptyString, _ => true
  | String _ _, EmptyString => false
  | String a p', String b s' => Ascii.eqb a b && startswith s' p'
  end.

(** [s[n:]] *)
Fixpoint drop_chars (n : nat) (s : string) : string :=
  match n, s with
  | O, _ => s
  | S _, EmptyString => EmptyString
  | S n', String _ s' => drop_chars n' s'
  end.

(** [s.find(sub)], with [None] for -1. *)
Fixpoint find (sub s : string) : option nat :=
  if startswith s sub then Some O
  else match s with
       | EmptyString => None
       | String _ s' => option_map S (find sub s')
       end.

(** [sub in s] *)
Definition contains (sub s : string) : bool :=
  match find sub s with Some _ => true | None => false end.

(** The text before and after the first occurrence of [sep] in [s]. *)
Fixpoint partition (sep s : string) : option (string * string) :=
  if startswith s sep then Some (EmptyString, drop_chars (String.length sep) s)
  else match s with
       | EmptyString => None
       | String c s' =>
           match partition sep s' with
           | Some (a, b) => Some (String c a, b)
           | None => None
           end
       end.

(** [s.split(sep, 1)] *)
Definition split1 (sep s : string) : list string :=
  match partition sep s with
  | Some (a, b) => [a; b]
  | None => [s]
  end.

Fixpoint split_fuel (fuel : nat) (sep s : string) : list string :=
  match fuel with
  | O => [s]
  | S fuel' =>
      match partition sep s with
      | Some (a, b) => a :: split_fuel fuel' sep b
      | None => [s]
      end
  end.

(** [s.split(sep)] for a non-empty [sep]: every cut removes at least one
    character, so [String.length s] cuts are enough. *)
Definition split (sep s : string) : list string :=
  split_fuel (String.length s) sep s.

(** [s.split()]: the maximal runs of non-space characters. *)
Fixpoint split_ws (s : string) : list string :=
  match s with
  | EmptyString => []
  | String c s' =>
      if isspace c then split_ws s'
      else match s' with
           | EmptyString => [String c EmptyString]
           | String c' _ =>
               if isspace c' then String c EmptyString :: split_ws s'
               else match split_ws s' with
                    | w :: ws => String c w :: ws
                    | [] => [String c EmptyString]
                    end
           end
  end.

(** [sep.join(l)] *)
Fixpoint join (sep : string) (l : list string) : string :=
  match l with
  | [] => EmptyString
  | [x] => x
  | x :: l' => x ++ sep ++ join sep l'
  end.

(** [any(ch == a for ch in s)] *)
Fixpoint has_char (a : ascii) (s : string) : bool :=
  match s with
  | EmptyString => false
  | String c s' => Ascii.eqb c a || has_char a s'
  end.

(** [any(p(ch) for ch in s)] *)
Fixpoint any_char (p : ascii -> bool) (s : string) : bool :=
  match s with
  | EmptyString => false
  | String c s' => p c || any_char p s'
  end.

(** *** [int(s)] *)

(** [sys.int_info.default_max_str_digits]: longer digit strings make
      [int] raise [ValueError] (CPython 3.11). *)
Definition int_max_str_digits : nat := 4300.

Definition digit_value (c : ascii) : N := (code c - 48)%N.

(** Digits with single underscores between them; the value read so far and
    the number of digits. *)
Fixpoint int_digits (after_digit : bool) (acc : N) (n : nat) (s : string)
  : option (N * nat) :=
  match s with
  | EmptyString => if after_digit then Some (acc, n) else None
  | String c s' =>
      if isdecimal c then int_digits true (10 * acc + digit_value c)%N (S n) s'
      else if Ascii.eqb c "_" && after_digit then int_digits false acc n s'
      else None
  end.

(** An optional sign and what follows it. *)
Definition sign_split (s : string) : bool * string :=
  match s with
  | String c s' =>
      if Ascii.eqb c "-" then (true, s')
      else if Ascii.eqb c "+" then (false, s')
      else (false, s)
  | EmptyString => (false, s)
  end.

Definition int_ (s : string) : result Z :=
  let (neg, body) := sign_split (strip s) in
  match int_digits false 0 0 body with
  | Some (v, n) =>
      if (int_max_str_digits <? n)%nat then Raise ValueError
      else Ok (if neg then (- Z.of_N v)%Z else Z.of_N v)
  | None => Raise ValueError
  end.

(** *** [float(s)] *)

(** The value read by [float]: the decimal the text denotes.  The rounding
    to a binary64 is left out. *)
Inductive pyfloat : Type :=
  | Fnan
  | Finf (neg : bool)
  | Fdec (neg : bool) (mantissa : N) (exp10 : Z).

(** Underscores are dropped; each one must stand between two digits. *)
Fixpoint drop_underscores (prev : ascii) (s : string) : option string :=
  match s with
  | EmptyString => if Ascii.eqb prev "_" then None else Some EmptyString
  | String c s' =>
      if Ascii.eqb c "_" then
        if isdecimal prev then drop_underscores c s' else None
      else if Ascii.eqb prev "_" && negb (isdecimal c) then None
      else option_map (String c) (drop_underscores c s')
  end.

(** A run of digits: value read so far, number of digits, what is left. *)
Fixpoint digit_run (acc : N) (n : nat) (s : string) : N * nat * string :=
  match s with
  | String c s' =>
      if isdecimal c then digit_run (10 * acc + digit_value c)%N (S n) s'
      else (acc, n, s)
  | EmptyString => (acc, n, s)
  end.

(** [e], a sign and at least one digit, to the end of the text. *)
Definition exponent (s : string) : option Z :=
  match s with
  | EmptyString => Some 0%Z
  | String c s' =>
      if Ascii.eqb c "e" || Ascii.eqb c "E" then
        let (neg, body) := sign_split s' in
        match digit_run 0 0 body with
        | (v, S _, EmptyString) => Some (if neg then (- Z.of_N v)%Z else Z.of_N v)
        | _ => None
        end
      else None
  end.

Definition decimal (neg : bool) (s : string) : option pyfloat :=
  let '(ip, ni, r1) := digit_run 0 0 s in
  let '(m, nf, r2) :=
    match r1 with
    | String c r =>
        if Ascii.eqb c "." then digit_run ip 0 r else (ip, O, r1)
    | EmptyString => (ip, O, r1)
    end in
  match (ni + nf)%nat with
  | O => None
  | S _ =>
      match exponent r2 with
      | Some e => Some (Fdec neg m (e - Z.of_nat nf))
      | None => None
      end
  end.

Definition float_ (s : string) : result pyfloat :=
  match drop_underscores "000" (strip s) with
  | None => Raise ValueError
  | Some t =>
      let (neg, body) := sign_split t in
      let name := lower body in
      if String.eqb name "inf" || String.eqb name "infinity" then Ok (Finf neg)
      else if String.eqb name "nan" then Ok Fnan
      else match decimal neg body with
           | Some f => Ok f
           | None => Raise ValueError
           end
  end.

(** *** [bytes.decode("utf-8", errors)] *)

Inductive error_handler : Type := Strict | Ignore | Replace.

Definition is_continuation (b : N) : bool := ((128 <=? b) && (b <=? 191))%N.

(** What the codec does with an undecodable run of bytes; [k] is the
    decoding of the bytes after the run. *)
Definition on_error (errors : error_handler) (k : result (list N))
  : result (list N) :=
  match errors with
  | Strict => Raise UnicodeDecodeError
  | Ignore => k
  | Replace => match k with Ok t => Ok (65533%N :: t) | Raise e => Raise e end
  end.

Definition emit (cp : N) (k : result (list N)) : result (list N) :=
  match k with Ok t => Ok (cp :: t) | Raise e => Raise e end.

(** The decoder, a byte sequence at a time: a lead byte tells the length,
    a wrong byte ends the run before it, and a sequence cut short by the
    end of the input is one run. *)
Fixpoint utf8_decode (errors : error_handler) (bs : list Byte.byte)
  : result (list N) :=
  match bs with
  | [] => Ok []
  | x0 :: r0 =>
      let b0 := Byte.to_N x0 in
      if (b0 <? 128)%N then emit b0 (utf8_decode errors r0)
      else if (b0 <? 194)%N then on_error errors (utf8_decode errors r0)
      else if (b0 <? 224)%N then
        match r0 with
        | [] => on_error errors (Ok [])
        | x1 :: r1 =>
            let b1 := Byte.to_N x1 in
            if is_continuation b1
            then emit ((b0 - 192) * 64 + (b1 - 128))%N (utf8_decode errors r1)
            else on_error errors (utf8_decode errors r0)
        end
      else if (b0 <? 240)%N then
        match r0 with
        | [] => on_error errors (Ok [])
        | x1 :: r1 =>
            let b1 := Byte.to_N x1 in
            if negb (is_continuation b1)
               || (if (b1 <? 160)%N then (b0 =? 224)%N else (b0 =? 237)%N)
            then on_error errors (utf8_decode errors r0)
            else
              match r1 with
              | [] => on_error errors (Ok [])
              | x2 :: r2 =>
                  let b2 := Byte.to_N x2 in
                  if is_continuation b2
                  then emit ((b0 - 224) * 4096 + (b1 - 128) * 64 + (b2 - 128))%N
                            (utf8_decode errors r2)
                  else on_error errors (utf8_decode errors r1)
              end
        end
      else if (b0 <? 245)%N then
        match r0 with
        | [] => on_error errors (Ok [])
        | x1 :: r1 =>
            let b1 := Byte.to_N x1 in
            if negb (is_continuation b1)
               || (if (b1 <? 144)%N then (b0 =? 240)%N else (b0 =? 244)%N)
            then on_error errors (utf8_decode errors r0)
            else
              match r1 with
              | [] => on_error errors (Ok [])
              | x2 :: r2 =>
                  let b2 := Byte.to_N x2 in
                  if negb (is_continuation b2)
                  then on_error errors (utf8_decode errors r1)
                  else
                    match r2 with
                    | [] => on_error errors (Ok [])
                    | x3 :: r3 =>
                        let b3 := Byte.to_N x3 in
                        if is_continuation b3
                        then emit ((b0 - 240) * 262144 + (b1 - 128) * 4096
                                   + (b2 - 128) * 64 + (b3 - 128))%N
                                  (utf8_decode errors r3)
                        else on_error errors (utf8_decode errors r2)
                    end
              end
        end
      else on_error errors (utf8_decode errors r0)
  end.

End Py.

Import Py.

(** [try: r except: handler] *)
Definition try_except {A : Type} (r : result A) (handler : result A) : result A :=
  match r with
  | Ok a => Ok a
  | Raise _ => handler
  end.

Definition is_ok {A : Type} (r : result A) : bool :=
  match r with Ok _ => true | Raise _ => false end.

(** ** [upload_csv] *)

Module Upload.

(** [content.decode("utf-8", errors="ignore")] and its handler. *)
Definition decode_content (content : list Byte.byte) : result (list N) :=
  try_except (utf8_decode Ignore content)
             (Raise (HTTPException 400 "Unable to decode file as UTF-8")).

(** A row of [csv.DictReader]: [row.get(c)] is [row !! c]. *)
Abbreviation row := (gmap string string).

Definition infer_type (value : option string) : string :=
  match value with
  | None => "string"
  | Some value =>
      if String.eqb value "" then "string"
      else
        let v := strip value in
        if existsb (String.eqb (lower v)) ["true"; "false"] then "boolean"
        else if is_ok (int_ v) then "number"
        else if is_ok (float_ v) then "number"
        else if existsb (fun sep => contains sep v) ["-"; "/"] && any_char isdigit v
        then "date"
        else "string"
  end.

(** The detection rules as the specification words them, first match
    first, read on the value as it is given. *)
Definition infer_type_rules (value : option string) : string :=
  match value with
  | None => "string"
  | Some v =>
      if String.eqb v "" then "string"
      else if String.eqb (lower v) "true" || String.eqb (lower v) "false"
      then "boolean"
      else if is_ok (int_ v) then "number"
      else if is_ok (float_ v) then "number"
      else if (contains "-" v || contains "/" v) && any_char isdigit v then "date"
      else "string"
  end.

(** A [dict] from type tag to votes, in insertion order. *)
Abbreviation tally := (list (string * nat)).

(** [d.get(t, 0)] *)
Fixpoint tally_get (d : tally) (t : string) : nat :=
  match d with
  | [] => O
  | (k, n) :: d' => if String.eqb k t then n else tally_get d' t
  end.

(** [d[t] = n]: an existing key keeps its place, a new one goes last. *)
Fixpoint tally_set (d : tally) (t : string) (n : nat) : tally :=
  match d with
  | [] => [(t, n)]
  | (k, m) :: d' =>
      if String.eqb k t then (k, n) :: d' else (k, m) :: tally_set d' t n
  end.

(** [d[t] = d.get(t, 0) + 1] *)
Definition vote (d : tally) (t : string) : tally :=
  tally_set d t (tally_get d t + 1).

(** [max(items, key=lambda kv: kv[1])] over the items after the first:
    a later item wins only with strictly more votes. *)
Fixpoint max_from (best : string * nat) (items : tally) : string * nat :=
  match items with
  | [] => best
  | kv :: items' => max_from (if (snd best <? snd kv)%nat then kv else best) items'
  end.

Definition max_item (items : tally) : result (string * nat) :=
  match items with
  | [] => Raise ValueError
  | kv :: items' => Ok (max_from kv items')
  end.

Definition max_preview : nat := 50.
Definition sample_limit : nat := 100.

Record scan_state : Type := {
  rows : list row;
  preview_rows : list row;
  type_counts : gmap string tally
}.

(** [for c in columns: ...] for one sampled row *)
Definition count_row (columns : list string) (r : row) (tc : gmap string tally)
  : gmap string tally :=
  foldl (fun tc c => <[c := vote (tc !!! c) (infer_type (r !! c))]> tc) tc columns.

(** The body of [for i, row in enumerate(reader)] *)
Definition scan_row (columns : list string) (i : nat) (r : row) (st : scan_state)
  : scan_state :=
  {| rows := rows st ++ [r];
     preview_rows :=
       if (length (preview_rows st) <? max_preview)%nat
       then preview_rows st ++ [r] else preview_rows st;
     type_counts :=
       if (i <? sample_limit)%nat
       then count_row columns r (type_counts st) else type_counts st |}.

Fixpoint scan_rows (columns : list string) (i : nat) (reader : list row)
  (st : scan_state) : scan_state :=
  match reader with
  | [] => st
  | r :: reader' => scan_rows columns (S i) reader' (scan_row columns i r st)
  end.

(** [{c: {} for c in columns}] *)
Definition empty_counts (columns : list string) : gmap string tally :=
  foldl (fun tc c => <[c := []]> tc) ∅ columns.

(** The type of one column from its votes. *)
Definition column_type (d : tally) : string :=
  match d with
  | [] => "string"
  | _ => match max_item d with Ok kv => fst kv | Raise _ => "string" end
  end.

(** [for c in columns: column_types[c] = ...] *)
Definition column_types_of (columns : list string) (tc : gmap string tally)
  : gmap string string :=
  foldl (fun ct c => <[c := column_type (tc !!! c)]> ct) ∅ columns.

Record schema : Type := {
  columns : list string;
  column_types : gmap string string;
  row_count : nat;
  preview : list row
}.

(** The schema [upload_csv] computes from the header and rows read. *)
Definition infer_schema (fieldnames : list string) (reader : list row)
  : result schema :=
  match fieldnames with
  | [] => Raise (HTTPException 400 "CSV has no header row")
  | _ =>
      let st := scan_rows fieldnames 0 reader
                  {| rows := []; preview_rows := [];
                     type_counts := empty_counts fieldnames |} in
      Ok {| columns := fieldnames;
            column_types := column_types_of fieldnames (type_counts st);
            row_count := length (rows st);
            preview := preview_rows st |}
  end.

(** Two rows used in examples. *)
Definition two_rows : list row :=
  [ {[ "a" := "1"; "b" := "x" ]}; {[ "a" := "y"; "b" := "2" ]} ].

(** The votes of a column: the type of its cell in each sampled row. *)
Definition sample_tags (c : string) (reader : list row) : list string :=
  map (fun r => infer_type (r !! c)) (take sample_limit reader).

(** How many of the votes [l] are for [t]. *)
Fixpoint votes_for (t : string) (l : list string) : nat :=
  match l with
  | [] => O
  | x :: l' => (if String.eqb x t then 1 else 0) + votes_for t l'
  end.

(** The place of the first vote for [t] in [l] ([length l] when none). *)
Fixpoint first_vote (t : string) (l : list string) : nat :=
  match l with
  | [] => O
  | x :: l' => if String.eqb x t then O else S (first_vote t l')
  end.

(** The tally after the votes [l], cast in order. *)
Definition tally_of (l : list string) : tally := foldl vote [] l.

(** What the tally [d] of the votes [l] holds: every tag voted for, with
    its votes, in the order of the first votes. *)
Record tally_invariant (l : list string) (d : tally) : Prop := {
  tally_complete : forall t, In t l -> exists i, d !! i = Some (t, votes_for t l);
  tally_sound : forall i e, d !! i = Some e ->
                            In (fst e) l /\ snd e = votes_for (fst e) l;
  tally_ordered : forall i j e1 e2,
      (i < j)%nat -> d !! i = Some e1 -> d !! j = Some e2 ->
      (first_vote (fst e1) l < first_vote (fst e2) l)%nat
}.

(** How often [c] stands in the header. *)
Fixpoint occurrences (c : string) (cols : list string) : nat :=
  match cols with
  | [] => O
  | x :: cols' => (if String.eqb x c then 1 else 0) + occurrences c cols'
  end.

End Upload.

(** ** [query_dataset] *)

Module Query.

Record QueryRequest : Type := {
  dataset_id : string;
  query : string;
  limit : Z
}.

(** The default of the [limit] field. *)
Definition default_limit : Z := 100.

Definition make_request (dataset_id query : string) (limit : option Z)
  : QueryRequest :=
  {| dataset_id := dataset_id; query := query;
     limit := match limit with Some l => l | None => default_limit end |}.

(** A value compared with: [True]/[False], an [int], a [float] or a [str]. *)
Inductive value : Type :=
  | VBool (b : bool)
  | VInt (n : Z)
  | VFloat (f : pyfloat)
  | VStr (s : string).

(** The inner dict of a condition: [{"$regex": p, "$options": o}] or
    [{operator: v}]. *)
Inductive condition : Type :=
  | Regex (pattern options : string)
  | Compare (operator : string) (v : value).

(** A filter dict: [{key: text}], [{key: condition}] or [{"$and": [...]}]. *)
#[warnings="-register-all"]
Inductive filter : Type :=
  | Equals (key text : string)
  | Field (key : string) (c : condition)
  | And (parts : list filter).

Definition operators : list string := [">="; "<="; ">"; "<"; "="; "!="; " is "].

Definition mongo_op_map : list (string * string) :=
  [("=", "$eq"); ("!=", "$ne"); (">", "$gt"); ("<", "$lt");
   (">=", "$gte"); ("<=", "$lte")].

Fixpoint dict_get (d : list (string * string)) (k : string) : option string :=
  match d with
  | [] => None
  | (k', v) :: d' => if String.eqb k' k then Some v else dict_get d' k
  end.

(** The cast of a right-hand side to a number or a boolean. *)
Definition cast (val : string) : value :=
  if existsb (String.eqb (lower val)) ["true"; "false"]
  then VBool (String.eqb (lower val) "true")
  else
    let parsed :=
      if contains "." val
      then match float_ val with Ok f => Ok (VFloat f) | Raise e => Raise e end
      else match int_ val with Ok n => Ok (VInt n) | Raise e => Raise e end in
    match parsed with
    | Ok v => v
    | Raise _ => VStr val
    end.

(** [for op in [...]: if op in c: ...; break] *)
Fixpoint scan_ops (ops : list string) (c : string) (and_parts : list filter)
  : result (list filter) :=
  match ops with
  | [] => Ok and_parts
  | op :: ops' =>
      if contains op c then
        match split1 op c with
        | [col; val] =>
            let col := strip col in
            let val := strip val in
            let op_tok := if String.eqb (strip op) "is" then "=" else op in
            let v_cast := cast val in
            match dict_get mongo_op_map op_tok with
            | Some mongo_op =>
                Ok (and_parts ++ [Field ("data." ++ col) (Compare mongo_op v_cast)])%list
            | None => Ok and_parts
            end
        | _ => Raise ValueError
        end
      else scan_ops ops' c and_parts
  end.

(** The body of [for c in clauses] *)
Definition compile_clause (c : string) (and_parts : list filter)
  : result (list filter) :=
  if startswith (lower c) "contains " then
    let parts := split_ws c in
    if (3 <=? length parts)%nat then
      match parts !! 1%nat with
      | Some col =>
          let val := join " " (drop 2 parts) in
          Ok (and_parts ++ [Field ("data." ++ col) (Regex val "i")])%list
      | None => Raise IndexError
      end
    else Ok and_parts
  else scan_ops operators c and_parts.

Fixpoint compile_clauses (clauses : list string) (and_parts : list filter)
  : result (list filter) :=
  match clauses with
  | [] => Ok and_parts
  | c :: clauses' =>
      match compile_clause c and_parts with
      | Ok and_parts' => compile_clauses clauses' and_parts'
      | Raise e => Raise e
      end
  end.

(** [[c.strip() for c in text.split(" and ") if c.strip()]] *)
Definition clauses_of (text : string) : list string :=
  map strip
    (List.filter (fun c => negb (String.eqb (strip c) "")) (split " and " text)).

(** The filter built from the request (the part before the storage call). *)
Definition build_filter (dataset_id query : string) : result filter :=
  let text := strip query in
  if String.eqb text "" then Ok (Equals "dataset_id" dataset_id)
  else
    match compile_clauses (clauses_of text) [] with
    | Ok [] => Ok (Equals "dataset_id" dataset_id)
    | Ok and_parts => Ok (And (Equals "dataset_id" dataset_id :: and_parts))
    | Raise e => Raise e
    end.

(** The call [db["record"].find(filter).limit(n)] *)
Record find_call : Type := {
  collection : string;
  find_filter : filter;
  find_limit : Z
}.

Definition query_dataset (db_available : bool) (req : QueryRequest)
  : result find_call :=
  if negb db_available
  then Raise (HTTPException 500 "Database not available")
  else
    match build_filter (dataset_id req) (query req) with
    | Ok f =>
        Ok {| collection := "record";
              find_filter := f;
              find_limit := Z.min (Z.max (limit req) 1) 1000 |}
    | Raise e => Raise e
    end.

(** A stored record: its top-level text fields and its [data] row. *)
Record document : Type := {
  fields : gmap string string;
  data : gmap string string
}.

(** A filter on a record, given how the store decides one condition. *)
Section Matching.
Variable condition_holds : string -> condition -> document -> bool.

Fixpoint matches (f : filter) (d : document) : bool :=
  match f with
  | Equals key text =>
      match fields d !! key with
      | Some t => String.eqb t text
      | None => false
      end
  | Field key c => condition_holds key c d
  | And parts => forallb (fun p => matches p d) parts
  end.
End Matching.

(** The two shapes of a filter scoped to a dataset. *)
Definition scoped (id : string) (f : filter) : Prop :=
  f = Equals "dataset_id" id \/
  exists parts, f = And (Equals "dataset_id" id :: parts).

(** Is the filter a [$ne] condition on a field? *)
Definition is_ne (f : filter) : bool :=
  match f with
  | Field _ (Compare o _) => String.eqb o "$ne"
  | _ => false
  end.

(** None of the characters the operator tokens are made of. *)
Definition no_operator_char (s : string) : bool :=
  negb (has_char "<" s || has_char ">" s || has_char "=" s).

(** A trimmed, non-empty column name free of operators, which does not
    bring an earlier [" is "] or the separator [" and "] into the query
    and does not make the clause a [contains] clause. *)
Definition plain_column (col : string) : bool :=
  negb (String.eqb col "") && String.eqb (strip col) col
  && no_operator_char col
  && negb (contains " is " (col ++ " is"))
  && negb (contains " and " (col ++ " "))
  && negb (startswith (lower (col ++ " ")) "contains ").

(** A trimmed, non-empty value free of operators and of the separator. *)
Definition plain_value (val : string) : bool :=
  negb (String.eqb val "") && String.eqb (strip val) val
  && no_operator_char val && negb (contains " and " (" " ++ val)).

(** What [plain_column] and [plain_value] say, one fact at a time. *)
Record plain_pair (col val : string) : Prop := {
  col_nonempty : col <> "";
  col_lstrip : lstrip col = col;
  col_rstrip : rstrip col = col;
  col_no_lt : has_char "<" col = false;
  col_no_gt : has_char ">" col = false;
  col_no_eq : has_char "=" col = false;
  col_no_is : contains " is " (col ++ " is") = false;
  col_no_and : contains " and " (col ++ " ") = false;
  col_not_contains : startswith (lower (col ++ " ")) "contains " = false;
  val_nonempty : val <> "";
  val_lstrip : lstrip val = val;
  val_rstrip : rstrip val = val;
  val_no_lt : has_char "<" val = false;
  val_no_gt : has_char ">" val = false;
  val_no_eq : has_char "=" val = false;
  val_no_and : contains " and " (" " ++ val) = false
}.

(** A stored record used in examples. *)
Definition sample_doc : document :=
  {| fields := {[ "dataset_id" := "ds1" ]}; data := {[ "price" := "150" ]} |}.

End Query.

(** ** More vocabulary for the query compiler *)

Module QueryMore.
Import Query.

(** Is the filter a condition on a key under [data.]? *)
Definition is_data_field (f : filter) : bool :=
  match f with
  | Field key _ => startswith key "data."
  | _ => false
  end.

(** The comparison tokens and the operators of the store they stand for. *)
Definition comparison_tokens : list (string * string) :=
  [(">=", "$gte"); ("<=", "$lte"); (">", "$gt"); ("<", "$lt"); ("=", "$eq")].

(** A word: not empty and without white space. *)
Definition is_word (s : string) : bool :=
  negb (String.eqb s "") && negb (any_char isspace s).

(** Nothing but white space. *)
Definition is_blank (s : string) : bool :=
  negb (any_char (fun c => negb (isspace c)) s).

End QueryMore.

(** ** The [csv] module *)

Module PyCsv.

(** What a call leaves: a value or an exception of type [E]. *)
Inductive outcome (E A : Type) : Type :=
  | Done (a : A)
  | Failed (e : E).

Arguments Done {E A} a.
Arguments Failed {E A} e.

(** The two messages of [_csv.Error] a reader of the [excel] dialect can
    raise. *)
Inductive csv_error : Type :=
  | FieldTooLarge
  | NewlineInUnquotedField.

Definition delimiter : ascii := ",".
Definition quotechar : ascii := "034".
Definition LF : ascii := "010".
Definition CR : ascii := "013".

(** [csv.field_size_limit()] *)
Definition field_size_limit : N := 131072.

Inductive parser_state : Type :=
  | START_RECORD
  | START_FIELD
  | IN_FIELD
  | IN_QUOTED_FIELD
  | QUOTE_IN_QUOTED_FIELD
  | EAT_CRNL.

Record parser : Type := {
  state : parser_state;
  field : string;
  fields : list string
}.

(** A character of a line, or the end of the line. *)
Inductive input : Type :=
  | Char (c : ascii)
  | EOL.

Definition parse_reset : parser :=
  {| state := START_RECORD; field := ""; fields := [] |}.

Definition set_state (s : parser_state) (p : parser) : parser :=
  {| state := s; field := field p; fields := fields p |}.

Definition parse_save_field (p : parser) : parser :=
  {| state := state p; field := ""; fields := fields p ++ [field p] |}.

Definition parse_add_char (p : parser) (c : ascii) : outcome csv_error parser :=
  if (field_size_limit <=? N.of_nat (String.length (field p)))%N
  then Failed FieldTooLarge
  else Done {| state := state p;
               field := field p ++ String c "";
               fields := fields p |}.

Definition is_newline (c : ascii) : bool := Ascii.eqb c LF || Ascii.eqb c CR.

(** The step on a character in a field not yet begun. *)
Definition start_field (p : parser) (c : input) : outcome csv_error parser :=
  match c with
  | EOL => Done (set_state START_RECORD (parse_save_field p))
  | Char a =>
      if is_newline a then Done (set_state EAT_CRNL (parse_save_field p))
      else if Ascii.eqb a quotechar then Done (set_state IN_QUOTED_FIELD p)
      else if Ascii.eqb a delimiter then Done (parse_save_field p)
      else match parse_add_char p a with
           | Done p' => Done (set_state IN_FIELD p')
           | Failed e => Failed e
           end
  end.

(** [parse_process_char] for the [excel] dialect: no escape character,
    doubled quotes, not strict. *)
Definition parse_process_char (p : parser) (c : input) : outcome csv_error parser :=
  match state p with
  | START_RECORD =>
      match c with
      | EOL => Done p
      | Char a =>
          if is_newline a then Done (set_state EAT_CRNL p)
          else start_field (set_state START_FIELD p) c
      end
  | START_FIELD => start_field p c
  | IN_FIELD =>
      match c with
      | EOL => Done (set_state START_RECORD (parse_save_field p))
      | Char a =>
          if is_newline a then Done (set_state EAT_CRNL (parse_save_field p))
          else if Ascii.eqb a delimiter
          then Done (set_state START_FIELD (parse_save_field p))
          else parse_add_char p a
      end
  | IN_QUOTED_FIELD =>
      match c with
      | EOL => Done p
      | Char a =>
          if Ascii.eqb a quotechar then Done (set_state QUOTE_IN_QUOTED_FIELD p)
          else parse_add_char p a
      end
  | QUOTE_IN_QUOTED_FIELD =>
      match c with
      | EOL => Done (set_state START_RECORD (parse_save_field p))
      | Char a =>
          if Ascii.eqb a quotechar then
            match parse_add_char p a with
            | Done p' => Done (set_state IN_QUOTED_FIELD p')
            | Failed e => Failed e
            end
          else if Ascii.eqb a delimiter
          then Done (set_state START_FIELD (parse_save_field p))
          else if is_newline a then Done (set_state EAT_CRNL (parse_save_field p))
          else match parse_add_char p a with
               | Done p' => Done (set_state IN_FIELD p')
               | Failed e => Failed e
               end
      end
  | EAT_CRNL =>
      match c with
      | EOL => Done (set_state START_RECORD p)
      | Char a =>
          if is_newline a then Done p else Failed NewlineInUnquotedField
      end
  end.

(** The characters of a line, then its end. *)
Fixpoint parse_line (p : parser) (line : string) : outcome csv_error parser :=
  match line with
  | EmptyString => parse_process_char p EOL
  | String c line' =>
      match parse_process_char p (Char c) with
      | Done p' => parse_line p' line'
      | Failed e => Failed e
      end
  end.

(** The characters of a piece of a line, its end not reached. *)
Fixpoint parse_chars (p : parser) (s : string) : outcome csv_error parser :=
  match s with
  | EmptyString => Done p
  | String c s' =>
      match parse_process_char p (Char c) with
      | Done p' => parse_chars p' s'
      | Failed e => Failed e
      end
  end.

(** The lines [io.StringIO(text)] yields: each ends with its ["\n"], but
    for a last one without. *)
Fixpoint readlines (text : string) : list string :=
  match text with
  | EmptyString => []
  | String c text' =>
      if Ascii.eqb c LF then String c EmptyString :: readlines text'
      else match readlines text' with
           | [] => [String c EmptyString]
           | l :: ls =>
               match text' with
               | EmptyString => [String c EmptyString]
               | String _ _ => String c l :: ls
               end
           end
  end.

Definition is_start_record (s : parser_state) : bool :=
  match s with START_RECORD => true | _ => false end.

Definition is_in_quoted (s : parser_state) : bool :=
  match s with IN_QUOTED_FIELD => true | _ => false end.

(** [next(reader)]: lines are read until a record ends; [None] stands for
    [StopIteration].  The lines left are returned with the record. *)
Fixpoint reader_next (p : parser) (lines : list string)
  : outcome csv_error (option (list string * list string)) :=
  match lines with
  | [] =>
      if negb (String.eqb (field p) "") || is_in_quoted (state p)
      then Done (Some (fields (parse_save_field p), []))
      else Done None
  | line :: lines' =>
      match parse_line p line with
      | Failed e => Failed e
      | Done p' =>
          if is_start_record (state p') then Done (Some (fields p', lines'))
          else reader_next p' lines'
      end
  end.

(** [list(reader)]: every record to the end of the input. *)
Fixpoint reader_all (p : parser) (lines : list string)
  : outcome csv_error (list (list string)) :=
  match lines with
  | [] =>
      if negb (String.eqb (field p) "") || is_in_quoted (state p)
      then Done [fields (parse_save_field p)]
      else Done []
  | line :: lines' =>
      match parse_line p line with
      | Failed e => Failed e
      | Done p' =>
          if is_start_record (state p') then
            match reader_all parse_reset lines' with
            | Done rs => Done (fields p' :: rs)
            | Failed e => Failed e
            end
          else reader_all p' lines'
      end
  end.

(** The row [DictReader] makes of a record, as far as [row.get(c)] reads
    it: the cells under their header names, a later cell of the same name
    replacing an earlier one; a name without a cell holds [None] and is
    left out of the map.  Cells past the last header name, which
    [DictReader] keeps as a list under the key [None], are not part of the
    row here. *)
Definition dict_row (fieldnames record : list string) : gmap string string :=
  foldl (fun d key => delete key d)
        (foldl (fun d kv => <[fst kv := snd kv]> d) ∅ (zip fieldnames record))
        (drop (length record) fieldnames).

Definition is_empty_record (r : list string) : bool :=
  match r with [] => true | _ => false end.

(** [list(DictReader)] after the header: empty records are passed over. *)
Definition dict_rows (fieldnames : list string) (records : list (list string))
  : list (gmap string string) :=
  map (dict_row fieldnames) (List.filter (fun r => negb (is_empty_record r)) records).

End PyCsv.

(** ** [schemas.py] *)

Module Schemas.

(** The model [Dataset]: [row_count] is declared [ge=0]. *)
Record Dataset : Type := {
  name : string;
  columns : list string;
  column_types : gmap string string;
  row_count : Z
}.

(** [Dataset(name=..., columns=..., column_types=..., row_count=...)]:
    [None] stands for the [ValidationError] of a negative [row_count]. *)
Definition make_Dataset (name : string) (columns : list string)
  (column_types : gmap string string) (row_count : Z) : option Dataset :=
  if (row_count <? 0)%Z then None
  else Some {| name := name; columns := columns;
               column_types := column_types; row_count := row_count |}.

End Schemas.

(** ** [upload_csv], from the file name to the store *)

Module UploadCsv.
Import PyCsv Upload.

(** [s.endswith(suffix)] *)
Definition endswith (s suffix : string) : bool :=
  (String.length suffix <=? String.length s)%nat
  && String.eqb (drop_chars (String.length s - String.length suffix) s) suffix.

Inductive upload_error : Type :=
  | HTTPError (status_code : Z) (detail : string)
  | CsvError (e : csv_error)
  | ValidationError
  | StoreError (message : string).

(** A document of the [record] collection. *)
Record record_doc : Type := {
  dataset_id : string;
  data : row;
  created_at : Z;
  updated_at : Z
}.

(** The calls made on the store. *)
Inductive store_op : Type :=
  | CreateDocument (collection : string) (d : Schemas.Dataset)
  | InsertMany (collection : string) (recs : list record_doc).

(** The dict the handler returns. *)
Record response : Type := {
  resp_dataset_id : string;
  resp_name : string;
  resp_columns : list string;
  resp_column_types : gmap string string;
  resp_row_count : nat;
  resp_preview : list row
}.

(** A run of the handler: the calls made on the store, in order, and the
    answer or the exception. *)
Record run : Type := {
  calls : list store_op;
  answer : outcome upload_error response
}.

(** A run that ends in the exception [e] after the calls [t]. *)
Definition raises (t : list store_op) (e : upload_error) : run :=
  {| calls := t; answer := Failed e |}.

(** [csv.DictReader(io.StringIO(text))]: the header, checked, and the rows
    read to the end. *)
Definition read_csv (text : string)
  : outcome upload_error (list string * list row) :=
  match reader_next parse_reset (readlines text) with
  | Failed e => Failed (CsvError e)
  | Done header =>
      let (fieldnames, rest) :=
        match header with
        | Some (f, rest) => (f, rest)
        | None => ([], [])
        end in
      match fieldnames with
      | [] => Failed (HTTPError 400 "CSV has no header row")
      | _ =>
          match reader_all parse_reset rest with
          | Failed e => Failed (CsvError e)
          | Done records => Done (fieldnames, dict_rows fieldnames records)
          end
      end
  end.

(** The state the scan starts from. *)
Definition scan_start (columns : list string) : scan_state :=
  {| rows := []; preview_rows := []; type_counts := empty_counts columns |}.

Section Handler.
(** [create_document] of the module [database], [insert_many] of the
    collection [record] (each returns or raises), the state of [db] and
    the clock. *)
Variable create_document : string -> Schemas.Dataset -> outcome upload_error string.
Variable insert_many : list record_doc -> outcome upload_error unit.
Variable db_available : bool.
Variable now : Z.

(** [[{"dataset_id": dataset_id, "data": r} for r in rows]] with the two
    time stamps. *)
Definition make_records (dataset_id : string) (rows : list row) : list record_doc :=
  map (fun r => {| dataset_id := dataset_id; data := r;
                   created_at := now; updated_at := now |}) rows.

(** The handler after the header and the rows are read. *)
Definition store_upload (filename : string) (columns : list string)
  (reader : list row) : run :=
  let st := scan_rows columns 0 reader (scan_start columns) in
  let column_types := column_types_of columns (type_counts st) in
  match Schemas.make_Dataset filename columns column_types
          (Z.of_nat (length (rows st))) with
  | None => raises [] ValidationError
  | Some dataset =>
      match create_document "dataset" dataset with
      | Failed e => raises [CreateDocument "dataset" dataset] e
      | Done dataset_id =>
          if negb db_available
          then raises [CreateDocument "dataset" dataset]
                      (HTTPError 500 "Database not available")
          else
            let recs := make_records dataset_id (rows st) in
            let response :=
              {| resp_dataset_id := dataset_id;
                 resp_name := Schemas.name dataset;
                 resp_columns := columns;
                 resp_column_types := column_types;
                 resp_row_count := length (rows st);
                 resp_preview := preview_rows st |} in
            match recs with
            | [] => {| calls := [CreateDocument "dataset" dataset];
                       answer := Done response |}
            | _ =>
                let done := [CreateDocument "dataset" dataset;
                             InsertMany "record" recs] in
                match insert_many recs with
                | Done _ => {| calls := done; answer := Done response |}
                | Failed e => raises done e
                end
            end
      end
  end.

(** [upload_csv] on a file name and the decoded text of the file. *)
Definition upload_csv (filename text : string) : run :=
  if negb (endswith (lower filename) ".csv")
  then raises [] (HTTPError 400 "Only CSV files are supported")
  else
    match read_csv text with
    | Failed e => raises [] e
    | Done (columns, reader) => store_upload filename columns reader
    end.

End Handler.

(** The characters that end a cell or begin a quoted one. *)
Definition is_special (c : ascii) : bool :=
  is_newline c || Ascii.eqb c delimiter || Ascii.eqb c quotechar.

(** A plain cell: no delimiter, no quote, no line end, within the field
    size limit. *)
Definition is_plain_cell (x : string) : bool :=
  negb (any_char is_special x)
  && (N.of_nat (String.length x) <=? field_size_limit)%N.

(** A record of plain cells that is not written as an empty line. *)
Definition is_plain_record (r : list string) : bool :=
  forallb is_plain_cell r
  && match r with
     | [] => false
     | [x] => negb (String.eqb x "")
     | _ => true
     end.

(** A record with no more cells than the header has names. *)
Definition fits_header (h r : list string) : bool :=
  (length r <=? length h)%nat.

(** A plain record or, as [[]], an empty line. *)
Definition is_plain_line (r : list string) : bool :=
  is_empty_record r || is_plain_record r.

(** The line ends a file is written with. *)
Definition line_ends : list string :=
  [String LF ""; String CR (String LF "")].

(** The text of a table, one line a record, each line ended by [eol]. *)
Fixpoint write_table (eol : string) (t : list (list string)) : string :=
  match t with
  | [] => ""
  | r :: t' => (join "," r ++ eol) ++ write_table eol t'
  end.

(** The states of a cell that is not quoted. *)
Definition is_open (s : parser_state) : bool :=
  match s with
  | START_RECORD | START_FIELD | IN_FIELD => true
  | _ => false
  end.

End UploadCsv.

(** ** The answer of [query_dataset] *)

Module QueryAnswer.
Import Query.


Section Store.
(** [list(db["record"].find(filter).limit(n))] *)
Variable find : find_call -> list document.


End Store.

End QueryAnswer.

(** ** [list_datasets] and [test_database] *)

Module Admin.
Import PyCsv.

(** A value of a stored document, as far as the dataset documents hold
    them. *)
Inductive bson : Type :=
  | ObjectId (hex : string)
  | Text (s : string)
  | Int (n : Z)
  | Strings (l : list string)
  | Null.

Section ListDatasets.
(** [str] on a stored value. *)
Variable str : bson -> string.

(** [list_datasets]: [db] is [None] or gives the documents
    [db["dataset"].find({}, {...})] lists. *)
Definition list_datasets (db : option (list (gmap string bson)))
  : result (list (gmap string bson)) :=
  match db with
  | None => Raise (HTTPException 500 "Database not available")
  | Some docs =>
      Ok (map (fun d =>
                 <["_id" := match d !! "_id" with
                            | Some v => Text (str v)
                            | None => Null
                            end]> d) docs)
  end.
End ListDatasets.

(** [s[:n]] *)
Fixpoint take_chars (n : nat) (s : string) : string :=
  match n, s with
  | O, _ => EmptyString
  | S _, EmptyString => EmptyString
  | S n', String c s' => String c (take_chars n' s')
  end.

(** The texts of the report, by what they say. *)
Inductive database_text : Type :=
  | NotAvailable
  | Available
  | ConnectedAndWorking
  | ConnectedButError (text : string)
  | NotInitialized.

Inductive setting_text : Type :=
  | NoSetting
  | Configured
  | ConnectedTo
  | Named (name : string)
  | IsSet
  | NotSet.

Inductive connection_text : Type :=
  | NotConnected
  | Connected.

(** The database object: its [name], if it has the attribute, and what
    [list_collection_names()] gives, a list or an exception with its
    text. *)
Record database : Type := {
  name : option string;
  list_collection_names : outcome string (list string)
}.

Record report : Type := {
  database_state : database_text;
  database_url : setting_text;
  database_name : setting_text;
  connection_status : connection_text;
  collections : list string
}.

Definition set_database (v : database_text) (r : report) : report :=
  {| database_state := v; database_url := database_url r;
     database_name := database_name r;
     connection_status := connection_status r; collections := collections r |}.

Definition set_database_url (v : setting_text) (r : report) : report :=
  {| database_state := database_state r; database_url := v;
     database_name := database_name r;
     connection_status := connection_status r; collections := collections r |}.

Definition set_database_name (v : setting_text) (r : report) : report :=
  {| database_state := database_state r; database_url := database_url r;
     database_name := v;
     connection_status := connection_status r; collections := collections r |}.

Definition set_connection_status (v : connection_text) (r : report) : report :=
  {| database_state := database_state r; database_url := database_url r;
     database_name := database_name r;
     connection_status := v; collections := collections r |}.

Definition set_collections (v : list string) (r : report) : report :=
  {| database_state := database_state r; database_url := database_url r;
     database_name := database_name r;
     connection_status := connection_status r; collections := v |}.

(** Is [os.getenv(key)] true: set, and not to the empty string? *)
Definition is_set (v : option string) : bool :=
  match v with
  | Some s => negb (String.eqb s "")
  | None => false
  end.

(** [test_database], given [db] and the environment. *)
Definition test_database (db : option database) (getenv : string -> option string)
  : report :=
  let response :=
    {| database_state := NotAvailable; database_url := NoSetting;
       database_name := NoSetting; connection_status := NotConnected;
       collections := [] |} in
  let response :=
    match db with
    | Some d =>
        let response := set_database Available response in
        let response := set_database_url Configured response in
        let response :=
          set_database_name
            (match name d with Some n => Named n | None => ConnectedTo end)
            response in
        let response := set_connection_status Connected response in
        match list_collection_names d with
        | Done names =>
            let response := set_collections (take 10 names) response in
            set_database ConnectedAndWorking response
        | Failed e =>
            set_database (ConnectedButError (take_chars 50 e)) response
        end
    | None => set_database NotInitialized response
    end in
  let response :=
    set_database_url
      (if is_set (getenv "DATABASE_URL") then IsSet else NotSet) response in
  set_database_name
    (if is_set (getenv "DATABASE_NAME") then IsSet else NotSet) response.

End Admin.

(** ** The conditions of a query *)

Module QueryParts.
Import Query.

(** The conditions a query compiles to, beside the dataset scope. *)
Definition conditions (q : string) : list filter :=
  match compile_clauses (clauses_of (strip q)) [] with
  | Ok parts => parts
  | Raise _ => []
  end.

(** The filter of a dataset and of conditions: [filter_dict] after the
    last [if and_parts]. *)
Definition scope_with (id : string) (parts : list filter) : filter :=
  match parts with
  | [] => Equals "dataset_id" id
  | _ => And (Equals "dataset_id" id :: parts)
  end.

(** A clause as it stands before the separator [" and "]: trimmed, not
    empty, holding no separator, and with no ending that makes one with
    the separator after it. *)
Definition is_single_clause (c : string) : bool :=
  String.eqb (strip c) c && negb (String.eqb c "")
  && negb (contains " and " (c ++ " and")).

End QueryParts.

(** ** Cells written between quotes *)

Module Quoting.
Import PyCsv UploadCsv.

(** The text of a cell between quotes: every quote doubled. *)
Fixpoint double_quotes (x : string) : string :=
  match x with
  | EmptyString => EmptyString
  | String c x' =>
      if Ascii.eqb c quotechar then String c (String c (double_quotes x'))
      else String c (double_quotes x')
  end.

Definition quoted (x : string) : string :=
  String quotechar (double_quotes x ++ String quotechar "").

(** A cell as it is written: between quotes when marked, else as it is. *)
Definition write_cell (qx : bool * string) : string :=
  if fst qx then quoted (snd qx) else snd qx.

(** A cell that can be written so: within the field size limit, and plain
    unless between quotes. *)
Definition is_written_cell (qx : bool * string) : bool :=
  (fst qx || negb (any_char is_special (snd qx)))
  && (N.of_nat (String.length (snd qx)) <=? field_size_limit)%N.

(** A record that is not written as an empty line. *)
Definition is_written_record (r : list (bool * string)) : bool :=
  forallb is_written_cell r
  && match r with
     | [] => false
     | [(false, x)] => negb (String.eqb x "")
     | _ => true
     end.

(** A written record or, as [[]], an empty line. *)
Definition is_written_line (r : list (bool * string)) : bool :=
  match r with
  | [] => true
  | _ => is_written_record r
  end.

(** The text of a table of marked cells, each line ended by [eol]. *)
Fixpoint write_cells (eol : string) (t : list (list (bool * string))) : string :=
  match t with
  | [] => ""
  | r :: t' => (join "," (map write_cell r) ++ eol) ++ write_cells eol t'
  end.

(** The states a cell leaves the reader in when it is over. *)
Definition is_cell_end (s : parser_state) : bool :=
  match s with
  | START_FIELD | IN_FIELD | QUOTE_IN_QUOTED_FIELD => true
  | _ => false
  end.

End Quoting.

(** * Properties *)

(** ** Facts about the built-ins *)

Module PyFacts.

Lemma on_error_ignore (k : result (list N)) : on_error Ignore k = k.
Proof. reflexivity. Qed.

Lemma emit_ok (cp : N) (k : result (list N)) :
  (exists t, k = Ok t) -> exists t, emit cp k = Ok t.
Proof. intros [t ->]. now exists (cp :: t). Qed.

Ltac decode_case :=
  match goal with
  | |- exists _, Ok _ = Ok _ => eexists; reflexivity
  | |- exists _, emit _ _ = Ok _ => apply emit_ok
  | |- context [if ?b then _ else _] => destruct b
  end.

Lemma utf8_decode_ignore_bounded (n : nat) :
  forall bs, (length bs <= n)%nat -> exists t, utf8_decode Ignore bs = Ok t.
Proof.
  induction n as [|n IH]; intros bs Hlen.
  - destruct bs; [now exists [] | simpl in Hlen; lia].
  - destruct bs as [|x0 r0]; [now exists [] |].
    simpl in Hlen.
    assert (H0 : exists t, utf8_decode Ignore r0 = Ok t) by (apply IH; lia).
    cbn [utf8_decode]; rewrite ?on_error_ignore.
    destruct r0 as [|x1 r1]; [repeat decode_case; eauto |].
    simpl in Hlen.
    assert (H1 : exists t, utf8_decode Ignore r1 = Ok t) by (apply IH; lia).
    destruct r1 as [|x2 r2]; [repeat decode_case; eauto |].
    simpl in Hlen.
    assert (H2 : exists t, utf8_decode Ignore r2 = Ok t) by (apply IH; lia).
    destruct r2 as [|x3 r3]; [repeat decode_case; eauto |].
    simpl in Hlen.
    assert (H3 : exists t, utf8_decode Ignore r3 = Ok t) by (apply IH; lia).
    repeat decode_case; eauto.
Qed.

Lemma emit_inv (cp : N) (k : result (list N)) (t : list N) :
  emit cp k = Ok t -> exists t', k = Ok t' /\ t = cp :: t'.
Proof. destruct k as [t'|e]; simpl; [intros [= <-]; eauto | discriminate]. Qed.

Ltac strict_case IH :=
  match goal with
  | H : on_error Strict _ = Ok _ |- _ => discriminate H
  | H : Ok _ = Ok _ |- _ => injection H as <-
  | H : emit _ (utf8_decode Strict ?r) = Ok _ |- _ =>
      apply emit_inv in H as (? & H & ->);
      apply IH in H; [rewrite H; reflexivity | simpl in *; lia]
  | H : context [if ?b then _ else _] |- _ => destruct b
  | H : context [match ?l with [] => _ | _ :: _ => _ end] |- _ => destruct l
  end.

Lemma utf8_decode_strict_bounded (n : nat) :
  forall bs t, (length bs <= n)%nat ->
    utf8_decode Strict bs = Ok t -> utf8_decode Ignore bs = Ok t.
Proof.
  induction n as [|n IH]; intros bs t Hlen H.
  - destruct bs; [exact H | simpl in Hlen; lia].
  - destruct bs as [|x0 r0]; [exact H |].
    cbn [utf8_decode] in *.
    repeat strict_case IH.
Qed.

(** On bytes the strict handler accepts, [ignore] gives the same text. *)
Lemma utf8_decode_strict_ignore (bs : list Byte.byte) (t : list N) :
  utf8_decode Strict bs = Ok t -> utf8_decode Ignore bs = Ok t.
Proof. apply (utf8_decode_strict_bounded (length bs)). lia. Qed.

(** *** The built-ins on some texts *)

Example strip_both_ends : strip "  a b  " = "a b".
Proof. reflexivity. Qed.

Example split_on_separator :
  split " and " "a and b and  and c" = ["a"; "b"; ""; "c"] /\
  split " and " "x and and y" = ["x"; "and y"] /\
  split1 "=" "a=b=c" = ["a"; "b=c"] /\
  split_ws "contains  a   b  c " = ["contains"; "a"; "b"; "c"] /\
  join " " ["a"; "b"; "c"] = "a b c".
Proof. repeat split. Qed.

Example int_reads :
  int_ "1_000" = Ok 1000%Z /\ int_ " -12 " = Ok (-12)%Z /\ int_ "007" = Ok 7%Z /\
  int_ "1e5" = Raise ValueError /\ int_ "1." = Raise ValueError /\
  int_ "1__0" = Raise ValueError /\ int_ "" = Raise ValueError.
Proof. repeat split. Qed.

Example float_reads :
  float_ "1.5E-3" = Ok (Fdec false 15 (-4)) /\ float_ ".5" = Ok (Fdec false 5 (-1)) /\
  float_ "1e1_0" = Ok (Fdec false 1 10) /\ float_ "-Infinity" = Ok (Finf true) /\
  float_ "nan" = Ok Fnan /\ float_ "." = Raise ValueError /\
  float_ "1e" = Raise ValueError /\ float_ "1_.5" = Raise ValueError /\
  float_ "0x10" = Raise ValueError.
Proof. repeat split. Qed.

(** *** Searching and cutting text *)

Lemma find_unfold (sub s : string) :
  find sub s =
  if startswith s sub then Some O
  else match s with
       | EmptyString => None
       | String _ s' => option_map S (find sub s')
       end.
Proof. destruct s; reflexivity. Qed.

Lemma partition_unfold (sep s : string) :
  partition sep s =
  if startswith s sep then Some (EmptyString, drop_chars (String.length sep) s)
  else match s with
       | EmptyString => None
       | String c s' =>
           match partition sep s' with
           | Some (a, b) => Some (String c a, b)
           | None => None
           end
       end.
Proof. destruct s; reflexivity. Qed.

Lemma partition_found (sep s : string) :
  contains sep s = true -> exists a b, partition sep s = Some (a, b).
Proof.
  unfold contains. induction s as [|c s IH];
    rewrite find_unfold, partition_unfold;
    destruct (startswith _ sep); eauto; try discriminate.
  destruct (find sep s); simpl; [| discriminate].
  intros _. destruct IH as (a & b & ->); eauto.
Qed.

Lemma partition_contains (sep s a b : string) :
  partition sep s = Some (a, b) -> contains sep s = true.
Proof.
  unfold contains. revert a b. induction s as [|c s IH]; intros a b;
    rewrite find_unfold, partition_unfold;
    destruct (startswith _ sep); try reflexivity; try discriminate.
  destruct (partition sep s) as [[a' b']|]; [| discriminate].
  intros _. specialize (IH _ _ eq_refl). now destruct (find sep s).
Qed.

Lemma contains_ne_eq (c : string) :
  contains "!=" c = true -> contains "=" c = true.
Proof.
  unfold contains. induction c as [|a c IH]; [discriminate |].
  rewrite (find_unfold "!="), (find_unfold "=").
  change (startswith (String a c) "!=")
    with (Ascii.eqb "!" a && startswith c "=").
  change (startswith (String a c) "=") with (Ascii.eqb "=" a && true).
  destruct (Ascii.eqb "=" a); [reflexivity |].
  destruct (Ascii.eqb "!" a && startswith c "=") eqn:Hhere.
  - apply andb_true_iff in Hhere as [_ Hc].
    rewrite (find_unfold "=" c), Hc. reflexivity.
  - cbn [andb]. destruct (find "!=" c); [| discriminate].
    intros _. destruct (find "=" c); [reflexivity | now specialize (IH eq_refl)].
Qed.

Lemma append_nil (b : string) : "" ++ b = b.
Proof. reflexivity. Qed.

Lemma append_cons (c : ascii) (a b : string) : String c a ++ b = String c (a ++ b).
Proof. reflexivity. Qed.

Ltac push_app := rewrite ?append_cons, ?append_nil.

Lemma append_nonempty (a b : string) : b <> "" -> a ++ b <> "".
Proof. destruct a; push_app; [auto | discriminate]. Qed.

Lemma rstrip_app (a b : string) :
  rstrip b = b -> b <> "" -> rstrip (a ++ b) = a ++ b.
Proof.
  intros Hb Hne. induction a as [|c a IH]; [exact Hb |].
  push_app. simpl. rewrite IH.
  destruct (a ++ b) eqn:Hab; [| reflexivity].
  exfalso. now apply (append_nonempty a b).
Qed.

Lemma rstrip_app_space (a : string) : rstrip (a ++ " ") = rstrip a.
Proof.
  induction a as [|c a IH]; [reflexivity |].
  push_app. simpl. now rewrite IH.
Qed.

Lemma lstrip_length (s : string) : (String.length (lstrip s) <= String.length s)%nat.
Proof.
  induction s as [|c s IH]; simpl; [lia |].
  destruct (isspace c); simpl; lia.
Qed.

Lemma rstrip_length (s : string) : (String.length (rstrip s) <= String.length s)%nat.
Proof.
  induction s as [|c s IH]; simpl; [lia |].
  destruct (rstrip s); [destruct (isspace c) |]; simpl in *; lia.
Qed.

Lemma strip_fixed (s : string) : strip s = s -> lstrip s = s /\ rstrip s = s.
Proof.
  unfold strip. intros H.
  assert (Hl : lstrip s = s).
  { pose proof (rstrip_length (lstrip s)) as H1. rewrite H in H1.
    destruct s as [|c s]; [reflexivity |]. simpl in *.
    destruct (isspace c); [| reflexivity].
    pose proof (lstrip_length s). lia. }
  split; [exact Hl | now rewrite Hl in H].
Qed.

Lemma has_char_app (a : ascii) (x y : string) :
  has_char a (x ++ y) = has_char a x || has_char a y.
Proof.
  induction x as [|c x IH]; push_app; simpl; [reflexivity | now rewrite IH, orb_assoc].
Qed.

Lemma startswith_has_char (a : ascii) (p s : string) :
  startswith s p = true -> has_char a p = true -> has_char a s = true.
Proof.
  revert s. induction p as [|x p IH]; intros s; [discriminate 2 |].
  destruct s as [|c s]; [discriminate |]. simpl.
  intros H. apply andb_true_iff in H as [Hxc Hs].
  apply Ascii.eqb_eq in Hxc. subst c.
  destruct (Ascii.eqb x a); [reflexivity |]. simpl. now apply IH.
Qed.

Lemma contains_needs_char (a : ascii) (op s : string) :
  has_char a op = true -> has_char a s = false -> contains op s = false.
Proof.
  intros Hop. unfold contains. induction s as [|c s IH]; intros Hs;
    rewrite find_unfold.
  - destruct (startswith "" op) eqn:Hp; [| reflexivity].
    now rewrite (startswith_has_char a _ _ Hp Hop) in Hs.
  - destruct (startswith (String c s) op) eqn:Hp.
    + now rewrite (startswith_has_char a _ _ Hp Hop) in Hs.
    + simpl in Hs. apply orb_false_iff in Hs as [_ Hs].
      specialize (IH Hs). now destruct (find op s).
Qed.

Lemma partition_skip (a : ascii) (sep col rest : string) :
  has_char a col = false ->
  partition (String a sep) (col ++ rest) =
  match partition (String a sep) rest with
  | Some (x, y) => Some (col ++ x, y)
  | None => None
  end.
Proof.
  induction col as [|c col IH]; intros H.
  - push_app. now destruct (partition (String a sep) rest) as [[x y]|].
  - simpl in H. apply orb_false_iff in H as [Hc Hcol].
    push_app. rewrite partition_unfold.
    change (startswith (String c (col ++ rest)) (String a sep))
      with (Ascii.eqb a c && startswith (col ++ rest) sep).
    rewrite Ascii.eqb_sym, Hc. cbn [andb]. rewrite (IH Hcol).
    now destruct (partition (String a sep) rest) as [[x y]|].
Qed.

Lemma partition_none_contains (sep s : string) :
  contains sep s = false -> partition sep s = None.
Proof.
  intros H. destruct (partition sep s) as [[a b]|] eqn:Hp; [| reflexivity].
  apply partition_contains in Hp. congruence.
Qed.

Lemma lower_app (a b : string) : lower (a ++ b) = lower a ++ lower b.
Proof.
  induction a as [|c a IH]; push_app; simpl; [reflexivity | push_app; now rewrite IH].
Qed.

Lemma startswith_cons (a b : ascii) (p s : string) :
  startswith (String b s) (String a p) = Ascii.eqb a b && startswith s p.
Proof. reflexivity. Qed.

Lemma startswith_app (p s : string) : startswith (p ++ s) p = true.
Proof.
  induction p as [|c p IH]; [reflexivity |].
  push_app. now rewrite startswith_cons, Ascii.eqb_refl.
Qed.

Lemma drop_chars_app (p s : string) : drop_chars (String.length p) (p ++ s) = s.
Proof. induction p as [|c p IH]; [reflexivity | push_app; exact IH]. Qed.

Lemma partition_here (p s : string) : partition p (p ++ s) = Some ("", s).
Proof. now rewrite partition_unfold, startswith_app, drop_chars_app. Qed.

Lemma find_skip_char (sep : string) (c : ascii) (s : string) :
  startswith (String c s) sep = false ->
  find sep (String c s) = option_map S (find sep s).
Proof. intros H. now rewrite find_unfold, H. Qed.

Lemma lstrip_app (col rest : string) :
  col <> "" -> lstrip col = col -> lstrip (col ++ rest) = col ++ rest.
Proof.
  destruct col as [|c col]; [congruence |]. intros _ H.
  push_app. cbn [lstrip] in *.
  destruct (isspace c); [| reflexivity].
  pose proof (lstrip_length col) as Hlen. rewrite H in Hlen. simpl in Hlen. lia.
Qed.

(** A match of [" and "] that starts inside [y] ends at the blank after it
    at the latest. *)
Lemma and_boundary (y rest : string) :
  y <> "" ->
  startswith (y ++ String " " rest) " and " = startswith (y ++ " ") " and ".
Proof.
  destruct y as [|c1 [|c2 [|c3 [|c4 [|c5 y]]]]]; [congruence | | | | |];
    intros _; reflexivity.
Qed.

(** A match of [" is "] that starts inside [y] ends in the [" is"] after it. *)
Lemma is_boundary (y rest : string) :
  y <> "" ->
  startswith (y ++ " is " ++ rest) " is " = startswith (y ++ " is") " is ".
Proof.
  destruct y as [|c1 [|c2 [|c3 [|c4 y]]]]; [congruence | | | |];
    intros _; reflexivity.
Qed.

(** The one blank of ["contains "] is its last character. *)
Lemma contains_word_boundary (x rest : string) :
  startswith (x ++ String " " rest) "contains " = startswith (x ++ " ") "contains ".
Proof.
  destruct x as [|c1 [|c2 [|c3 [|c4 [|c5 [|c6 [|c7 [|c8 [|c9 x]]]]]]]]];
    reflexivity.
Qed.

Lemma contains_unfold_false (sep : string) (c : ascii) (s : string) :
  contains sep (String c s) = false ->
  startswith (String c s) sep = false /\ contains sep s = false.
Proof.
  unfold contains. rewrite find_unfold.
  destruct (startswith (String c s) sep); [discriminate |].
  now destruct (find sep s).
Qed.

Lemma contains_and_skip (col rest : string) :
  contains " and " (col ++ " ") = false ->
  contains " and " (col ++ String " " rest) = contains " and " (String " " rest).
Proof.
  induction col as [|c col IH]; [reflexivity |].
  rewrite (append_cons c col " ").
  intros H. apply contains_unfold_false in H as [Hhere Hlater].
  rewrite <- (append_cons c col " ") in Hhere.
  rewrite <- and_boundary with (rest := rest) in Hhere by discriminate.
  rewrite (append_cons c col) in *.
  rewrite <- (IH Hlater). unfold contains at 1. rewrite find_unfold, Hhere.
  unfold contains. now destruct (find " and " (col ++ String " " rest)).
Qed.

Lemma partition_is_skip (col rest : string) :
  contains " is " (col ++ " is") = false ->
  partition " is " (col ++ " is " ++ rest) = Some (col, rest).
Proof.
  induction col as [|c col IH]; [intros _; apply (partition_here " is ") |].
  rewrite (append_cons c col " is").
  intros H. apply contains_unfold_false in H as [Hhere Hlater].
  rewrite <- (append_cons c col " is") in Hhere.
  rewrite <- is_boundary with (rest := rest) in Hhere by discriminate.
  rewrite (append_cons c col) in *.
  now rewrite partition_unfold, Hhere, (IH Hlater).
Qed.

Lemma startswith_length (p s : string) :
  startswith s p = true ->
  String.length s = (String.length p + String.length (drop_chars (String.length p) s))%nat.
Proof.
  revert s. induction p as [|a p IH]; intros s; [reflexivity |].
  destruct s as [|c s]; [discriminate |]. rewrite startswith_cons.
  intros H. apply andb_true_iff in H as [_ H]. simpl. now rewrite (IH s H) at 1.
Qed.

Lemma partition_length (sep s a b : string) :
  partition sep s = Some (a, b) ->
  String.length s = (String.length a + String.length sep + String.length b)%nat.
Proof.
  revert a b. induction s as [|c s IH]; intros a b; rewrite partition_unfold;
    destruct (startswith _ sep) eqn:Hs;
    try (intros [= <- <-]; rewrite (startswith_length _ _ Hs) at 1; simpl; lia);
    try discriminate.
  destruct (partition sep s) as [[a' b']|]; [| discriminate].
  intros [= <- <-]. simpl. rewrite (IH _ _ eq_refl). lia.
Qed.

(** The fuel of [split] is enough: more of it changes nothing. *)
Lemma split_fuel_enough (sep : string) :
  sep <> "" ->
  forall fuel s, (String.length s <= fuel)%nat -> split_fuel fuel sep s = split sep s.
Proof.
  intros Hsep.
  assert (H : forall f1 f2 s, (String.length s <= f1)%nat -> (String.length s <= f2)%nat ->
                              split_fuel f1 sep s = split_fuel f2 sep s).
  { induction f1 as [|f1 IH]; intros f2 s H1 H2.
    - destruct s; [| simpl in H1; lia].
      destruct f2; [reflexivity |]. cbn [split_fuel]. rewrite partition_unfold.
      destruct sep; [congruence | reflexivity].
    - destruct f2 as [|f2].
      + destruct s; [| simpl in H2; lia].
        cbn [split_fuel]. rewrite partition_unfold.
        destruct sep; [congruence | reflexivity].
      + cbn [split_fuel].
        destruct (partition sep s) as [[a b]|] eqn:Hp; [| reflexivity].
        apply partition_length in Hp.
        assert (0 < String.length sep)%nat by (destruct sep; [congruence | simpl; lia]).
        f_equal. apply IH; lia. }
  intros fuel s Hlen. unfold split. apply H; [exact Hlen | lia].
Qed.

Lemma split_absent (sep s : string) : contains sep s = false -> split sep s = [s].
Proof.
  intros H. unfold split.
  destruct (String.length s); cbn [split_fuel]; [reflexivity |].
  now rewrite (partition_none_contains _ _ H).
Qed.

End PyFacts.

(** ** Facts about the query compiler *)

Module QueryFacts.
Import Query PyFacts.

Lemma scan_ops_appends (ops : list string) (c : string) :
  exists new, (length new <= 1)%nat /\
    forall and_parts, scan_ops ops c and_parts = Ok (and_parts ++ new)%list.
Proof.
  induction ops as [|op ops IH]; cbn [scan_ops].
  - exists []. split; [simpl; lia | intros; now rewrite app_nil_r].
  - destruct (contains op c) eqn:Hin; [| exact IH].
    destruct (partition_found _ _ Hin) as (a & b & Hp).
    unfold split1. rewrite Hp. cbn zeta.
    destruct (dict_get mongo_op_map _).
    + eexists [_]. split; [simpl; lia | reflexivity].
    + exists []. split; [simpl; lia | intros; now rewrite app_nil_r].
Qed.

Lemma compile_clause_appends (c : string) :
  exists new, (length new <= 1)%nat /\
    forall and_parts, compile_clause c and_parts = Ok (and_parts ++ new)%list.
Proof.
  unfold compile_clause.
  destruct (startswith (lower c) "contains "); [| apply scan_ops_appends].
  destruct (3 <=? length (split_ws c))%nat eqn:Hlen.
  - apply Nat.leb_le in Hlen.
    destruct (split_ws c) as [|p0 [|p1 ps]]; simpl in *; try lia.
    eexists [_]. split; [simpl; lia | reflexivity].
  - exists []. split; [simpl; lia | intros; now rewrite app_nil_r].
Qed.

Lemma compile_clauses_appends (cs : list string) :
  exists new, forall and_parts,
    compile_clauses cs and_parts = Ok (and_parts ++ new)%list.
Proof.
  induction cs as [|c cs [rest IH]]; simpl.
  - exists []. intros; now rewrite app_nil_r.
  - destruct (compile_clause_appends c) as (new & _ & Hc).
    exists (new ++ rest)%list. intros acc.
    now rewrite Hc, IH, app_assoc.
Qed.

Lemma compile_clauses_app (cs1 cs2 : list string) (and_parts : list filter) :
  compile_clauses (cs1 ++ cs2) and_parts =
  match compile_clauses cs1 and_parts with
  | Ok mid => compile_clauses cs2 mid
  | Raise e => Raise e
  end.
Proof.
  revert and_parts. induction cs1 as [|c cs1 IH]; intros acc; simpl; [reflexivity |].
  destruct (compile_clause c acc); [apply IH | reflexivity].
Qed.

Lemma build_filter_scoped (id q : string) :
  exists f, build_filter id q = Ok f /\ scoped id f.
Proof.
  unfold build_filter, scoped.
  destruct (String.eqb (strip q) ""); [eauto |].
  destruct (compile_clauses_appends (clauses_of (strip q))) as [new H].
  rewrite H. simpl. destruct new; eauto.
Qed.

Lemma scoped_matches (holds : string -> condition -> document -> bool)
  (id : string) (f : filter) (d : document) :
  scoped id f -> matches holds f d = true -> fields d !! "dataset_id" = Some id.
Proof.
  intros [-> | [parts ->]]; simpl.
  - destruct (fields d !! "dataset_id") as [t|]; [| discriminate].
    intros H. apply String.eqb_eq in H. now subst.
  - destruct (fields d !! "dataset_id") as [t|]; [| discriminate].
    intros H. apply andb_true_iff in H as [H _].
    apply String.eqb_eq in H. now subst.
Qed.

(** C1. Whatever the dataset id and the query text (empty, well formed, or
    with every clause dropped), [query_dataset] hands the store a filter
    that is either the dataset-id equality alone or a conjunction whose
    first member is that equality; a record the filter matches therefore
    always has the requested [dataset_id]. *)
Theorem filter_always_scoped (req : QueryRequest) :
  exists call,
    query_dataset true req = Ok call /\
    build_filter (dataset_id req) (query req) = Ok (find_filter call) /\
    scoped (dataset_id req) (find_filter call) /\
    forall holds d,
      matches holds (find_filter call) d = true ->
      fields d !! "dataset_id" = Some (dataset_id req).
Proof.
  unfold query_dataset. simpl.
  destruct (build_filter_scoped (dataset_id req) (query req)) as (f & Hf & Hs).
  rewrite Hf. eexists. split; [reflexivity |]. simpl.
  split; [reflexivity |]. split; [exact Hs |].
  intros holds d. now apply scoped_matches.
Qed.

Lemma filter_always_scoped_witness :
  matches (fun _ _ _ => true) (Equals "dataset_id" "ds1") sample_doc = true /\
  fields sample_doc !! "dataset_id" = Some "ds1".
Proof.
  split; [reflexivity |].
  destruct (filter_always_scoped (make_request "ds1" "nothing to parse" None))
    as (call & Hq & _ & _ & Hm).
  apply (Hm (fun _ _ _ => true) sample_doc).
  vm_compute in Hq. injection Hq as <-. reflexivity.
Defined.

(** *** Malformed clauses *)

Lemma scan_ops_none (ops : list string) (c : string) (and_parts : list filter) :
  forallb (fun op => negb (contains op c)) ops = true ->
  scan_ops ops c and_parts = Ok and_parts.
Proof.
  induction ops as [|op ops IH]; cbn [scan_ops forallb]; [reflexivity |].
  intros H. apply andb_true_iff in H as [H1 H2].
  apply negb_true_iff in H1. rewrite H1. now apply IH.
Qed.

(** C3. A malformed clause is dropped without an error and without
    touching the others: a [contains] clause of fewer than three
    whitespace-separated tokens, and a clause holding no operator token,
    leave [and_parts] as it was; every clause adds at most one condition,
    the same whatever the clauses before it added, so the conditions of a
    list of clauses are those of its parts put one after the other.  The
    query ["contains name John and age >= 30"] gives the dataset scope, a
    case-insensitive regex on [data.name] and [$gte 30] on [data.age], and
    making either clause malformed leaves the other in place. *)
Theorem malformed_clauses_dropped :
  (forall c and_parts,
      startswith (lower c) "contains " = true ->
      (length (split_ws c) < 3)%nat ->
      compile_clause c and_parts = Ok and_parts) /\
  (forall c and_parts,
      startswith (lower c) "contains " = false ->
      forallb (fun op => negb (contains op c)) operators = true ->
      compile_clause c and_parts = Ok and_parts) /\
  (forall c, exists new,
      (length new <= 1)%nat /\
      forall and_parts, compile_clause c and_parts = Ok (and_parts ++ new)%list) /\
  (forall cs1 cs2, exists p1 p2,
      compile_clauses cs1 [] = Ok p1 /\
      compile_clauses cs2 [] = Ok p2 /\
      compile_clauses (cs1 ++ cs2) [] = Ok (p1 ++ p2)%list) /\
  (forall id,
      build_filter id "contains name John and age >= 30" =
      Ok (And [Equals "dataset_id" id;
               Field "data.name" (Regex "John" "i");
               Field "data.age" (Compare "$gte" (VInt 30))])) /\
  (forall id,
      build_filter id "contains name and age >= 30" =
      Ok (And [Equals "dataset_id" id;
               Field "data.age" (Compare "$gte" (VInt 30))])) /\
  (forall id,
      build_filter id "contains name John and age" =
      Ok (And [Equals "dataset_id" id;
               Field "data.name" (Regex "John" "i")])).
Proof.
  repeat split; try (intros id; reflexivity).
  - intros c acc Hpre Hlen. unfold compile_clause. rewrite Hpre.
    apply Nat.leb_gt in Hlen. now rewrite Hlen.
  - intros c acc Hpre Hops. unfold compile_clause. rewrite Hpre.
    now apply scan_ops_none.
  - apply compile_clause_appends.
  - intros cs1 cs2.
    destruct (compile_clauses_appends cs1) as [p1 H1].
    destruct (compile_clauses_appends cs2) as [p2 H2].
    exists p1, p2. rewrite compile_clauses_app, !H1. simpl. rewrite !H2.
    repeat split; reflexivity.
Qed.

Lemma malformed_clauses_dropped_witness :
  compile_clause "contains name" [] = Ok [] /\
  compile_clause "age" [] = Ok [].
Proof.
  destruct malformed_clauses_dropped as (Hshort & Hnoop & _).
  split.
  - apply Hshort; [reflexivity | simpl; lia].
  - apply Hnoop; reflexivity.
Defined.

(** *** The not-equal operator *)

(** No clause ever compiles to a [$ne] condition: a clause holding [!=]
    holds [=], which the scan meets first. *)
Lemma ne_never_emitted (c : string) :
  exists new,
    (forall and_parts, compile_clause c and_parts = Ok (and_parts ++ new)%list) /\
    existsb is_ne new = false.
Proof.
  unfold compile_clause.
  destruct (startswith (lower c) "contains ").
  - destruct (3 <=? length (split_ws c))%nat eqn:Hlen.
    + apply Nat.leb_le in Hlen.
      destruct (split_ws c) as [|p0 [|p1 ps]]; simpl in *; try lia.
      eexists [_]. split; [reflexivity | reflexivity].
    + exists []. split; [intros; now rewrite app_nil_r | reflexivity].
  - unfold operators. cbn [scan_ops].
    repeat match goal with
      | |- context [if contains ?op c then _ else _] =>
          let H := fresh "Hin" in
          destruct (contains op c) eqn:H;
          [ first
              [ destruct (partition_found _ _ H) as (a & b & Hp);
                unfold split1; rewrite Hp;
                eexists [_]; split; [reflexivity | reflexivity]
              | apply contains_ne_eq in H; congruence ]
          | ]
      end.
    exists []. split; [intros; now rewrite app_nil_r | reflexivity].
Qed.

(** C2. The clause ["age != 30"] holds the token ["="], which stands before
    ["!="] in the scan order, so it is cut at ["="]: the column is
    ["age !"] and the comparison is [$eq], not [$ne] on [data.age].  The
    same happens to every clause: none compiles to a [$ne] condition. *)
Theorem not_equal_cut_at_equals :
  (forall id,
      build_filter id "age != 30" =
      Ok (And [Equals "dataset_id" id;
               Field "data.age !" (Compare "$eq" (VInt 30))])) /\
  (forall c, exists new,
      (forall and_parts, compile_clause c and_parts = Ok (and_parts ++ new)%list) /\
      existsb is_ne new = false).
Proof.
  split.
  - intros id. reflexivity.
  - intros c. apply ne_never_emitted.
Qed.

(** *** The contains clause *)

(** The text after the column goes into [$regex] as it is. *)
Lemma contains_pattern_verbatim (c kw col : string) (and_parts : list filter)
  (words : list string) :
  startswith (lower c) "contains " = true ->
  split_ws c = kw :: col :: words ->
  words <> [] ->
  compile_clause c and_parts =
  Ok (and_parts ++ [Field ("data." ++ col) (Regex (join " " words) "i")])%list.
Proof.
  intros Hpre Hw Hne. unfold compile_clause. rewrite Hpre, Hw.
  destruct words; [congruence | reflexivity].
Qed.

(** C9. For ["contains name a.c"] the store is handed the regular
    expression [a.c] with option [i]: the dot is not escaped, so the
    condition is a pattern search, not a search for the text [a.c].  In
    the same way ["contains name ("] hands over the text [(], which is no
    regular expression at all. *)
Theorem contains_pattern_not_escaped (id : string) :
  build_filter id "contains name a.c" =
    Ok (And [Equals "dataset_id" id; Field "data.name" (Regex "a.c" "i")]) /\
  build_filter id "contains name (" =
    Ok (And [Equals "dataset_id" id; Field "data.name" (Regex "(" "i")]).
Proof.
  split.
  - reflexivity.
  - reflexivity.
Qed.

(** *** The limit *)

(** C8. The limit of the storage call is [min(max(limit, 1), 1000)]: it
    lies in [1, 1000], is 1 for a requested limit of 0 or less, the limit
    itself in between, 1000 from 1000 up (so for 5000), and 100 when the
    request leaves the limit out. *)
Theorem limit_clamped :
  (forall req, exists call,
      query_dataset true req = Ok call /\
      find_limit call = Z.min (Z.max (limit req) 1) 1000 /\
      (1 <= find_limit call <= 1000)%Z /\
      ((limit req <= 0)%Z -> find_limit call = 1%Z) /\
      ((1 <= limit req <= 1000)%Z -> find_limit call = limit req) /\
      ((1000 <= limit req)%Z -> find_limit call = 1000%Z)) /\
  (forall id q, exists call,
      query_dataset true (make_request id q None) = Ok call /\
      find_limit call = 100%Z).
Proof.
  split.
  - intros req. unfold query_dataset. simpl.
    destruct (build_filter_scoped (dataset_id req) (query req)) as (f & Hf & _).
    rewrite Hf. eexists. split; [reflexivity |]. simpl.
    repeat split; lia.
  - intros id q. unfold query_dataset. simpl.
    destruct (build_filter_scoped id q) as (f & Hf & _).
    rewrite Hf. eexists. split; reflexivity.
Qed.

Lemma limit_clamped_witness :
  exists c0 c5000,
    query_dataset true (make_request "ds1" "price > 100" (Some 0%Z)) = Ok c0 /\
    find_limit c0 = 1%Z /\
    query_dataset true (make_request "ds1" "price > 100" (Some 5000%Z)) = Ok c5000 /\
    find_limit c5000 = 1000%Z.
Proof.
  destruct limit_clamped as [H _].
  destruct (H (make_request "ds1" "price > 100" (Some 0%Z)))
    as (c0 & Hq0 & _ & _ & Hlow & _ & _).
  destruct (H (make_request "ds1" "price > 100" (Some 5000%Z)))
    as (c1 & Hq1 & _ & _ & _ & _ & Hhigh).
  exists c0, c1. repeat split.
  - exact Hq0.
  - apply Hlow. simpl. lia.
  - exact Hq1.
  - apply Hhigh. simpl. lia.
Defined.

(** *** The cast of the right-hand side *)

Lemma scan_ops_skip (pre ops : list string) (c : string) (and_parts : list filter) :
  forallb (fun op => negb (contains op c)) pre = true ->
  scan_ops (pre ++ ops) c and_parts = scan_ops ops c and_parts.
Proof.
  induction pre as [|op pre IH]; cbn [scan_ops forallb app]; [reflexivity |].
  intros H. apply andb_true_iff in H as [H1 H2].
  apply negb_true_iff in H1. rewrite H1. now apply IH.
Qed.

Lemma operator_known (op : string) :
  In op operators ->
  exists m, dict_get mongo_op_map (if String.eqb (strip op) "is" then "=" else op)
            = Some m.
Proof.
  unfold operators. simpl.
  intros [<- | [<- | [<- | [<- | [<- | [<- | [<- | []]]]]]]];
    eexists; reflexivity.
Qed.

(** C4. The value of a comparison comes from the text alone: whatever
    operator the scan stops at, the clause compares the column with the
    cast of the trimmed right-hand side, and that cast is [True]/[False]
    when the text is ["true"]/["false"] in any letter case, else the
    integer read from a text without a dot, else the float read from a
    text with a dot, else the text itself.  No column type enters it.
    The query ["price > 100"] compares [data.price] with the number 100
    under [$gt], within the dataset scope. *)
Theorem cast_is_syntactic :
  (forall val, lower val = "true" -> cast val = VBool true) /\
  (forall val, lower val = "false" -> cast val = VBool false) /\
  (forall val n,
      lower val <> "true" -> lower val <> "false" ->
      contains "." val = false -> int_ val = Ok n -> cast val = VInt n) /\
  (forall val f,
      lower val <> "true" -> lower val <> "false" ->
      contains "." val = true -> float_ val = Ok f -> cast val = VFloat f) /\
  (forall val,
      lower val <> "true" -> lower val <> "false" ->
      (if contains "." val then is_ok (float_ val) else is_ok (int_ val)) = false ->
      cast val = VStr val) /\
  (forall c and_parts pre op post a b,
      startswith (lower c) "contains " = false ->
      operators = (pre ++ op :: post)%list ->
      forallb (fun o => negb (contains o c)) pre = true ->
      partition op c = Some (a, b) ->
      exists m,
        compile_clause c and_parts =
        Ok (and_parts ++ [Field ("data." ++ strip a) (Compare m (cast (strip b)))])%list) /\
  (forall id,
      build_filter id "price > 100" =
      Ok (And [Equals "dataset_id" id;
               Field "data.price" (Compare "$gt" (VInt 100))])).
Proof.
  repeat split; try (intros id; reflexivity).
  - intros val H. unfold cast. now rewrite H.
  - intros val H. unfold cast. now rewrite H.
  - intros val n Ht Hf Hdot Hint. unfold cast. simpl existsb.
    apply String.eqb_neq in Ht, Hf.
    now rewrite Ht, Hf, Hdot, Hint.
  - intros val f Ht Hf Hdot Hfl. unfold cast. simpl existsb.
    apply String.eqb_neq in Ht, Hf.
    now rewrite Ht, Hf, Hdot, Hfl.
  - intros val Ht Hf Hfail. unfold cast. simpl existsb.
    apply String.eqb_neq in Ht, Hf.
    rewrite Ht, Hf. simpl.
    destruct (contains "." val).
    + destruct (float_ val); [discriminate | reflexivity].
    + destruct (int_ val); [discriminate | reflexivity].
  - intros c acc pre op post a b Hpre Hops Hskip Hp.
    assert (Hin : In op operators) by (rewrite Hops; apply in_elt).
    destruct (operator_known op Hin) as [m Hm].
    exists m. unfold compile_clause. rewrite Hpre, Hops, scan_ops_skip by exact Hskip.
    cbn [scan_ops]. rewrite (partition_contains _ _ _ _ Hp).
    unfold split1. rewrite Hp. cbn zeta. now rewrite Hm.
Qed.

Lemma cast_is_syntactic_witness :
  cast "TRUE" = VBool true /\
  cast "False" = VBool false /\
  cast "-42" = VInt (-42) /\
  cast "1.5" = VFloat (Fdec false 15 (-1)) /\
  cast "1e5" = VStr "1e5" /\
  (exists m, compile_clause "total<=2.50" [] =
             Ok [Field "data.total" (Compare m (VFloat (Fdec false 250 (-2))))]).
Proof.
  destruct cast_is_syntactic as (Ht & Hf & Hi & Hd & Hs & Hc & _).
  repeat apply conj.
  - apply Ht. reflexivity.
  - apply Hf. reflexivity.
  - apply Hi; [discriminate | discriminate | reflexivity | reflexivity].
  - apply Hd; [discriminate | discriminate | reflexivity | reflexivity].
  - apply Hs; [discriminate | discriminate | reflexivity].
  - apply (Hc "total<=2.50" [] [">="] "<=" [">"; "<"; "="; "!="; " is "]
             "total" "2.50"); reflexivity.
Defined.

(** *** The [is] operator *)

Lemma plain_pair_intro (col val : string) :
  plain_column col = true -> plain_value val = true -> plain_pair col val.
Proof.
  unfold plain_column, plain_value, no_operator_char.
  rewrite !andb_true_iff, !negb_true_iff, !orb_false_iff.
  intros [[[[[Hc1 Hc2] [[Hc3 Hc4] Hc5]] Hc6] Hc7] Hc8]
         [[[Hv1 Hv2] [[Hv3 Hv4] Hv5]] Hv6].
  apply String.eqb_neq in Hc1, Hv1. apply String.eqb_eq in Hc2, Hv2.
  destruct (strip_fixed _ Hc2). destruct (strip_fixed _ Hv2). now split.
Qed.

Lemma plain_value_strip (col val : string) : plain_pair col val -> strip val = val.
Proof. intros P. unfold strip. now rewrite (val_lstrip _ _ P), (val_rstrip _ _ P). Qed.

Lemma plain_column_strip (col val : string) :
  plain_pair col val -> strip col = col /\ strip (col ++ " ") = col.
Proof.
  intros P. unfold strip. split.
  - now rewrite (col_lstrip _ _ P), (col_rstrip _ _ P).
  - rewrite lstrip_app by apply P. rewrite rstrip_app_space. apply P.
Qed.

(** The clause text survives trimming and splitting as one clause that is
    not a [contains] clause. *)
Lemma plain_clause (col mid val : string) :
  plain_pair col val ->
  mid = " is " \/ mid = " = " ->
  let q := col ++ mid ++ val in
  strip q = q /\ q <> "" /\ clauses_of q = [q] /\
  startswith (lower q) "contains " = false.
Proof.
  intros P Hmid q.
  assert (Hq : strip q = q).
  { unfold strip, q. rewrite lstrip_app by apply P.
    apply rstrip_app; [| apply append_nonempty, P].
    apply rstrip_app; apply P. }
  assert (Hne : q <> "").
  { unfold q. destruct col; [now destruct P | push_app; discriminate]. }
  split; [exact Hq |]. split; [exact Hne |]. split.
  - unfold clauses_of. rewrite split_absent.
    + cbn [List.filter]. rewrite Hq.
      apply String.eqb_neq in Hne. rewrite Hne. cbn [negb map]. now rewrite Hq.
    + pose proof (val_no_and _ _ P) as Hand. unfold contains in Hand.
      rewrite append_cons, append_nil in Hand.
      unfold q. destruct Hmid as [-> | ->]; push_app;
        rewrite contains_and_skip by apply P; unfold contains;
        rewrite !find_skip_char by reflexivity;
        now destruct (find " and " (String " " val)).
  - etransitivity; [| exact (col_not_contains _ _ P)].
    unfold q. rewrite !(lower_app col). change (lower " ") with " ".
    destruct Hmid as [-> | ->].
    + change (lower (" is " ++ val)) with (String " " (lower ("is " ++ val))).
      apply contains_word_boundary.
    + change (lower (" = " ++ val)) with (String " " (lower ("= " ++ val))).
      apply contains_word_boundary.
Qed.

Lemma no_operator_in (a : ascii) (col mid val : string) :
  has_char a col = false -> has_char a mid = false -> has_char a val = false ->
  has_char a (col ++ mid ++ val) = false.
Proof. intros H1 H2 H3. now rewrite !has_char_app, H1, H2, H3. Qed.

Lemma is_clause (col val : string) (and_parts : list filter) :
  plain_pair col val ->
  scan_ops operators (col ++ " is " ++ val) and_parts =
  Ok (and_parts ++ [Field ("data." ++ col) (Compare "$eq" (cast val))])%list.
Proof.
  intros P. set (q := col ++ " is " ++ val).
  assert (Hlt : has_char "<" q = false) by (apply no_operator_in; (apply P || reflexivity)).
  assert (Hgt : has_char ">" q = false) by (apply no_operator_in; (apply P || reflexivity)).
  assert (Heq : has_char "=" q = false) by (apply no_operator_in; (apply P || reflexivity)).
  assert (Hp : partition " is " q = Some (col, val))
    by (apply partition_is_skip, P).
  unfold operators. cbn [scan_ops].
  rewrite (contains_needs_char ">" ">=" q eq_refl Hgt).
  rewrite (contains_needs_char "<" "<=" q eq_refl Hlt).
  rewrite (contains_needs_char ">" ">" q eq_refl Hgt).
  rewrite (contains_needs_char "<" "<" q eq_refl Hlt).
  rewrite (contains_needs_char "=" "=" q eq_refl Heq).
  rewrite (contains_needs_char "=" "!=" q eq_refl Heq).
  rewrite (partition_contains _ _ _ _ Hp).
  unfold split1. rewrite Hp. cbn zeta.
  destruct (plain_column_strip _ _ P) as [-> _].
  rewrite (plain_value_strip _ _ P). reflexivity.
Qed.

Lemma equals_clause (col val : string) (and_parts : list filter) :
  plain_pair col val ->
  scan_ops operators (col ++ " = " ++ val) and_parts =
  Ok (and_parts ++ [Field ("data." ++ col) (Compare "$eq" (cast val))])%list.
Proof.
  intros P. set (q := col ++ " = " ++ val).
  assert (Hlt : has_char "<" q = false) by (apply no_operator_in; (apply P || reflexivity)).
  assert (Hgt : has_char ">" q = false) by (apply no_operator_in; (apply P || reflexivity)).
  assert (Hp : partition "=" q = Some (col ++ " ", " " ++ val)).
  { unfold q. rewrite partition_skip by apply P.
    change (" = " ++ val) with (" " ++ "=" ++ " " ++ val).
    rewrite partition_skip by reflexivity.
    now rewrite partition_here. }
  unfold operators. cbn [scan_ops].
  rewrite (contains_needs_char ">" ">=" q eq_refl Hgt).
  rewrite (contains_needs_char "<" "<=" q eq_refl Hlt).
  rewrite (contains_needs_char ">" ">" q eq_refl Hgt).
  rewrite (contains_needs_char "<" "<" q eq_refl Hlt).
  rewrite (partition_contains _ _ _ _ Hp).
  unfold split1. rewrite Hp. cbn zeta.
  destruct (plain_column_strip _ _ P) as [_ ->].
  change (strip (" " ++ val)) with (strip val).
  rewrite (plain_value_strip _ _ P). reflexivity.
Qed.

(** C7, amended. For a column name and a value that are not empty, have
    no white space at either end and none of [<], [>] and [=], where the
    column name brings no earlier [" is "], no separator [" and "] and no
    leading [contains ] into the query and the value brings no separator
    [" and "] into it, the queries [col is val] and [col = val] compile to
    the same filter: the dataset scope and [$eq] on [data.col] with the
    cast of [val]. *)
Theorem is_same_as_equals (id col val : string) :
  plain_column col = true ->
  plain_value val = true ->
  build_filter id (col ++ " is " ++ val) =
    Ok (And [Equals "dataset_id" id;
             Field ("data." ++ col) (Compare "$eq" (cast val))]) /\
  build_filter id (col ++ " = " ++ val) = build_filter id (col ++ " is " ++ val).
Proof.
  intros Hcol Hval. pose proof (plain_pair_intro _ _ Hcol Hval) as P.
  assert (H : forall mid, mid = " is " \/ mid = " = " ->
            build_filter id (col ++ mid ++ val) =
            Ok (And [Equals "dataset_id" id;
                     Field ("data." ++ col) (Compare "$eq" (cast val))])).
  { intros mid Hmid.
    destruct (plain_clause col mid val P Hmid) as (Hq & Hne & Hcl & Hpre).
    unfold build_filter. rewrite Hq.
    apply String.eqb_neq in Hne. rewrite Hne, Hcl.
    cbn [compile_clauses]. unfold compile_clause. rewrite Hpre.
    destruct Hmid as [-> | ->].
    - now rewrite is_clause.
    - now rewrite equals_clause. }
  split; [apply H; now left |].
  rewrite !H by auto. reflexivity.
Qed.

Lemma is_same_as_equals_witness :
  (build_filter "ds1" "status is true" =
     Ok (And [Equals "dataset_id" "ds1";
              Field "data.status" (Compare "$eq" (VBool true))]) /\
   build_filter "ds1" "status = true" = build_filter "ds1" "status is true") /\
  (build_filter "ds1" "first name is John Smith" =
     Ok (And [Equals "dataset_id" "ds1";
              Field "data.first name" (Compare "$eq" (VStr "John Smith"))]) /\
   build_filter "ds1" "first name = John Smith" =
     build_filter "ds1" "first name is John Smith").
Proof.
  split.
  - apply (is_same_as_equals "ds1" "status" "true"); reflexivity.
  - apply (is_same_as_equals "ds1" "first name" "John Smith"); reflexivity.
Defined.

(** C7, as stated, fails: with the value [a=b] the query [note is a=b] is
    cut at [=], inside the value, and compares the column [note is a]
    with [b], while [note = a=b] compares [note] with [a=b]. *)
Lemma is_differs_from_equals :
  build_filter "ds1" ("note" ++ " is " ++ "a=b")
  <> build_filter "ds1" ("note" ++ " = " ++ "a=b").
Proof. vm_compute. discriminate. Qed.

End QueryFacts.

(** ** Facts about the upload *)

Module UploadFacts.
Import Upload.

(** *** Decoding *)

(** The strict handler does raise on a byte that starts no sequence. *)
Example strict_decode_raises :
  utf8_decode Strict [Byte.x61; Byte.xff] = Raise UnicodeDecodeError.
Proof. reflexivity. Qed.

Example ignore_decode_skips :
  utf8_decode Ignore [Byte.x61; Byte.xff; Byte.xc3; Byte.xa9; Byte.xe2; Byte.x82]
  = Ok [97%N; 233%N].
Proof. reflexivity. Qed.

(** C10. Decoding the uploaded bytes as UTF-8 with the [ignore] handler
    gives a text for every byte sequence, so the handler of the [try]
    around it, the 400 answer "Unable to decode file as UTF-8", is never
    reached. *)
Theorem decode_never_fails (content : list Byte.byte) :
  exists text,
    utf8_decode Ignore content = Ok text /\
    decode_content content = Ok text.
Proof.
  destruct (PyFacts.utf8_decode_ignore_bounded (length content) content)
    as [text H]; [lia |].
  exists text. split; [exact H |].
  unfold decode_content. now rewrite H.
Qed.

(** *** Type detection *)

(** C6, as stated, fails: a cell with a leading space, [" true"], is typed
    [boolean], while the rules read on the cell as given make it
    [string]. *)
Lemma detection_reads_trimmed_value :
  infer_type (Some " true") = "boolean" /\
  infer_type_rules (Some " true") = "string" /\
  infer_type (Some " true") <> infer_type_rules (Some " true").
Proof. repeat split; discriminate. Qed.

(** C6, amended. The rules apply, first match first, to the value with
    its leading and trailing whitespace removed: a missing or empty value
    is [string]; otherwise, with [v] the trimmed value, [true]/[false] in
    any letter case is [boolean]; else a [v] that [int] or else [float]
    reads is [number]; else a [v] holding [-] or [/] and a digit is
    [date]; else [string]. *)
Theorem detection_first_match :
  (forall value, infer_type value = infer_type_rules (strip <$> value)) /\
  infer_type None = "string" /\
  infer_type (Some "") = "string" /\
  (forall s, s <> "" ->
     let v := strip s in
     (lower v = "true" \/ lower v = "false" -> infer_type (Some s) = "boolean") /\
     (lower v <> "true" -> lower v <> "false" ->
      is_ok (int_ v) || is_ok (float_ v) = true ->
      infer_type (Some s) = "number") /\
     (lower v <> "true" -> lower v <> "false" ->
      is_ok (int_ v) = false -> is_ok (float_ v) = false ->
      (contains "-" v || contains "/" v) && any_char isdigit v = true ->
      infer_type (Some s) = "date") /\
     (lower v <> "true" -> lower v <> "false" ->
      is_ok (int_ v) = false -> is_ok (float_ v) = false ->
      (contains "-" v || contains "/" v) && any_char isdigit v = false ->
      infer_type (Some s) = "string")).
Proof.
  split; [| split; [reflexivity | split; [reflexivity |]]].
  - intros [s|]; [| reflexivity]. cbn [fmap option_fmap option_map].
    unfold infer_type, infer_type_rules.
    destruct (String.eqb s "") eqn:Hs.
    + apply String.eqb_eq in Hs. now subst.
    + destruct (String.eqb (strip s) "") eqn:Hv.
      * apply String.eqb_eq in Hv. now rewrite Hv.
      * cbn [existsb]. now rewrite !orb_false_r.
  - intros s Hs v. apply String.eqb_neq in Hs.
    unfold infer_type. rewrite Hs. fold v. cbn [existsb]. rewrite !orb_false_r.
    repeat apply conj.
    + intros [H | H]; rewrite H; reflexivity.
    + intros Ht Hf Hnum. apply String.eqb_neq in Ht, Hf. rewrite Ht, Hf.
      cbn [orb]. destruct (is_ok (int_ v)); [reflexivity |].
      cbn [orb] in Hnum. now rewrite Hnum.
    + intros Ht Hf Hi Hfl Hd. apply String.eqb_neq in Ht, Hf.
      now rewrite Ht, Hf, Hi, Hfl, Hd.
    + intros Ht Hf Hi Hfl Hd. apply String.eqb_neq in Ht, Hf.
      now rewrite Ht, Hf, Hi, Hfl, Hd.
Qed.

Lemma detection_first_match_witness :
  infer_type (Some " True ") = "boolean" /\
  infer_type (Some "12") = "number" /\
  infer_type (Some "1.5e3") = "number" /\
  infer_type (Some "2024-01-31") = "date" /\
  infer_type (Some "a-b") = "string".
Proof.
  destruct detection_first_match as (_ & _ & _ & H).
  repeat apply conj.
  - apply (H " True "); [discriminate | left; reflexivity].
  - apply (H "12"); [discriminate | discriminate | discriminate | reflexivity].
  - apply (H "1.5e3"); [discriminate | discriminate | discriminate | reflexivity].
  - apply (H "2024-01-31"); try discriminate; reflexivity.
  - apply (H "a-b"); try discriminate; reflexivity.
Defined.

(** *** Votes *)

Lemma votes_for_app (t : string) (l1 l2 : list string) :
  votes_for t (l1 ++ l2) = (votes_for t l1 + votes_for t l2)%nat.
Proof. induction l1 as [|x l1 IH]; simpl; [reflexivity | rewrite IH; lia]. Qed.

Lemma votes_for_pos (t : string) (l : list string) :
  In t l <-> (0 < votes_for t l)%nat.
Proof.
  induction l as [|x l IH]; simpl; [split; [tauto | lia] |].
  destruct (String.eqb_spec x t) as [-> | Hne].
  - split; [lia | auto].
  - rewrite <- IH. simpl. split; [intros [H | H]; [congruence | exact H] | auto].
Qed.

Lemma votes_for_absent (t : string) (l : list string) :
  ~ In t l -> votes_for t l = O.
Proof. rewrite votes_for_pos. lia. Qed.

Lemma first_vote_app_in (t : string) (l1 l2 : list string) :
  In t l1 -> first_vote t (l1 ++ l2) = first_vote t l1.
Proof.
  induction l1 as [|x l1 IH]; simpl; [tauto |].
  destruct (String.eqb_spec x t) as [-> | Hne]; [reflexivity |].
  intros [H | H]; [congruence | now rewrite IH].
Qed.

Lemma first_vote_app_out (t : string) (l1 l2 : list string) :
  ~ In t l1 -> first_vote t (l1 ++ l2) = (length l1 + first_vote t l2)%nat.
Proof.
  induction l1 as [|x l1 IH]; simpl; [reflexivity |].
  destruct (String.eqb_spec x t) as [-> | Hne]; [tauto |].
  intros H. rewrite IH; [reflexivity | tauto].
Qed.

Lemma first_vote_lt (t : string) (l : list string) :
  In t l -> (first_vote t l < length l)%nat.
Proof.
  induction l as [|x l IH]; simpl; [tauto |].
  destruct (String.eqb_spec x t) as [-> | Hne]; [lia |].
  intros [H | H]; [congruence | specialize (IH H); lia].
Qed.

(** *** One vote *)

Lemma vote_cases (d : tally) (x : string) :
  (exists i n, d !! i = Some (x, n) /\ vote d x = <[i := (x, S n)]> d) \/
  ((forall i e, d !! i = Some e -> fst e <> x) /\ vote d x = (d ++ [(x, 1%nat)])%list).
Proof.
  unfold vote. induction d as [|[k m] d IH]; simpl.
  - right. split; [intros i e; discriminate | reflexivity].
  - destruct (String.eqb_spec k x) as [-> | Hne].
    + left. exists O, m. split; [reflexivity |]. simpl. now rewrite Nat.add_1_r.
    + destruct IH as [(i & n & Hi & Hv) | [Hnone Hv]].
      * left. exists (S i), n. split; [exact Hi |]. simpl. now rewrite Hv.
      * right. split; [| now rewrite Hv].
        intros [|i] e; simpl; [intros [= <-]; exact Hne | apply Hnone].
Qed.

(** *** The tally of a list of votes *)

Lemma tally_of_snoc (l : list string) (x : string) :
  tally_of (l ++ [x]) = vote (tally_of l) x.
Proof. unfold tally_of. now rewrite foldl_app. Qed.

Lemma tally_invariant_vote (l : list string) (d : tally) (x : string) :
  tally_invariant l d -> tally_invariant (l ++ [x]) (vote d x).
Proof.
  intros [Hc Hs Ho].
  destruct (vote_cases d x) as [(i0 & n & Hi0 & ->) | [Hnone ->]].
  - (* the key is there already *)
    destruct (Hs _ _ Hi0) as [Hxl Hn]. simpl in Hxl, Hn.
    assert (Hlt : (i0 < length d)%nat) by (eapply lookup_lt_Some; eauto).
    assert (Hkey : forall i e, d !! i = Some e -> fst e = x -> i = i0).
    { intros i e Hi He.
      destruct (Nat.lt_trichotomy i i0) as [H | [H | H]]; [| exact H |].
      - specialize (Ho _ _ _ _ H Hi Hi0). simpl in Ho. rewrite He in Ho. lia.
      - specialize (Ho _ _ _ _ H Hi0 Hi). simpl in Ho. rewrite He in Ho. lia. }
    assert (Hlook : forall i e, <[i0 := (x, S n)]> d !! i = Some e ->
              exists e0, d !! i = Some e0 /\ fst e0 = fst e /\
                         snd e = (snd e0 + (if String.eqb x (fst e) then 1 else 0))%nat).
    { intros i e. destruct (Nat.eq_dec i0 i) as [<- | Hne].
      - rewrite list_lookup_insert_eq by exact Hlt. intros [= <-].
        exists (x, n). simpl. rewrite String.eqb_refl. repeat split; [exact Hi0 | lia].
      - rewrite list_lookup_insert_ne by exact Hne. intros Hi.
        exists e. repeat split; [exact Hi |].
        destruct (String.eqb_spec x (fst e)) as [He | _]; [| lia].
        exfalso. apply Hne. symmetry. eapply Hkey; eauto. }
    split.
    + intros t Ht. apply in_app_or in Ht.
      assert (Htl : In t l) by (destruct Ht as [H | [<- | []]]; assumption).
      destruct (Hc _ Htl) as [i Hi]. exists i.
      rewrite votes_for_app. simpl.
      destruct (Nat.eq_dec i0 i) as [<- | Hne].
      * rewrite Hi0 in Hi. injection Hi as -> ->.
        rewrite list_lookup_insert_eq by exact Hlt.
        rewrite String.eqb_refl. do 2 f_equal. lia.
      * rewrite list_lookup_insert_ne by exact Hne. rewrite Hi.
        destruct (String.eqb_spec x t) as [-> | _]; [| do 2 f_equal; lia].
        exfalso. apply Hne. symmetry. eapply Hkey; eauto.
    + intros i e Hi. destruct (Hlook _ _ Hi) as (e0 & Hi' & Hk & Hv).
      destruct (Hs _ _ Hi') as [Hin Hcount]. rewrite <- Hk.
      split; [apply in_or_app; now left |].
      rewrite votes_for_app. simpl. rewrite Hv, Hcount, Hk. lia.
    + intros i j e1 e2 Hij Hi Hj.
      destruct (Hlook _ _ Hi) as (a1 & Hi' & Hk1 & _).
      destruct (Hlook _ _ Hj) as (a2 & Hj' & Hk2 & _).
      rewrite <- Hk1, <- Hk2.
      rewrite !first_vote_app_in by (eapply Hs; eauto).
      eapply Ho; eauto.
  - (* a new key *)
    assert (Hxl : ~ In x l).
    { intros H. destruct (Hc _ H) as [i Hi]. now apply (Hnone _ _ Hi). }
    split.
    + intros t Ht. rewrite votes_for_app. simpl.
      apply in_app_or in Ht. destruct (String.eqb_spec x t) as [<- | Hne].
      * exists (length d). rewrite votes_for_absent by exact Hxl.
        rewrite lookup_app_r by lia. now rewrite Nat.sub_diag.
      * destruct Ht as [Ht | [Ht | []]]; [| congruence].
        destruct (Hc _ Ht) as [i Hi]. exists i.
        rewrite (lookup_app_l_Some _ _ _ _ Hi). do 2 f_equal. lia.
    + intros i e Hi. apply lookup_app_Some in Hi as [Hi | [Hge Hi]].
      * destruct (Hs _ _ Hi) as [Hin Hcount].
        split; [apply in_or_app; now left |].
        rewrite votes_for_app. simpl. rewrite Hcount.
        destruct (String.eqb_spec x (fst e)) as [He | _]; [| lia].
        exfalso. now apply (Hnone _ _ Hi).
      * destruct (i - length d)%nat; [| simpl in Hi; discriminate].
        injection Hi as <-. simpl.
        split; [apply in_or_app; right; now left |].
        rewrite votes_for_app. simpl.
        rewrite votes_for_absent by exact Hxl. rewrite String.eqb_refl. lia.
    + intros i j e1 e2 Hij Hi Hj.
      apply lookup_app_Some in Hi as [Hi | [Hge Hi]].
      * destruct (Hs _ _ Hi) as [Hin1 _].
        rewrite (first_vote_app_in _ _ _ Hin1).
        apply lookup_app_Some in Hj as [Hj | [Hge Hj]].
        -- destruct (Hs _ _ Hj) as [Hin2 _].
           rewrite (first_vote_app_in _ _ _ Hin2). eapply Ho; eauto.
        -- destruct (j - length d)%nat; [| simpl in Hj; discriminate].
           injection Hj as <-. simpl.
           rewrite first_vote_app_out by exact Hxl.
           pose proof (first_vote_lt _ _ Hin1). lia.
      * apply lookup_lt_Some in Hj. rewrite length_app in Hj. simpl in Hj. lia.
Qed.

Lemma tally_of_invariant (l : list string) : tally_invariant l (tally_of l).
Proof.
  induction l as [|x l IH] using rev_ind.
  - split; [intros t [] | intros i e; discriminate
            | intros i j e1 e2 _; discriminate].
  - rewrite tally_of_snoc. now apply tally_invariant_vote.
Qed.

(** *** The item [max] returns *)

Lemma max_from_spec (items : tally) :
  forall best, exists i,
    (best :: items) !! i = Some (max_from best items) /\
    (forall j e, (best :: items) !! j = Some e ->
                 (snd e <= snd (max_from best items))%nat) /\
    (forall j e, (j < i)%nat -> (best :: items) !! j = Some e ->
                 (snd e < snd (max_from best items))%nat).
Proof.
  induction items as [|kv items IH]; intros best; cbn [max_from].
  - exists O. split; [reflexivity |]. split.
    + intros [|j] e; simpl; [intros [= <-]; lia | discriminate].
    + intros j e Hj. lia.
  - destruct (Nat.ltb_spec (snd best) (snd kv)) as [Hlt | Hge].
    + destruct (IH kv) as (i & Hi & Hall & Hbefore).
      exists (S i). split; [exact Hi |].
      assert (Hkv : (snd kv <= snd (max_from kv items))%nat)
        by (apply (Hall O); reflexivity).
      split.
      * intros [|j] e; simpl; [intros [= <-]; lia | apply Hall].
      * intros [|j] e Hj; simpl; [intros [= <-]; lia |].
        apply Hbefore. lia.
    + destruct (IH best) as (i & Hi & Hall & Hbefore).
      assert (Hb : (snd best <= snd (max_from best items))%nat)
        by (apply (Hall O); reflexivity).
      destruct i as [|i].
      * exists O. split; [exact Hi |]. split; [| intros j e Hj; lia].
        intros [|[|j]] e; simpl.
        -- intros [= <-]. lia.
        -- intros [= <-]. lia.
        -- apply (Hall (S j)).
      * exists (S (S i)). split; [exact Hi |].
        assert (Hstrict : (snd best < snd (max_from best items))%nat)
          by (apply (Hbefore O); [lia | reflexivity]).
        split.
        -- intros [|[|j]] e; simpl.
           ++ intros [= <-]. lia.
           ++ intros [= <-]. lia.
           ++ apply (Hall (S j)).
        -- intros [|[|j]] e Hj; simpl.
           ++ intros [= <-]. lia.
           ++ intros [= <-]. lia.
           ++ apply (Hbefore (S j)). lia.
Qed.

(** The type chosen from the tally of a non-empty list of votes has the
    most votes, and of the types with as many it is the one voted first. *)
Lemma column_type_of_votes (l : list string) :
  l <> [] ->
  let t := column_type (tally_of l) in
  In t l /\
  (forall t', (votes_for t' l <= votes_for t l)%nat) /\
  (forall t', t' <> t -> votes_for t' l = votes_for t l ->
              (first_vote t l < first_vote t' l)%nat).
Proof.
  intros Hne. destruct (tally_of_invariant l) as [Hc Hs Ho].
  assert (Hx : exists x, In x l) by (destruct l; [congruence | eexists; now left]).
  destruct Hx as [x0 Hx0].
  destruct (tally_of l) as [|e0 rest] eqn:Hd.
  { destruct (Hc x0 Hx0) as [i Hi]. discriminate. }
  cbn [column_type max_item].
  destruct (max_from_spec rest e0) as (i & Hi & Hall & Hbefore).
  set (m := max_from e0 rest) in *. cbn [fst].
  destruct (Hs _ _ Hi) as [Hin Hcount].
  split; [exact Hin |].
  assert (Hle : forall t', In t' l -> (votes_for t' l <= votes_for (fst m) l)%nat).
  { intros t' Ht'. destruct (Hc _ Ht') as [j Hj].
    specialize (Hall _ _ Hj). cbn [snd] in Hall. lia. }
  split.
  - intros t'. destruct (in_dec string_dec t' l) as [Ht' | Ht'].
    + now apply Hle.
    + rewrite (votes_for_absent _ _ Ht'). lia.
  - intros t' Hdiff Htie.
    assert (Ht' : In t' l).
    { apply votes_for_pos. rewrite Htie. now apply votes_for_pos. }
    destruct (Hc _ Ht') as [j Hj].
    destruct (Nat.lt_trichotomy j i) as [H | [H | H]].
    + specialize (Hbefore _ _ H Hj). cbn [snd] in Hbefore. lia.
    + subst j. rewrite Hi in Hj. injection Hj as Hm.
      exfalso. apply Hdiff. now rewrite Hm.
    + apply (Ho _ _ _ _ H Hi Hj).
Qed.

(** *** Votes cast several times over *)

Lemma votes_for_replicate (t x : string) (k : nat) :
  votes_for t (replicate k x) = (k * (if String.eqb x t then 1 else 0))%nat.
Proof.
  induction k as [|k IH]; simpl; [reflexivity |].
  rewrite IH. destruct (String.eqb x t); lia.
Qed.

Lemma votes_for_repeated (t : string) (k : nat) (l : list string) :
  votes_for t (flat_map (replicate k) l) = (k * votes_for t l)%nat.
Proof.
  induction l as [|x l IH]; simpl; [lia |].
  rewrite votes_for_app, votes_for_replicate, IH. lia.
Qed.

Lemma first_vote_replicate (t x : string) (k : nat) (l : list string) :
  first_vote t (replicate k x ++ l) =
  if String.eqb x t then (if k is O then first_vote t l else O)
  else (k + first_vote t l)%nat.
Proof.
  induction k as [|k IH]; simpl.
  - now destruct (String.eqb x t).
  - rewrite IH. now destruct (String.eqb x t).
Qed.

Lemma first_vote_repeated (t : string) (k : nat) (l : list string) :
  first_vote t (flat_map (replicate (S k)) l) = (S k * first_vote t l)%nat.
Proof.
  induction l as [|x l IH]; [simpl; lia |].
  change (flat_map (replicate (S k)) (x :: l))
    with (replicate (S k) x ++ flat_map (replicate (S k)) l)%list.
  rewrite first_vote_replicate, IH. cbn [first_vote].
  destruct (String.eqb x t); lia.
Qed.

Lemma in_repeated (t : string) (k : nat) (l : list string) :
  In t (flat_map (replicate (S k)) l) <-> In t l.
Proof.
  rewrite !votes_for_pos, votes_for_repeated. lia.
Qed.

(** Casting every vote [S k] times does not change the choice made. *)
Lemma column_type_repeated (k : nat) (l : list string) :
  l <> [] ->
  let t := column_type (tally_of (flat_map (replicate (S k)) l)) in
  In t l /\
  (forall t', (votes_for t' l <= votes_for t l)%nat) /\
  (forall t', t' <> t -> votes_for t' l = votes_for t l ->
              (first_vote t l < first_vote t' l)%nat).
Proof.
  intros Hne t.
  assert (Hne' : flat_map (replicate (S k)) l <> []).
  { destruct l; [congruence | discriminate]. }
  destruct (column_type_of_votes _ Hne') as (Hin & Hmax & Hfirst). fold t in Hin, Hmax, Hfirst.
  split; [now apply in_repeated in Hin |]. split.
  - intros t'. specialize (Hmax t'). rewrite !votes_for_repeated in Hmax. nia.
  - intros t' Hdiff Htie. specialize (Hfirst t' Hdiff).
    rewrite !votes_for_repeated, !first_vote_repeated in Hfirst.
    rewrite Htie in Hfirst. specialize (Hfirst eq_refl). nia.
Qed.

(** *** The counts the scan leaves for a column *)

Lemma count_row_lookup (cols : list string) (r : row) (c : string) :
  forall tc : gmap string tally,
    count_row cols r tc !!! c =
    foldl vote (tc !!! c) (replicate (occurrences c cols) (infer_type (r !! c))).
Proof.
  unfold count_row.
  induction cols as [|c' cols IH]; intros tc; [reflexivity |].
  cbn [foldl occurrences]. rewrite IH.
  destruct (String.eqb_spec c' c) as [-> | Hne].
  - now rewrite lookup_total_insert_eq.
  - now rewrite lookup_total_insert_ne.
Qed.

Lemma scan_rows_counts (cols : list string) (reader : list row) :
  forall i st,
    type_counts (scan_rows cols i reader st) =
    foldl (fun tc r => count_row cols r tc) (type_counts st)
          (take (sample_limit - i) reader).
Proof.
  induction reader as [|r reader IH]; intros i st.
  - now rewrite take_nil.
  - cbn [scan_rows]. rewrite IH. cbn [scan_row type_counts].
    destruct (Nat.ltb_spec i sample_limit) as [Hlt | Hge].
    + replace (sample_limit - i)%nat with (S (sample_limit - S i)) by lia.
      reflexivity.
    + replace (sample_limit - i)%nat with O by lia.
      replace (sample_limit - S i)%nat with O by lia.
      reflexivity.
Qed.

Lemma sampled_counts_lookup (cols : list string) (c : string) (sample : list row) :
  forall tc : gmap string tally,
    foldl (fun tc r => count_row cols r tc) tc sample !!! c =
    foldl vote (tc !!! c)
          (flat_map (replicate (occurrences c cols))
                    (map (fun r => infer_type (r !! c)) sample)).
Proof.
  induction sample as [|r sample IH]; intros tc; [reflexivity |].
  cbn [foldl map flat_map]. rewrite IH, count_row_lookup, foldl_app.
  reflexivity.
Qed.

Lemma empty_counts_lookup (cols : list string) (c : string) :
  empty_counts cols !!! c = [].
Proof.
  unfold empty_counts.
  assert (H : forall tc : gmap string tally,
             tc !!! c = [] -> foldl (fun tc c => <[c := []]> tc) tc cols !!! c = []).
  { induction cols as [|c' cols IH]; intros tc Htc; [exact Htc |].
    cbn [foldl]. apply IH. rewrite lookup_total_insert.
    now destruct (decide (c' = c)). }
  apply H. now rewrite lookup_total_empty.
Qed.

Lemma column_types_of_lookup (cols : list string) (tc : gmap string tally) (c : string) :
  In c cols ->
  column_types_of cols tc !! c = Some (column_type (tc !!! c)).
Proof.
  unfold column_types_of.
  assert (H : forall ct : gmap string string,
             (In c cols \/ ct !! c = Some (column_type (tc !!! c))) ->
             foldl (fun ct c => <[c := column_type (tc !!! c)]> ct) ct cols !! c
             = Some (column_type (tc !!! c))).
  { induction cols as [|c' cols IH]; intros ct Hct; cbn [foldl].
    - destruct Hct as [[] | Hct]. exact Hct.
    - apply IH. destruct (String.eqb_spec c' c) as [-> | Hne].
      + right. apply lookup_insert_eq.
      + rewrite lookup_insert_ne by exact Hne.
        destruct Hct as [[H | H] | H]; [congruence | now left | now right]. }
  intros Hin. apply H. now left.
Qed.

Lemma occurrences_pos (c : string) (cols : list string) :
  In c cols -> exists k, occurrences c cols = S k.
Proof.
  induction cols as [|x cols IH]; simpl; [tauto |].
  destruct (String.eqb_spec x c) as [-> | Hne]; [eauto |].
  intros [H | H]; [congruence | now apply IH].
Qed.

(** The counts of a header column after the scan are the tally of its
    votes, each cast once for every time the column stands in the header. *)
Lemma schema_column_type (fieldnames : list string) (reader : list row)
  (sch : schema) (c : string) :
  infer_schema fieldnames reader = Ok sch ->
  In c fieldnames ->
  exists k,
    column_types sch !! c =
    Some (column_type (tally_of (flat_map (replicate (S k)) (sample_tags c reader)))).
Proof.
  intros Hs Hin. destruct (occurrences_pos _ _ Hin) as [k Hk]. exists k.
  unfold infer_schema in Hs. destruct fieldnames as [|f fs]; [destruct Hin |].
  injection Hs as <-. cbn [column_types].
  rewrite (column_types_of_lookup _ _ _ Hin). f_equal. f_equal.
  rewrite scan_rows_counts. cbn [type_counts].
  rewrite sampled_counts_lookup, empty_counts_lookup, Hk, Nat.sub_0_r.
  reflexivity.
Qed.

(** C5. The type of a header column is the tag with the most votes among
    the sampled rows (the first 100); among tags with as many votes it is
    the one whose first vote came first; without sampled rows it is
    [string].  When the votes are split evenly between two tags, the tag
    voted first is chosen. *)
Theorem majority_vote (fieldnames : list string) (reader : list row)
  (sch : schema) (c : string) :
  infer_schema fieldnames reader = Ok sch ->
  In c fieldnames ->
  let votes := sample_tags c reader in
  exists t,
    column_types sch !! c = Some t /\
    (votes = [] -> t = "string") /\
    (votes <> [] ->
     In t votes /\
     (forall t', (votes_for t' votes <= votes_for t votes)%nat) /\
     (forall t', t' <> t -> votes_for t' votes = votes_for t votes ->
                 (first_vote t votes < first_vote t' votes)%nat)) /\
    (forall a b,
        votes <> [] ->
        (forall x, In x votes -> x = a \/ x = b) ->
        votes_for a votes = votes_for b votes ->
        (first_vote a votes < first_vote b votes)%nat ->
        t = a).
Proof.
  intros Hs Hin votes.
  destruct (schema_column_type _ _ _ _ Hs Hin) as [k Hk]. fold votes in Hk.
  eexists. split; [exact Hk |].
  split; [intros ->; reflexivity |].
  split; [intros Hne; now apply column_type_repeated |].
  intros a b Hne Hab Htie Hfirst.
  destruct (column_type_repeated k votes Hne) as (Ht & _ & Hbreak).
  set (t := column_type _) in *.
  destruct (Hab _ Ht) as [-> | ->]; [reflexivity |].
  destruct (string_dec a b) as [-> | Hdiff]; [reflexivity |].
  specialize (Hbreak a Hdiff Htie). lia.
Qed.

Lemma majority_vote_witness :
  exists sch,
    infer_schema ["a"; "b"] two_rows = Ok sch /\
    column_types sch !! "a" = Some "number" /\
    column_types sch !! "b" = Some "string".
Proof.
  eexists. split; [reflexivity |].
  split.
  - destruct (majority_vote ["a"; "b"] two_rows _ "a" eq_refl) as (t & Ht & _ & _ & Hsplit);
      [now left |].
    rewrite Ht. f_equal.
    apply (Hsplit "number" "string"); vm_compute; try (discriminate || lia || reflexivity).
    intros x [<- | [<- | []]]; auto.
  - destruct (majority_vote ["a"; "b"] two_rows _ "b" eq_refl) as (t & Ht & _ & _ & Hsplit);
      [right; now left |].
    rewrite Ht. f_equal.
    apply (Hsplit "string" "number"); vm_compute; try (discriminate || lia || reflexivity).
    intros x [<- | [<- | []]]; auto.
Defined.

End UploadFacts.

(** ** More facts about the schema of an upload *)

Module SchemaFacts.
Import Upload UploadFacts.

Lemma scan_rows_rows (cols : list string) (reader : list row) :
  forall i st, rows (scan_rows cols i reader st) = (rows st ++ reader)%list.
Proof.
  induction reader as [|r reader IH]; intros i st; cbn [scan_rows].
  - now rewrite app_nil_r.
  - rewrite IH. cbn [scan_row rows]. now rewrite <- app_assoc.
Qed.

Lemma scan_rows_preview (cols : list string) (reader : list row) :
  forall i st,
    preview_rows (scan_rows cols i reader st) =
    (preview_rows st ++ take (max_preview - length (preview_rows st)) reader)%list.
Proof.
  induction reader as [|r reader IH]; intros i st; cbn [scan_rows].
  - now rewrite take_nil, app_nil_r.
  - rewrite IH. cbn [scan_row preview_rows].
    destruct (Nat.ltb_spec (length (preview_rows st)) max_preview) as [Hlt | Hge].
    + rewrite length_app. cbn [length].
      replace (max_preview - length (preview_rows st))%nat
        with (S (max_preview - (length (preview_rows st) + 1))) by lia.
      cbn [take]. now rewrite <- app_assoc.
    + replace (max_preview - length (preview_rows st))%nat with O by lia.
      reflexivity.
Qed.

(** X1. Every row read is kept, in the order read: the row count of the
    schema is the number of rows, whatever their number, and the header is
    handed on as it is. *)
Theorem all_rows_counted (fieldnames : list string) (reader : list row)
  (sch : schema) :
  infer_schema fieldnames reader = Ok sch ->
  row_count sch = length reader /\
  columns sch = fieldnames /\
  rows (scan_rows fieldnames 0 reader
          {| rows := []; preview_rows := [];
             type_counts := empty_counts fieldnames |}) = reader.
Proof.
  unfold infer_schema. destruct fieldnames as [|f fs]; [discriminate |].
  intros [= <-]. cbn [row_count columns].
  rewrite scan_rows_rows. cbn [rows app]. auto.
Qed.

Lemma all_rows_counted_witness :
  exists sch, infer_schema ["a"; "b"] two_rows = Ok sch /\ row_count sch = 2%nat.
Proof.
  eexists. split; [reflexivity |].
  now destruct (all_rows_counted ["a"; "b"] two_rows _ eq_refl) as (-> & _).
Defined.

(** X2. The preview is the first 50 rows read, in order: all of them when
    there are no more than 50. *)
Theorem preview_is_first_rows (fieldnames : list string) (reader : list row)
  (sch : schema) :
  infer_schema fieldnames reader = Ok sch ->
  preview sch = take 50 reader /\
  (length (preview sch) <= 50)%nat /\
  ((length reader <= 50)%nat -> preview sch = reader).
Proof.
  unfold infer_schema. destruct fieldnames as [|f fs]; [discriminate |].
  intros [= <-]. cbn [preview].
  rewrite scan_rows_preview. cbn [preview_rows app length].
  rewrite Nat.sub_0_r. change max_preview with 50%nat.
  split; [reflexivity |]. split.
  - rewrite length_take. lia.
  - intros H. now apply take_ge.
Qed.

Lemma preview_is_first_rows_witness :
  exists sch, infer_schema ["a"; "b"] two_rows = Ok sch /\ preview sch = two_rows.
Proof.
  eexists. split; [reflexivity |].
  destruct (preview_is_first_rows ["a"; "b"] two_rows _ eq_refl) as (_ & _ & H).
  apply H. simpl. lia.
Defined.

Lemma infer_type_tag (value : option string) :
  In (infer_type value) ["string"; "number"; "boolean"; "date"].
Proof.
  unfold infer_type. simpl.
  destruct value as [s|]; [| auto].
  repeat match goal with
    | |- context [if ?b then _ else _] => destruct b
    end; auto.
Qed.

Lemma column_types_of_absent (cols : list string) (tc : gmap string tally)
  (c : string) :
  ~ In c cols -> column_types_of cols tc !! c = None.
Proof.
  unfold column_types_of.
  assert (H : forall ct : gmap string string,
             ~ In c cols -> ct !! c = None ->
             foldl (fun ct c => <[c := column_type (tc !!! c)]> ct) ct cols !! c = None).
  { induction cols as [|c' cols IH]; intros ct Hin Hct; cbn [foldl]; [exact Hct |].
    apply IH; [intros H; apply Hin; now right |].
    rewrite lookup_insert_ne; [exact Hct |].
    intros ->. apply Hin. now left. }
  intros Hin. now apply H.
Qed.

(** X3. The column types have one entry for each name of the header and
    none besides, and every entry is one of [string], [number], [boolean]
    and [date]. *)
Theorem column_types_cover_header (fieldnames : list string)
  (reader : list row) (sch : schema) :
  infer_schema fieldnames reader = Ok sch ->
  forall c,
    (In c fieldnames ->
     exists t, column_types sch !! c = Some t /\
               In t ["string"; "number"; "boolean"; "date"]) /\
    (~ In c fieldnames -> column_types sch !! c = None).
Proof.
  intros Hs c. split.
  - intros Hin.
    destruct (schema_column_type _ _ _ _ Hs Hin) as [k Hk].
    eexists. split; [exact Hk |].
    assert (Hall : forall t, In t (sample_tags c reader) ->
                             In t ["string"; "number"; "boolean"; "date"]).
    { intros t Ht. apply in_map_iff in Ht as (r & <- & _). apply infer_type_tag. }
    destruct (sample_tags c reader) as [|v vs].
    + simpl. auto.
    + apply Hall. now apply column_type_repeated.
  - intros Hout. unfold infer_schema in Hs.
    destruct fieldnames as [|f fs]; [discriminate |].
    injection Hs as <-. cbn [column_types].
    now apply column_types_of_absent.
Qed.

Lemma column_types_cover_header_witness :
  (exists t, column_types_of ["a"; "b"]
               (type_counts (scan_rows ["a"; "b"] 0 two_rows
                  {| rows := []; preview_rows := [];
                     type_counts := empty_counts ["a"; "b"] |})) !! "a" = Some t /\
             In t ["string"; "number"; "boolean"; "date"]) /\
  column_types_of ["a"; "b"]
    (type_counts (scan_rows ["a"; "b"] 0 two_rows
       {| rows := []; preview_rows := [];
          type_counts := empty_counts ["a"; "b"] |})) !! "c" = None.
Proof.
  destruct (column_types_cover_header ["a"; "b"] two_rows _ eq_refl "a") as [Ha _].
  destruct (column_types_cover_header ["a"; "b"] two_rows _ eq_refl "c") as [_ Hc].
  split.
  - apply Ha. now left.
  - apply Hc. intros [H | [H | []]]; discriminate.
Defined.

(** X4. Only the first 100 rows are looked at for the types: the column
    types of an upload are those of its first 100 rows alone, so rows after
    them change nothing. *)
Theorem types_from_first_hundred (fieldnames : list string)
  (reader : list row) (sch sch' : schema) :
  infer_schema fieldnames reader = Ok sch ->
  infer_schema fieldnames (take 100 reader) = Ok sch' ->
  column_types sch' = column_types sch.
Proof.
  intros Hs Hs'. unfold infer_schema in *.
  destruct fieldnames as [|f fs]; [discriminate |].
  injection Hs as <-. injection Hs' as <-. cbn [column_types].
  rewrite !scan_rows_counts. cbn [type_counts]. rewrite !Nat.sub_0_r.
  change sample_limit with 100%nat. now rewrite take_take, Nat.min_id.
Qed.

Lemma types_from_first_hundred_witness :
  exists sch sch',
    infer_schema ["a"; "b"] two_rows = Ok sch /\
    infer_schema ["a"; "b"] (take 100 two_rows) = Ok sch' /\
    column_types sch' = column_types sch.
Proof.
  eexists. eexists. split; [reflexivity |]. split; [reflexivity |].
  apply (types_from_first_hundred ["a"; "b"] two_rows); reflexivity.
Defined.

End SchemaFacts.

(** ** More facts about the query compiler *)

Module QueryMoreFacts.
Import Query QueryMore PyFacts QueryFacts.

(** *** Blank queries *)

Lemma lstrip_blank (s : string) : is_blank s = true -> lstrip s = "".
Proof.
  unfold is_blank. rewrite negb_true_iff.
  induction s as [|c s IH]; [reflexivity |]. cbn [any_char lstrip].
  intros H. apply orb_false_iff in H as [Hc Hs].
  apply negb_false_iff in Hc. rewrite Hc. now apply IH.
Qed.

(** X5. A query of nothing but white space (the empty query among them)
    gives the dataset scope alone: it asks for every row of the dataset. *)
Theorem blank_query_matches_all (id q : string) :
  is_blank q = true ->
  build_filter id q = Ok (Equals "dataset_id" id).
Proof.
  intros H. unfold build_filter, strip. now rewrite (lstrip_blank _ H).
Qed.

Lemma blank_query_matches_all_witness :
  build_filter "ds1" "   " = Ok (Equals "dataset_id" "ds1").
Proof. apply blank_query_matches_all. reflexivity. Defined.

(** *** Keys of the conditions *)

Lemma scan_ops_data (ops : list string) (c : string) :
  exists new, (length new <= 1)%nat /\ forallb is_data_field new = true /\
    forall and_parts, scan_ops ops c and_parts = Ok (and_parts ++ new)%list.
Proof.
  induction ops as [|op ops IH]; cbn [scan_ops].
  - exists []. repeat split; [simpl; lia | intros; now rewrite app_nil_r].
  - destruct (contains op c) eqn:Hin; [| exact IH].
    destruct (partition_found _ _ Hin) as (a & b & Hp).
    unfold split1. rewrite Hp. cbn zeta.
    destruct (dict_get mongo_op_map _).
    + eexists [_]. split; [simpl; lia |]. split; [| reflexivity].
      cbn [forallb is_data_field]. now rewrite startswith_app.
    + exists []. repeat split; [simpl; lia | intros; now rewrite app_nil_r].
Qed.

Lemma compile_clause_data (c : string) :
  exists new, (length new <= 1)%nat /\ forallb is_data_field new = true /\
    forall and_parts, compile_clause c and_parts = Ok (and_parts ++ new)%list.
Proof.
  unfold compile_clause.
  destruct (startswith (lower c) "contains "); [| apply scan_ops_data].
  destruct (3 <=? length (split_ws c))%nat eqn:Hlen.
  - apply Nat.leb_le in Hlen.
    destruct (split_ws c) as [|p0 [|p1 ps]]; simpl in *; try lia.
    eexists [_]. split; [simpl; lia |]. split; [| reflexivity].
    cbn [forallb is_data_field]. now rewrite startswith_app.
  - exists []. repeat split; [simpl; lia | intros; now rewrite app_nil_r].
Qed.

Lemma compile_clauses_data (cs : list string) :
  exists new, (length new <= length cs)%nat /\ forallb is_data_field new = true /\
    forall and_parts, compile_clauses cs and_parts = Ok (and_parts ++ new)%list.
Proof.
  induction cs as [|c cs (rest & Hlen & Hdata & IH)]; cbn [compile_clauses].
  - exists []. repeat split; [simpl; lia | intros; now rewrite app_nil_r].
  - destruct (compile_clause_data c) as (new & Hn & Hd & Hc).
    exists (new ++ rest)%list. split; [rewrite length_app; simpl; lia |].
    split; [rewrite forallb_app; now rewrite Hd, Hdata |].
    intros acc. now rewrite Hc, IH, app_assoc.
Qed.

(** X6. Beside the dataset scope, a filter holds only conditions on keys
    under [data.], at most one for each clause of the query: no query text
    puts a condition on [dataset_id] or another top-level key. *)
Theorem conditions_on_data_only (id q : string) :
  exists parts,
    build_filter id q =
      Ok (match parts with
          | [] => Equals "dataset_id" id
          | _ => And (Equals "dataset_id" id :: parts)
          end) /\
    forallb is_data_field parts = true /\
    (length parts <= length (clauses_of (strip q)))%nat.
Proof.
  unfold build_filter.
  destruct (String.eqb (strip q) "").
  - exists []. repeat split. simpl. lia.
  - destruct (compile_clauses_data (clauses_of (strip q))) as (new & Hlen & Hd & H).
    exists new. rewrite H. cbn [app]. now destruct new.
Qed.

(** *** Comparisons of plain columns and values *)

Lemma plain_clause_cmp (col op val : string) :
  plain_pair col val ->
  In op [">="; "<="; ">"; "<"; "="] ->
  let q := col ++ " " ++ op ++ " " ++ val in
  strip q = q /\ q <> "" /\ clauses_of q = [q] /\
  startswith (lower q) "contains " = false.
Proof.
  intros P Hop q.
  assert (Hq : strip q = q).
  { unfold strip, q. rewrite lstrip_app by apply P.
    apply rstrip_app; [| apply append_nonempty, append_nonempty, append_nonempty, P].
    apply (rstrip_app " "); [| apply append_nonempty, append_nonempty, P].
    apply rstrip_app; [| apply append_nonempty, P].
    apply (rstrip_app " "); apply P. }
  assert (Hne : q <> "").
  { unfold q. destruct col; [now destruct P | push_app; discriminate]. }
  split; [exact Hq |]. split; [exact Hne |]. split.
  - unfold clauses_of. rewrite split_absent.
    + cbn [List.filter]. rewrite Hq.
      apply String.eqb_neq in Hne. rewrite Hne. cbn [negb map]. now rewrite Hq.
    + pose proof (val_no_and _ _ P) as Hand. unfold contains in Hand.
      rewrite append_cons, append_nil in Hand.
      unfold q. rewrite (append_cons " "), append_nil.
      rewrite contains_and_skip by apply P. unfold contains.
      simpl in Hop.
      destruct Hop as [<- | [<- | [<- | [<- | [<- | []]]]]]; push_app;
        rewrite !find_skip_char by reflexivity;
        now destruct (find " and " (String " " val)).
  - etransitivity; [| exact (col_not_contains _ _ P)].
    unfold q. rewrite !(lower_app col). change (lower " ") with " ".
    change (lower (" " ++ op ++ " " ++ val))
      with (String " " (lower (op ++ " " ++ val))).
    apply contains_word_boundary.
Qed.

Lemma cmp_partition (col op op' val : string) (a : ascii) :
  op = String a op' ->
  has_char a col = false ->
  Ascii.eqb a " " = false ->
  partition op (col ++ " " ++ op ++ " " ++ val) = Some (col ++ " ", " " ++ val).
Proof.
  intros -> Hcol Ha.
  rewrite partition_skip by exact Hcol.
  rewrite (partition_skip a op' " ")
    by (cbn [has_char]; rewrite Ascii.eqb_sym, Ha; reflexivity).
  now rewrite partition_here.
Qed.

Lemma cmp_clause (col val op m : string) (and_parts : list filter) :
  plain_pair col val ->
  In (op, m) comparison_tokens ->
  scan_ops operators (col ++ " " ++ op ++ " " ++ val) and_parts =
  Ok (and_parts ++ [Field ("data." ++ col) (Compare m (cast val))])%list.
Proof.
  intros P Hop.
  assert (Hstrip : strip (col ++ " ") = col) by apply (plain_column_strip _ _ P).
  assert (Hval : strip (" " ++ val) = val)
    by (change (strip (" " ++ val)) with (strip val); apply (plain_value_strip _ _ P)).
  assert (Hno : forall a mid,
             has_char a col = false -> has_char a val = false ->
             has_char a mid = false -> has_char a " " = false ->
             has_char a (col ++ " " ++ mid ++ " " ++ val) = false).
  { intros a mid H1 H2 H3 H4. now rewrite !has_char_app, H1, H2, H3, H4. }
  unfold comparison_tokens in Hop. simpl in Hop.
  destruct Hop as [[= <- <-] | [[= <- <-] | [[= <- <-] | [[= <- <-] | [[= <- <-] | []]]]]];
    unfold operators; cbn [scan_ops].
  - (* >= *)
    pose proof (cmp_partition col ">=" "=" val ">" eq_refl (col_no_gt _ _ P) eq_refl) as Hp.
    rewrite (partition_contains _ _ _ _ Hp). unfold split1. rewrite Hp. cbn zeta.
    now rewrite Hstrip, Hval.
  - (* <= *)
    pose proof (cmp_partition col "<=" "=" val "<" eq_refl (col_no_lt _ _ P) eq_refl) as Hp.
    rewrite (contains_needs_char ">" ">=" _ eq_refl
               (Hno ">"%char "<=" (col_no_gt _ _ P) (val_no_gt _ _ P) eq_refl eq_refl)).
    rewrite (partition_contains _ _ _ _ Hp). unfold split1. rewrite Hp. cbn zeta.
    now rewrite Hstrip, Hval.
  - (* > *)
    pose proof (cmp_partition col ">" "" val ">" eq_refl (col_no_gt _ _ P) eq_refl) as Hp.
    rewrite (contains_needs_char "=" ">=" _ eq_refl
               (Hno "="%char ">" (col_no_eq _ _ P) (val_no_eq _ _ P) eq_refl eq_refl)).
    rewrite (contains_needs_char "<" "<=" _ eq_refl
               (Hno "<"%char ">" (col_no_lt _ _ P) (val_no_lt _ _ P) eq_refl eq_refl)).
    rewrite (partition_contains _ _ _ _ Hp). unfold split1. rewrite Hp. cbn zeta.
    now rewrite Hstrip, Hval.
  - (* < *)
    pose proof (cmp_partition col "<" "" val "<" eq_refl (col_no_lt _ _ P) eq_refl) as Hp.
    rewrite (contains_needs_char ">" ">=" _ eq_refl
               (Hno ">"%char "<" (col_no_gt _ _ P) (val_no_gt _ _ P) eq_refl eq_refl)).
    rewrite (contains_needs_char "=" "<=" _ eq_refl
               (Hno "="%char "<" (col_no_eq _ _ P) (val_no_eq _ _ P) eq_refl eq_refl)).
    rewrite (contains_needs_char ">" ">" _ eq_refl
               (Hno ">"%char "<" (col_no_gt _ _ P) (val_no_gt _ _ P) eq_refl eq_refl)).
    rewrite (partition_contains _ _ _ _ Hp). unfold split1. rewrite Hp. cbn zeta.
    now rewrite Hstrip, Hval.
  - (* = *)
    pose proof (cmp_partition col "=" "" val "=" eq_refl (col_no_eq _ _ P) eq_refl) as Hp.
    rewrite (contains_needs_char ">" ">=" _ eq_refl
               (Hno ">"%char "=" (col_no_gt _ _ P) (val_no_gt _ _ P) eq_refl eq_refl)).
    rewrite (contains_needs_char "<" "<=" _ eq_refl
               (Hno "<"%char "=" (col_no_lt _ _ P) (val_no_lt _ _ P) eq_refl eq_refl)).
    rewrite (contains_needs_char ">" ">" _ eq_refl
               (Hno ">"%char "=" (col_no_gt _ _ P) (val_no_gt _ _ P) eq_refl eq_refl)).
    rewrite (contains_needs_char "<" "<" _ eq_refl
               (Hno "<"%char "=" (col_no_lt _ _ P) (val_no_lt _ _ P) eq_refl eq_refl)).
    rewrite (partition_contains _ _ _ _ Hp). unfold split1. rewrite Hp. cbn zeta.
    now rewrite Hstrip, Hval.
Qed.

(** X7. For a plain column name and a plain value, the query [col op val]
    with [op] one of [>=], [<=], [>], [<] and [=] compiles to the dataset
    scope and one condition on [data.col]: [$gte], [$lte], [$gt], [$lt] or
    [$eq] with the cast of [val]. *)
Theorem comparison_compiles (id col val op m : string) :
  In (op, m) comparison_tokens ->
  plain_column col = true ->
  plain_value val = true ->
  build_filter id (col ++ " " ++ op ++ " " ++ val) =
  Ok (And [Equals "dataset_id" id;
           Field ("data." ++ col) (Compare m (cast val))]).
Proof.
  intros Hop Hcol Hval. pose proof (plain_pair_intro _ _ Hcol Hval) as P.
  assert (Hin : In op [">="; "<="; ">"; "<"; "="]).
  { unfold comparison_tokens in Hop. simpl in Hop. simpl.
    destruct Hop as [[= <- _] | [[= <- _] | [[= <- _] | [[= <- _] | [[= <- _] | []]]]]];
      auto 6. }
  destruct (plain_clause_cmp col op val P Hin) as (Hq & Hne & Hcl & Hpre).
  unfold build_filter. rewrite Hq.
  apply String.eqb_neq in Hne. rewrite Hne, Hcl.
  cbn [compile_clauses]. unfold compile_clause. rewrite Hpre.
  now rewrite (cmp_clause col val op m [] P Hop).
Qed.

Lemma comparison_compiles_witness :
  build_filter "ds1" "unit price >= 2.5" =
    Ok (And [Equals "dataset_id" "ds1";
             Field "data.unit price" (Compare "$gte" (VFloat (Fdec false 25 (-1))))]) /\
  build_filter "ds1" "age < 30" =
    Ok (And [Equals "dataset_id" "ds1";
             Field "data.age" (Compare "$lt" (VInt 30))]).
Proof.
  split.
  - apply (comparison_compiles "ds1" "unit price" "2.5" ">=" "$gte");
      [simpl; auto | reflexivity | reflexivity].
  - apply (comparison_compiles "ds1" "age" "30" "<" "$lt");
      [simpl; auto 6 | reflexivity | reflexivity].
Defined.

(** *** The contains clause, word by word *)

Lemma split_ws_unfold (c : ascii) (s : string) :
  split_ws (String c s) =
  if isspace c then split_ws s
  else match s with
       | EmptyString => [String c EmptyString]
       | String c' _ =>
           if isspace c' then String c EmptyString :: split_ws s
           else match split_ws s with
                | w :: ws => String c w :: ws
                | [] => [String c EmptyString]
                end
       end.
Proof. reflexivity. Qed.

Lemma is_word_cons (c : ascii) (w : string) :
  is_word (String c w) = true ->
  isspace c = false /\ (w = "" \/ is_word w = true).
Proof.
  unfold is_word. cbn [any_char]. rewrite !andb_true_iff, !negb_true_iff.
  intros [_ H]. apply orb_false_iff in H as [Hc Hw]. split; [exact Hc |].
  destruct w; [now left | right]. now rewrite Hw.
Qed.

Lemma split_ws_word_then (w rest : string) :
  is_word w = true -> split_ws (w ++ " " ++ rest) = w :: split_ws rest.
Proof.
  induction w as [|c w IH]; [discriminate |].
  intros H. apply is_word_cons in H as [Hc Hw].
  rewrite append_cons, split_ws_unfold, Hc.
  destruct Hw as [-> | Hw].
  - reflexivity.
  - rewrite (IH Hw). destruct w as [|c' w]; [discriminate |].
    apply is_word_cons in Hw as [Hc' _].
    rewrite append_cons. now rewrite Hc'.
Qed.

Lemma split_ws_word (w : string) : is_word w = true -> split_ws w = [w].
Proof.
  induction w as [|c w IH]; [discriminate |].
  intros H. apply is_word_cons in H as [Hc Hw].
  rewrite split_ws_unfold, Hc.
  destruct Hw as [-> | Hw]; [reflexivity |].
  rewrite (IH Hw). destruct w as [|c' w]; [discriminate |].
  apply is_word_cons in Hw as [Hc' _]. now rewrite Hc'.
Qed.

(** Words joined by single blanks are split into the same words again. *)
Lemma split_ws_join (words : list string) :
  forallb is_word words = true -> split_ws (join " " words) = words.
Proof.
  induction words as [|w [|w' words] IH]; [reflexivity | |].
  - cbn [forallb join]. rewrite andb_true_r. apply split_ws_word.
  - intros H. cbn [forallb] in H. apply andb_true_iff in H as [Hw H].
    change (join " " (w :: w' :: words)) with (w ++ " " ++ join " " (w' :: words)).
    rewrite (split_ws_word_then _ _ Hw). f_equal. now apply IH.
Qed.

Lemma isspace_lower (c : ascii) : isspace (lower_char c) = isspace c.
Proof. destruct c as [[] [] [] [] [] [] [] []]; reflexivity. Qed.

Lemma any_space_lower (s : string) :
  any_char isspace (lower s) = any_char isspace s.
Proof.
  induction s as [|c s IH]; [reflexivity |].
  cbn [lower any_char]. now rewrite isspace_lower, IH.
Qed.

Lemma keyword_is_word (kw : string) : lower kw = "contains" -> is_word kw = true.
Proof.
  intros H. unfold is_word.
  rewrite <- any_space_lower, H.
  destruct kw; [discriminate | reflexivity].
Qed.

Lemma rstrip_word (w : string) : is_word w = true -> rstrip w = w /\ w <> "".
Proof.
  induction w as [|c w IH]; [discriminate |].
  intros H. apply is_word_cons in H as [Hc Hw]. split; [| discriminate].
  cbn [rstrip]. destruct Hw as [-> | Hw].
  - cbn [rstrip]. now rewrite Hc.
  - destruct (IH Hw) as [-> Hne]. now destruct w.
Qed.

Lemma rstrip_join (words : list string) :
  forallb is_word words = true -> words <> [] ->
  rstrip (join " " words) = join " " words /\ join " " words <> "".
Proof.
  induction words as [|w [|w' words] IH]; [congruence | |].
  - cbn [forallb join]. rewrite andb_true_r. intros H _. now apply rstrip_word.
  - intros H _. cbn [forallb] in H. apply andb_true_iff in H as [Hw H].
    change (join " " (w :: w' :: words)) with (w ++ " " ++ join " " (w' :: words)).
    destruct IH as [IH1 IH2]; [exact H | discriminate |].
    split; [| now apply append_nonempty, append_nonempty].
    apply rstrip_app; [| now apply append_nonempty].
    now apply (rstrip_app " ").
Qed.

(** X8. A clause made of the keyword [contains] in any letter case, a
    column name of one word and one or more words more, each set off by one
    blank, searches [data.col] for the words joined by single blanks,
    letter case left aside; as a whole query without the separator
    [" and "] it gives that one condition beside the dataset scope. *)
Theorem contains_clause_words (id kw col : string) (words : list string) :
  lower kw = "contains" ->
  is_word col = true ->
  forallb is_word words = true ->
  words <> [] ->
  let c := kw ++ " " ++ col ++ " " ++ join " " words in
  (forall and_parts,
      compile_clause c and_parts =
      Ok (and_parts ++ [Field ("data." ++ col) (Regex (join " " words) "i")])%list) /\
  (contains " and " c = false ->
   build_filter id c =
   Ok (And [Equals "dataset_id" id;
            Field ("data." ++ col) (Regex (join " " words) "i")])).
Proof.
  intros Hkw Hcol Hwords Hne c.
  pose proof (keyword_is_word _ Hkw) as Hk.
  assert (Hsplit : split_ws c = kw :: col :: words).
  { unfold c. rewrite (split_ws_word_then _ _ Hk), (split_ws_word_then _ _ Hcol).
    now rewrite split_ws_join. }
  assert (Hpre : startswith (lower c) "contains " = true).
  { unfold c. rewrite lower_app, Hkw.
    change (lower (" " ++ col ++ " " ++ join " " words))
      with (String " " (lower (col ++ " " ++ join " " words))).
    reflexivity. }
  assert (Hclause : forall and_parts,
             compile_clause c and_parts =
             Ok (and_parts ++ [Field ("data." ++ col) (Regex (join " " words) "i")])%list).
  { intros acc. unfold compile_clause. rewrite Hpre, Hsplit.
    destruct words; [congruence | reflexivity]. }
  split; [exact Hclause |].
  intros Hand.
  assert (Hq : strip c = c).
  { unfold strip, c.
    destruct (rstrip_word _ Hk) as [_ Hkne].
    assert (Hl : lstrip kw = kw).
    { destruct kw as [|a kw']; [congruence |].
      apply is_word_cons in Hk as [Ha _]. cbn [lstrip]. now rewrite Ha. }
    rewrite lstrip_app by assumption.
    destruct (rstrip_join _ Hwords Hne) as [Hr Hj].
    destruct (rstrip_word _ Hcol) as [_ Hcne].
    apply rstrip_app; [| now apply append_nonempty, append_nonempty, append_nonempty].
    apply (rstrip_app " "); [| now apply append_nonempty, append_nonempty].
    apply rstrip_app; [| now apply append_nonempty].
    now apply (rstrip_app " "). }
  assert (Hcne : c <> "").
  { unfold c. destruct kw; [discriminate Hk | push_app; discriminate]. }
  unfold build_filter. rewrite Hq.
  apply String.eqb_neq in Hcne. rewrite Hcne.
  unfold clauses_of. rewrite (split_absent _ _ Hand).
  cbn [List.filter]. rewrite Hq, Hcne. cbn [negb map compile_clauses].
  now rewrite Hq, Hclause.
Qed.

Lemma contains_clause_words_witness :
  compile_clause "CONTAINS name John Smith" [] =
    Ok [Field "data.name" (Regex "John Smith" "i")] /\
  build_filter "ds1" "CONTAINS name John Smith" =
    Ok (And [Equals "dataset_id" "ds1";
             Field "data.name" (Regex "John Smith" "i")]).
Proof.
  destruct (contains_clause_words "ds1" "CONTAINS" "name" ["John"; "Smith"])
    as [Hc Hq]; [reflexivity | reflexivity | reflexivity | discriminate |].
  split; [apply Hc | apply Hq; reflexivity].
Defined.

End QueryMoreFacts.

(** ** The [csv] reader on plain tables *)

Module CsvFacts.
Import PyCsv UploadCsv PyFacts.

Lemma append_assoc (a b c : string) : (a ++ b) ++ c = a ++ (b ++ c).
Proof.
  induction a as [|x a IH]; push_app; [reflexivity | now rewrite IH].
Qed.

Lemma append_empty (a : string) : a ++ "" = a.
Proof.
  induction a as [|x a IH]; push_app; [reflexivity | now rewrite IH].
Qed.

Lemma length_append (a b : string) :
  String.length (a ++ b) = (String.length a + String.length b)%nat.
Proof.
  induction a as [|x a IH]; push_app; cbn [String.length]; [reflexivity | now rewrite IH].
Qed.

Lemma join_cons (sep x y : string) (l : list string) :
  join sep (x :: y :: l) = x ++ sep ++ join sep (y :: l).
Proof. reflexivity. Qed.

Lemma parse_chars_app (s t : string) (p : parser) :
  parse_chars p (s ++ t) =
  match parse_chars p s with
  | Done p' => parse_chars p' t
  | Failed e => Failed e
  end.
Proof.
  revert p. induction s as [|c s IH]; intros p; push_app; cbn [parse_chars];
    [reflexivity |].
  destruct (parse_process_char p (Char c)); [apply IH | reflexivity].
Qed.

Lemma parse_line_app (s t : string) (p : parser) :
  parse_line p (s ++ t) =
  match parse_chars p s with
  | Done p' => parse_line p' t
  | Failed e => Failed e
  end.
Proof.
  revert p. induction s as [|c s IH]; intros p; push_app;
    cbn [parse_chars parse_line]; [reflexivity |].
  destruct (parse_process_char p (Char c)); [apply IH | reflexivity].
Qed.

Lemma special_cases (c : ascii) :
  is_special c = false ->
  is_newline c = false /\ Ascii.eqb c delimiter = false
  /\ Ascii.eqb c quotechar = false.
Proof.
  unfold is_special. intros H.
  apply orb_false_elim in H as [H H3]. apply orb_false_elim in H as [H1 H2].
  auto.
Qed.

Lemma plain_char_step (p : parser) (c : ascii) :
  is_open (state p) = true ->
  is_special c = false ->
  (N.of_nat (String.length (field p)) < field_size_limit)%N ->
  parse_process_char p (Char c) =
  Done {| state := IN_FIELD; field := field p ++ String c ""; fields := fields p |}.
Proof.
  intros Ho Hc Hl. apply special_cases in Hc as (Hn & Hd & Hq).
  apply N.leb_gt in Hl.
  destruct p as [s f fs]. cbn [state field fields] in *.
  destruct s; try discriminate;
    unfold parse_process_char, start_field, parse_add_char, set_state;
    cbn [state field fields]; rewrite ?Hn, ?Hd, ?Hq, ?Hl; reflexivity.
Qed.

Lemma delimiter_step (p : parser) :
  is_open (state p) = true ->
  parse_process_char p (Char delimiter) =
  Done {| state := START_FIELD; field := ""; fields := fields p ++ [field p] |}.
Proof.
  destruct p as [s f fs]; destruct s; try discriminate; intros _; reflexivity.
Qed.

Lemma plain_chars (x : string) (p : parser) :
  is_open (state p) = true ->
  any_char is_special x = false ->
  (N.of_nat (String.length (field p) + String.length x) <= field_size_limit)%N ->
  x <> "" ->
  parse_chars p x =
  Done {| state := IN_FIELD; field := field p ++ x; fields := fields p |}.
Proof.
  revert p. induction x as [|c x IH]; intros p Ho Hx Hl Hne; [congruence |].
  cbn [any_char] in Hx. apply orb_false_elim in Hx as [Hc Hx].
  cbn [String.length] in Hl.
  cbn [parse_chars]. rewrite plain_char_step; [| assumption | assumption | lia].
  destruct x as [|d x]; [reflexivity |].
  rewrite IH; cbn [state field fields]; try easy.
  - now rewrite append_assoc.
  - rewrite length_append. cbn [String.length] in *. lia.
Qed.

Lemma plain_cell_chars (x : string) (p : parser) :
  is_open (state p) = true ->
  field p = "" ->
  is_plain_cell x = true ->
  exists p',
    parse_chars p x = Done p' /\ is_open (state p') = true /\
    field p' = x /\ fields p' = fields p /\
    (x = "" -> p' = p) /\ (x <> "" -> state p' = IN_FIELD).
Proof.
  intros Ho Hf Hx. unfold is_plain_cell in Hx.
  apply andb_prop in Hx as [Hs Hl]. apply negb_true_iff in Hs.
  apply N.leb_le in Hl.
  destruct x as [|c x].
  - exists p. cbn [parse_chars]. repeat apply conj; auto. congruence.
  - eexists. split; [apply plain_chars; try easy; rewrite Hf; cbn [String.length] in *; lia |].
    cbn [state field fields]. rewrite Hf. repeat apply conj; auto.
    discriminate.
Qed.

Lemma plain_cells_chars (xs : list string) (x : string) (p : parser) :
  is_open (state p) = true ->
  field p = "" ->
  forallb is_plain_cell (x :: xs) = true ->
  exists p',
    parse_chars p (join "," (x :: xs)) = Done p' /\
    is_open (state p') = true /\
    (fields p' ++ [field p'] = fields p ++ x :: xs)%list /\
    ((xs = [] /\ x = "") \/ state p' <> START_RECORD).
Proof.
  revert x p. induction xs as [|y ys IH]; intros x p Ho Hf Hall;
    cbn [forallb] in Hall; apply andb_prop in Hall as [Hx Hall].
  - destruct (plain_cell_chars x p Ho Hf Hx) as (p' & Hp & Ho' & Hf' & Hfs & He & Hn).
    exists p'. cbn [join]. repeat apply conj; auto.
    + now rewrite Hf', Hfs.
    + destruct x as [|c x]; [left; auto | right].
      rewrite Hn; discriminate.
  - destruct (plain_cell_chars x p Ho Hf Hx) as (p1 & Hp & Ho1 & Hf1 & Hfs1 & _).
    set (p2 := {| state := START_FIELD; field := "";
                  fields := fields p1 ++ [field p1] |}).
    destruct (IH y p2 eq_refl eq_refl Hall) as (p' & Hp' & Ho' & Hfs' & Hs').
    exists p'. rewrite join_cons.
    change ("," ++ join "," (y :: ys)) with (String delimiter (join "," (y :: ys))).
    rewrite parse_chars_app, Hp. cbn [parse_chars].
    rewrite (delimiter_step p1 Ho1). fold p2. rewrite Hp'.
    repeat apply conj; auto.
    + rewrite Hfs'. unfold p2. cbn [fields]. now rewrite Hf1, Hfs1, <- app_assoc.
    + right. destruct Hs' as [[-> ->] | Hs']; [| exact Hs'].
      cbn [join parse_chars] in Hp'. injection Hp' as <-. discriminate.
Qed.

Lemma line_end_step (p : parser) (eol : string) :
  In eol line_ends ->
  is_open (state p) = true ->
  state p <> START_RECORD ->
  parse_line p eol =
  Done {| state := START_RECORD; field := ""; fields := fields p ++ [field p] |}.
Proof.
  intros [<- | [<- | []]] Ho Hs; destruct p as [s f fs];
    destruct s; cbn [state] in Ho, Hs; try discriminate; try congruence;
    reflexivity.
Qed.

Lemma blank_line (eol : string) :
  In eol line_ends -> parse_line parse_reset eol = Done parse_reset.
Proof. intros [<- | [<- | []]]; reflexivity. Qed.

Lemma plain_record_line (r : list string) (eol : string) :
  In eol line_ends ->
  is_plain_line r = true ->
  parse_line parse_reset (join "," r ++ eol) =
  Done {| state := START_RECORD; field := ""; fields := r |}.
Proof.
  intros He Hr. destruct r as [|x xs].
  - cbn [join]. push_app. now apply blank_line.
  - unfold is_plain_line, is_plain_record in Hr. cbn [is_empty_record orb] in Hr.
    apply andb_prop in Hr as [Hall Hne].
    destruct (plain_cells_chars xs x parse_reset eq_refl eq_refl Hall)
      as (p' & Hp & Ho & Hfs & Hs).
    rewrite parse_line_app, Hp.
    destruct Hs as [[-> ->] | Hs]; [discriminate |].
    rewrite (line_end_step p' eol He Ho Hs). now rewrite Hfs.
Qed.

Lemma readlines_line (x rest : string) :
  has_char LF x = false ->
  readlines (x ++ String LF rest) = (x ++ String LF "") :: readlines rest.
Proof.
  induction x as [|c x IH]; intros Hx; push_app.
  - cbn [readlines]. now rewrite Ascii.eqb_refl.
  - cbn [has_char] in Hx. apply orb_false_elim in Hx as [Hc Hx].
    cbn [readlines]. rewrite Hc, (IH Hx).
    destruct x; push_app; reflexivity.
Qed.

Lemma special_not_LF (x : string) :
  any_char is_special x = false -> has_char LF x = false.
Proof.
  induction x as [|c x IH]; [reflexivity |]. cbn [any_char has_char].
  intros H. apply orb_false_elim in H as [Hc Hx].
  apply special_cases in Hc as (Hn & _). unfold is_newline in Hn.
  apply orb_false_elim in Hn as [Hn _]. now rewrite Hn, IH.
Qed.

Lemma plain_cells_no_LF (r : list string) :
  forallb is_plain_cell r = true -> has_char LF (join "," r) = false.
Proof.
  induction r as [|x r IH]; [reflexivity |].
  cbn [forallb]. intros H. apply andb_prop in H as [Hx Hr].
  unfold is_plain_cell in Hx. apply andb_prop in Hx as [Hx _].
  apply negb_true_iff, special_not_LF in Hx.
  destruct r as [|y r]; [exact Hx |].
  rewrite join_cons, !has_char_app, Hx, (IH Hr). reflexivity.
Qed.

Lemma plain_line_no_LF (r : list string) :
  is_plain_line r = true -> has_char LF (join "," r) = false.
Proof.
  destruct r as [|x xs]; [reflexivity |].
  unfold is_plain_line, is_plain_record. cbn [is_empty_record orb].
  intros H. apply andb_prop in H as [H _]. now apply plain_cells_no_LF.
Qed.

Lemma readlines_table (eol : string) (t : list (list string)) :
  In eol line_ends ->
  forallb is_plain_line t = true ->
  readlines (write_table eol t) = map (fun r => join "," r ++ eol) t.
Proof.
  intros He. induction t as [|r t IH]; [reflexivity |].
  cbn [forallb]. intros H. apply andb_prop in H as [Hr Ht].
  apply plain_line_no_LF in Hr.
  cbn [write_table map]. rewrite <- (IH Ht).
  destruct He as [<- | [<- | []]].
  - rewrite append_assoc. push_app. now apply readlines_line.
  - rewrite append_assoc. push_app.
    change (String CR (String LF (write_table (String CR (String LF "")) t)))
      with (String CR "" ++ String LF (write_table (String CR (String LF "")) t)).
    rewrite <- append_assoc, readlines_line.
    + now rewrite append_assoc.
    + now rewrite has_char_app, Hr.
Qed.

Lemma reader_all_plain (eol : string) (t : list (list string)) :
  In eol line_ends ->
  forallb is_plain_line t = true ->
  reader_all parse_reset (map (fun r => join "," r ++ eol) t) = Done t.
Proof.
  intros He. induction t as [|r t IH]; [reflexivity |].
  cbn [forallb]. intros H. apply andb_prop in H as [Hr Ht].
  cbn [map reader_all]. rewrite (plain_record_line r eol He Hr).
  cbn [state is_start_record fields]. now rewrite (IH Ht).
Qed.

Lemma reader_next_plain (eol : string) (h : list string) (lines : list string) :
  In eol line_ends ->
  is_plain_line h = true ->
  reader_next parse_reset ((join "," h ++ eol) :: lines) = Done (Some (h, lines)).
Proof.
  intros He Hh. cbn [reader_next]. rewrite (plain_record_line h eol He Hh).
  reflexivity.
Qed.

Lemma read_plain_table (eol : string) (h : list string) (t : list (list string)) :
  In eol line_ends ->
  is_plain_record h = true ->
  forallb is_plain_line t = true ->
  read_csv (write_table eol (h :: t)) = Done (h, dict_rows h t).
Proof.
  intros He Hh Ht. unfold read_csv.
  assert (Hl : is_plain_line h = true).
  { unfold is_plain_line. rewrite Hh. apply orb_true_r. }
  rewrite readlines_table; [| assumption | cbn [forallb]; now rewrite Hl, Ht].
  cbn [map]. rewrite (reader_next_plain eol h _ He Hl).
  destruct h as [|x xs]; [discriminate |].
  now rewrite (reader_all_plain eol t He Ht).
Qed.

Lemma last_line (r : list string) :
  is_plain_record r = true ->
  parse_line parse_reset (join "," r) =
  Done {| state := START_RECORD; field := ""; fields := r |}.
Proof.
  intros Hr. destruct r as [|x xs]; [discriminate |].
  unfold is_plain_record in Hr. apply andb_prop in Hr as [Hall Hne].
  destruct (plain_cells_chars xs x parse_reset eq_refl eq_refl Hall)
    as (p' & Hp & Ho & Hfs & Hs).
  rewrite <- (append_empty (join "," (x :: xs))), parse_line_app, Hp.
  destruct Hs as [[-> ->] | Hs]; [discriminate |].
  cbn [parse_line].
  change (x :: xs) with (fields parse_reset ++ x :: xs)%list. rewrite <- Hfs.
  destruct p' as [s f fs]; destruct s; cbn [state] in Ho, Hs;
    try discriminate; try congruence; reflexivity.
Qed.

Lemma readlines_last (x : string) :
  has_char LF x = false -> x <> "" -> readlines x = [x].
Proof.
  induction x as [|c x IH]; intros Hx Hne; [congruence |].
  cbn [has_char] in Hx. apply orb_false_elim in Hx as [Hc Hx].
  cbn [readlines]. rewrite Hc.
  destruct x as [|d x]; [reflexivity |].
  rewrite (IH Hx); [reflexivity | discriminate].
Qed.

Lemma readlines_table_last (eol : string) (t : list (list string)) (x : string) :
  In eol line_ends ->
  forallb is_plain_line t = true ->
  has_char LF x = false -> x <> "" ->
  readlines (write_table eol t ++ x) =
  (map (fun r => (join "," r ++ eol)%string) t ++ [x])%list.
Proof.
  intros He Ht Hx Hne. induction t as [|r t IH].
  - cbn [write_table map app]. push_app. now apply readlines_last.
  - cbn [forallb] in Ht. apply andb_prop in Ht as [Hr Ht].
    apply plain_line_no_LF in Hr.
    cbn [write_table map app]. rewrite <- (IH Ht).
    destruct He as [<- | [<- | []]].
    + rewrite !append_assoc. push_app. now apply readlines_line.
    + rewrite !append_assoc. push_app.
      change (String CR (String LF ?s)) with (String CR "" ++ String LF s).
      rewrite <- append_assoc, readlines_line.
      * now rewrite append_assoc.
      * now rewrite has_char_app, Hr.
Qed.

Lemma reader_all_plain_last (eol : string) (t : list (list string))
  (last : list string) :
  In eol line_ends ->
  forallb is_plain_line t = true ->
  is_plain_record last = true ->
  reader_all parse_reset
    (map (fun r => (join "," r ++ eol)%string) t ++ [join "," last])%list =
  Done (t ++ [last])%list.
Proof.
  intros He Ht Hl. induction t as [|r t IH].
  - cbn [map app reader_all]. rewrite (last_line last Hl). reflexivity.
  - cbn [forallb] in Ht. apply andb_prop in Ht as [Hr Ht].
    cbn [map app reader_all]. rewrite (plain_record_line r eol He Hr).
    cbn [state is_start_record fields]. now rewrite (IH Ht).
Qed.

Lemma plain_record_nonempty (r : list string) :
  is_plain_record r = true -> join "," r <> "".
Proof.
  destruct r as [|x [|y r]]; [discriminate | |].
  - unfold is_plain_record. intros H. apply andb_prop in H as [_ H].
    cbn [join]. intros ->. discriminate.
  - intros _. rewrite join_cons. destruct x; push_app; discriminate.
Qed.

(** X9. A table of plain cells written one record a line, the lines ended
    by [LF] or by [CR LF] and no record longer than the header, is read
    back as it was written: the first line is the header, each later line
    a row, empty lines among the rows are passed over; the last line may
    lack its line end. *)
Theorem plain_table_round_trip (eol : string) (h : list string)
  (t : list (list string)) :
  In eol line_ends ->
  is_plain_record h = true ->
  forallb is_plain_line t = true ->
  forallb (fits_header h) t = true ->
  read_csv (write_table eol (h :: t)) = Done (h, dict_rows h t) /\
  forall last,
    is_plain_record last = true ->
    fits_header h last = true ->
    read_csv (write_table eol (h :: t) ++ join "," last) =
    Done (h, dict_rows h (t ++ [last])).
Proof.
  intros He Hh Ht _. split; [now apply read_plain_table |].
  intros last Hl _. unfold read_csv.
  assert (Hhl : is_plain_line h = true).
  { unfold is_plain_line. rewrite Hh. apply orb_true_r. }
  rewrite readlines_table_last;
    [| assumption | cbn [forallb]; now rewrite Hhl, Ht
     | apply plain_line_no_LF; unfold is_plain_line; rewrite Hl; apply orb_true_r
     | now apply plain_record_nonempty].
  cbn [map app]. rewrite (reader_next_plain eol h _ He Hhl).
  destruct h as [|x xs]; [discriminate |].
  now rewrite (reader_all_plain_last eol t last He Ht Hl).
Qed.

Lemma plain_table_round_trip_witness :
  read_csv ("name,age" ++ String CR (String LF ("Ann,31" ++ String CR (String LF
            (String CR (String LF ("Bob," ++ String CR (String LF "")))))))) =
  Done (["name"; "age"],
        [dict_row ["name"; "age"] ["Ann"; "31"];
         dict_row ["name"; "age"] ["Bob"; ""]]).
Proof.
  apply (plain_table_round_trip (String CR (String LF "")) ["name"; "age"]
           [["Ann"; "31"]; []; ["Bob"; ""]]).
  - right. left. reflexivity.
  - vm_compute. reflexivity.
  - vm_compute. reflexivity.
  - reflexivity.
Defined.

Lemma foldl_delete_lookup (ks : list string) (m : gmap string string) (c : string) :
  foldl (fun d key => delete key d) m ks !! c =
  if decide (c ∈ ks) then None else m !! c.
Proof.
  revert m. induction ks as [|k ks IH]; intros m; cbn [foldl].
  - destruct (decide (c ∈ [])) as [H | _]; [| reflexivity].
    now apply elem_of_nil in H.
  - rewrite IH. destruct (decide (c = k)) as [-> | Hne].
    + rewrite lookup_delete_eq.
      destruct (decide (k ∈ ks)); destruct (decide (k ∈ k :: ks)) as [|Hn];
        try reflexivity; exfalso; apply Hn; left.
    + rewrite lookup_delete_ne by congruence.
      destruct (decide (c ∈ ks)) as [Hin | Hin];
        destruct (decide (c ∈ k :: ks)) as [Hin' | Hin']; try reflexivity.
      * exfalso. apply Hin'. now right.
      * exfalso. apply elem_of_cons in Hin' as [? | ?]; auto.
Qed.

Lemma foldl_insert_absent (h r : list string) (m : gmap string string) (c : string) :
  c ∉ h ->
  foldl (fun d kv => <[fst kv := snd kv]> d) m (zip h r) !! c = m !! c.
Proof.
  revert r m. induction h as [|k h IH]; intros r m Hc; [reflexivity |].
  destruct r as [|v r]; [reflexivity |].
  cbn [zip zip_with foldl fst snd]. rewrite IH.
  - apply lookup_insert_ne. intros ->. apply Hc. left.
  - intros H. apply Hc. now right.
Qed.

Lemma foldl_insert_lookup (h r : list string) (m : gmap string string)
  (i : nat) (c : string) :
  NoDup h -> h !! i = Some c ->
  foldl (fun d kv => <[fst kv := snd kv]> d) m (zip h r) !! c =
  match r !! i with Some v => Some v | None => m !! c end.
Proof.
  revert r m i. induction h as [|k h IH]; intros r m i Hnd Hi; [discriminate |].
  apply NoDup_cons in Hnd as [Hk Hnd].
  destruct r as [|v r]; [reflexivity |].
  cbn [zip zip_with foldl fst snd].
  destruct i as [|i].
  - injection Hi as <-. rewrite foldl_insert_absent by exact Hk.
    now rewrite lookup_insert_eq.
  - cbn [lookup list_lookup] in Hi |- *. rewrite (IH r _ i Hnd Hi).
    destruct (r !! i); [reflexivity |].
    apply lookup_insert_ne. intros ->. apply Hk.
    eapply list_elem_of_lookup_2, Hi.
Qed.

(** X10. Under a header without a repeated name, the row of a record holds
    under each name the cell at the place of the name: [row.get(c)] is the
    [i]-th cell for the [i]-th name [c], and nothing when the record is too
    short to have one; cells past the header change no entry. *)
Theorem cell_under_its_name (h r : list string) (i : nat) (c : string) :
  NoDup h ->
  h !! i = Some c ->
  dict_row h r !! c = r !! i.
Proof.
  intros Hnd Hi. unfold dict_row. rewrite foldl_delete_lookup.
  destruct (decide (c ∈ drop (length r) h)) as [Hin | Hin].
  - apply list_elem_of_lookup in Hin as [j Hj]. rewrite lookup_drop in Hj.
    rewrite (NoDup_lookup _ _ _ _ Hnd Hi Hj).
    symmetry. apply lookup_ge_None. lia.
  - rewrite (foldl_insert_lookup h r ∅ i c Hnd Hi).
    destruct (r !! i) eqn:Hr; [reflexivity |].
    exfalso. apply Hin. apply lookup_ge_None in Hr.
    apply list_elem_of_lookup. exists (i - length r)%nat.
    rewrite lookup_drop. now replace (length r + (i - length r))%nat with i by lia.
Qed.

Lemma cell_under_its_name_witness :
  dict_row ["name"; "age"; "city"] ["Ann"; "31"] !! "age" = Some "31" /\
  dict_row ["name"; "age"; "city"] ["Ann"; "31"] !! "city" = None.
Proof.
  split.
  - apply (cell_under_its_name ["name"; "age"; "city"] ["Ann"; "31"] 1 "age");
      [| reflexivity].
    apply (bool_decide_unpack _). vm_compute. reflexivity.
  - apply (cell_under_its_name ["name"; "age"; "city"] ["Ann"; "31"] 2 "city");
      [| reflexivity].
    apply (bool_decide_unpack _). vm_compute. reflexivity.
Defined.

Lemma readlines_prefix (s rest : string) :
  has_char LF s = false -> s <> "" ->
  exists t ls, readlines (s ++ rest) = (s ++ t) :: ls.
Proof.
  induction s as [|c s IH]; intros Hs Hne; [congruence |].
  cbn [has_char] in Hs. apply orb_false_elim in Hs as [Hc Hs].
  push_app. cbn [readlines]. rewrite Hc.
  destruct s as [|d s].
  - push_app. destruct (readlines rest) as [|l ls] eqn:Hr.
    + exists "", []. reflexivity.
    + destruct rest; [discriminate |]. exists l, ls. reflexivity.
  - destruct (IH Hs) as (t & ls & ->); [discriminate |].
    push_app. exists t, ls. reflexivity.
Qed.

Lemma carriage_return_step (p : parser) (c : ascii) :
  is_open (state p) = true ->
  is_newline c = false ->
  parse_chars p (String CR (String c "")) = Failed NewlineInUnquotedField.
Proof.
  intros Ho Hc. destruct p as [s f fs]; destruct s; cbn [state] in Ho;
    try discriminate; cbn [parse_chars];
    change (parse_process_char ?q (Char CR)) with
      (Done (E := csv_error) match state q with
            | START_RECORD => set_state EAT_CRNL q
            | _ => set_state EAT_CRNL (parse_save_field q)
            end);
    cbn [state set_state parse_save_field field fields];
    unfold parse_process_char; cbn [state]; now rewrite Hc.
Qed.

(** X11. A carriage return that ends a line by itself is not accepted: in
    a first line of plain cells, a [CR] followed by a character that is no
    line end makes the reader raise its error (new-line character seen in
    unquoted field), which the handler does not catch. *)
Theorem bare_carriage_return_fails (r : list string) (c : ascii) (rest : string) :
  forallb is_plain_cell r = true ->
  is_newline c = false ->
  read_csv (join "," r ++ String CR (String c rest)) =
  Failed (CsvError NewlineInUnquotedField).
Proof.
  intros Hr Hc.
  set (s := join "," r ++ String CR (String c "")).
  assert (Hs : has_char LF s = false).
  { unfold s. rewrite has_char_app, (plain_cells_no_LF r Hr).
    unfold is_newline in Hc. apply orb_false_elim in Hc as [Hc _].
    cbn [has_char orb]. now rewrite Hc. }
  assert (Hne : s <> "").
  { unfold s. apply append_nonempty. discriminate. }
  assert (Hp : parse_chars parse_reset s = Failed NewlineInUnquotedField).
  { unfold s. rewrite parse_chars_app. destruct r as [|x xs].
    - cbn [join parse_chars]. now apply carriage_return_step.
    - destruct (plain_cells_chars xs x parse_reset eq_refl eq_refl Hr)
        as (p' & -> & Ho & _).
      now apply carriage_return_step. }
  replace (join "," r ++ String CR (String c rest)) with (s ++ rest).
  - destruct (readlines_prefix s rest Hs Hne) as (t & ls & Hl).
    unfold read_csv. rewrite Hl. cbn [reader_next].
    now rewrite parse_line_app, Hp.
  - unfold s. rewrite append_assoc. now push_app.
Qed.

Lemma bare_carriage_return_fails_witness :
  read_csv ("name,age" ++ String CR (String "A" ("nn,31" ++ String CR "Bob,27"))) =
  Failed (CsvError NewlineInUnquotedField).
Proof.
  apply (bare_carriage_return_fails ["name"; "age"] "A"
           ("nn,31" ++ String CR "Bob,27")); vm_compute; reflexivity.
Defined.

End CsvFacts.

(** ** The upload handler and the store *)

Module HandlerFacts.
Import PyCsv Upload UploadCsv PyFacts SchemaFacts CsvFacts.

Lemma length_lower (s : string) : String.length (lower s) = String.length s.
Proof. induction s as [|c s IH]; cbn [lower String.length]; congruence. Qed.

Lemma drop_chars_lower (n : nat) (s : string) :
  drop_chars n (lower s) = lower (drop_chars n s).
Proof.
  revert s. induction n as [|n IH]; intros s; [reflexivity |].
  destruct s as [|c s]; [reflexivity |]. cbn [lower drop_chars]. apply IH.
Qed.

Lemma drop_chars_split (n : nat) (s : string) :
  exists p, s = p ++ drop_chars n s.
Proof.
  revert s. induction n as [|n IH]; intros s.
  - exists "". now push_app.
  - destruct s as [|c s]; [exists ""; reflexivity |].
    destruct (IH s) as [p Hp]. exists (String c p). push_app.
    cbn [drop_chars]. now rewrite <- Hp.
Qed.

Lemma endswith_app (p suffix : string) : endswith (p ++ suffix) suffix = true.
Proof.
  unfold endswith. rewrite length_append.
  replace (String.length p + String.length suffix - String.length suffix)%nat
    with (String.length p) by lia.
  rewrite drop_chars_app, String.eqb_refl, andb_true_r.
  apply Nat.leb_le. lia.
Qed.

Lemma csv_name (filename : string) :
  endswith (lower filename) ".csv" = true <->
  exists stem ext, filename = stem ++ ext /\ lower ext = ".csv".
Proof.
  split.
  - unfold endswith. intros H. apply andb_prop in H as [_ H].
    apply String.eqb_eq in H. rewrite length_lower, drop_chars_lower in H.
    destruct (drop_chars_split (String.length filename - String.length ".csv")
                filename) as [stem Hs].
    eauto.
  - intros (stem & ext & -> & He). rewrite lower_app, He. apply endswith_app.
Qed.

Lemma read_csv_errors (text : string) (e : upload_error) :
  read_csv text = Failed e ->
  e = HTTPError 400 "CSV has no header row" \/ exists ce, e = CsvError ce.
Proof.
  unfold read_csv.
  destruct (reader_next parse_reset (readlines text)) as [[[f rest]|]|ce].
  - destruct f as [|x f]; [intros [= <-]; now left |].
    destruct (reader_all parse_reset rest) as [rs|ce]; [discriminate |].
    intros [= <-]. right. eauto.
  - intros [= <-]. now left.
  - intros [= <-]. right. eauto.
Qed.

Lemma read_csv_columns (text : string) (cols : list string) (reader : list row) :
  read_csv text = Done (cols, reader) -> cols <> [].
Proof.
  unfold read_csv.
  destruct (reader_next parse_reset (readlines text)) as [[[f rest]|]|ce];
    try discriminate.
  destruct f as [|x f]; [discriminate |].
  destruct (reader_all parse_reset rest) as [rs|ce]; [| discriminate].
  intros [= <- _]. discriminate.
Qed.

Lemma store_upload_run (create_document : string -> Schemas.Dataset ->
                                          outcome upload_error string)
  (insert_many : list record_doc -> outcome upload_error unit)
  (db_available : bool) (now : Z) (filename : string) (cols : list string)
  (reader : list row) :
  let types :=
    column_types_of cols (type_counts (scan_rows cols 0 reader (scan_start cols))) in
  let ds := {| Schemas.name := filename; Schemas.columns := cols;
               Schemas.column_types := types;
               Schemas.row_count := Z.of_nat (length reader) |} in
  let response id :=
    {| resp_dataset_id := id; resp_name := filename;
       resp_columns := cols; resp_column_types := types;
       resp_row_count := length reader;
       resp_preview := take 50 reader |} in
  store_upload create_document insert_many db_available now filename cols reader =
  match create_document "dataset" ds with
  | Failed e => raises [CreateDocument "dataset" ds] e
  | Done id =>
      if negb db_available
      then raises [CreateDocument "dataset" ds]
                  (HTTPError 500 "Database not available")
      else
        match reader with
        | [] => {| calls := [CreateDocument "dataset" ds];
                   answer := Done (response id) |}
        | _ =>
            let done := [CreateDocument "dataset" ds;
                         InsertMany "record" (make_records now id reader)] in
            match insert_many (make_records now id reader) with
            | Done _ => {| calls := done; answer := Done (response id) |}
            | Failed e => raises done e
            end
        end
  end.
Proof.
  intros types ds response. unfold store_upload, Schemas.make_Dataset.
  rewrite scan_rows_rows, scan_rows_preview.
  cbn [scan_start rows preview_rows app length]. rewrite Nat.sub_0_r.
  change max_preview with 50%nat.
  destruct (Z.ltb_spec (Z.of_nat (length reader)) 0) as [Hlt | _]; [lia |].
  fold types. fold ds.
  destruct (create_document "dataset" ds) as [id | e]; [| reflexivity].
  destruct db_available; [| reflexivity]. cbn [negb Schemas.name ds].
  destruct reader; reflexivity.
Qed.

(** X12. A file is refused for its name, with status 400 and before
    anything is read or stored, exactly when the name does not end in
    [.csv] written in any letter case. *)
Theorem csv_name_required
  (create_document : string -> Schemas.Dataset -> outcome upload_error string)
  (insert_many : list record_doc -> outcome upload_error unit)
  (db_available : bool) (now : Z) (filename text : string) :
  upload_csv create_document insert_many db_available now filename text =
    raises [] (HTTPError 400 "Only CSV files are supported")
  <-> ~ exists stem ext, filename = stem ++ ext /\ lower ext = ".csv".
Proof.
  rewrite <- csv_name. unfold upload_csv.
  destruct (endswith (lower filename) ".csv").
  - split; [| intros H; now destruct H]. intros H _. cbn [negb] in H.
    destruct (read_csv text) as [[cols reader]|e] eqn:Hr.
    + rewrite store_upload_run in H.
      destruct (create_document "dataset" _); [destruct db_available |];
        try discriminate.
      cbn [negb] in H. destruct reader; [discriminate |].
      cbv zeta in H. destruct (insert_many _); discriminate.
    + apply read_csv_errors in Hr as [-> | [ce ->]]; discriminate.
  - split; [intros _; discriminate | reflexivity].
Qed.

(** X13. A file whose text is empty or begins with an empty line has no
    header: whatever follows the empty line, a whole table even, the upload
    is refused with status 400 and nothing is stored. *)
Theorem blank_first_line_rejected
  (create_document : string -> Schemas.Dataset -> outcome upload_error string)
  (insert_many : list record_doc -> outcome upload_error unit)
  (db_available : bool) (now : Z) (stem ext text rest : string) :
  lower ext = ".csv" ->
  text = "" \/ text = String LF rest \/ text = String CR (String LF rest) ->
  upload_csv create_document insert_many db_available now (stem ++ ext) text =
  raises [] (HTTPError 400 "CSV has no header row").
Proof.
  intros He Ht. unfold upload_csv.
  replace (endswith (lower (stem ++ ext)) ".csv") with true
    by (symmetry; apply csv_name; eauto).
  cbn [negb].
  assert (Hr : read_csv text = Failed (HTTPError 400 "CSV has no header row")).
  { destruct Ht as [-> | [-> | ->]]; [reflexivity | |].
    - pose proof (readlines_line "" rest eq_refl) as Hl.
      rewrite append_nil in Hl. unfold read_csv. rewrite Hl. reflexivity.
    - pose proof (readlines_line (String CR "") rest eq_refl) as Hl.
      rewrite append_cons, append_nil in Hl. unfold read_csv. rewrite Hl.
      reflexivity. }
  now rewrite Hr.
Qed.

Lemma blank_first_line_rejected_witness :
  upload_csv (fun _ _ => Done "id") (fun _ => Done tt) true 0 "table.CSV"
    (String LF ("a,b" ++ String LF ("1,2" ++ String LF ""))) =
  raises [] (HTTPError 400 "CSV has no header row").
Proof.
  apply (blank_first_line_rejected (fun _ _ => Done "id") (fun _ => Done tt)
           true 0 "table" ".CSV" _ ("a,b" ++ String LF ("1,2" ++ String LF ""))).
  - reflexivity.
  - right. left. reflexivity.
Defined.

(** X14. What a successful upload has stored agrees with what it answers:
    the dataset document carries the file name, the header, the column
    types and the number of rows of the answer; there is one record for
    each row read, in order, each with the identifier the store gave the
    dataset and the same two time stamps; the rows are inserted in one
    call, which is left out when there are none; the preview is the first
    50 of the rows stored. *)
Theorem stored_rows_match_response
  (create_document : string -> Schemas.Dataset -> outcome upload_error string)
  (insert_many : list record_doc -> outcome upload_error unit)
  (db_available : bool) (now : Z) (filename text : string) (resp : response) :
  answer (upload_csv create_document insert_many db_available now filename text)
    = Done resp ->
  exists reader,
    let ds := {| Schemas.name := filename;
                 Schemas.columns := resp_columns resp;
                 Schemas.column_types := resp_column_types resp;
                 Schemas.row_count := Z.of_nat (resp_row_count resp) |} in
    let recs := map (fun r => {| dataset_id := resp_dataset_id resp; data := r;
                                 created_at := now; updated_at := now |}) reader in
    read_csv text = Done (resp_columns resp, reader) /\
    create_document "dataset" ds = Done (resp_dataset_id resp) /\
    db_available = true /\
    resp_name resp = filename /\
    resp_row_count resp = length reader /\
    resp_preview resp = take 50 reader /\
    infer_schema (resp_columns resp) reader =
      Ok {| columns := resp_columns resp;
            column_types := resp_column_types resp;
            row_count := resp_row_count resp;
            preview := resp_preview resp |} /\
    calls (upload_csv create_document insert_many db_available now filename text) =
      CreateDocument "dataset" ds ::
      match reader with
      | [] => []
      | _ => [InsertMany "record" recs]
      end.
Proof.
  unfold upload_csv.
  destruct (endswith (lower filename) ".csv"); [| discriminate]. cbn [negb].
  destruct (read_csv text) as [[cols reader]|e] eqn:Hr; [| discriminate].
  rewrite store_upload_run.
  destruct (create_document "dataset" _) as [id|e] eqn:Hc; [| discriminate].
  destruct db_available; [| discriminate]. cbn [negb].
  assert (Hs : infer_schema cols reader =
               Ok {| columns := cols;
                     column_types :=
                       column_types_of cols
                         (type_counts (scan_rows cols 0 reader (scan_start cols)));
                     row_count := length reader;
                     preview := take 50 reader |}).
  { unfold infer_schema. apply read_csv_columns in Hr.
    destruct cols as [|c cols]; [congruence |].
    rewrite scan_rows_rows, scan_rows_preview.
    cbn [rows preview_rows app length]. rewrite Nat.sub_0_r. reflexivity. }
  destruct reader as [|r reader].
  - cbn [answer calls]. intros [= <-]. exists [].
    cbn [resp_dataset_id resp_name resp_columns resp_column_types
         resp_row_count resp_preview].
    repeat apply conj; try reflexivity; assumption.
  - cbv zeta. destruct (insert_many _) as [[]|e]; [| discriminate].
    cbn [answer calls]. intros [= <-]. exists (r :: reader).
    cbn [resp_dataset_id resp_name resp_columns resp_column_types
         resp_row_count resp_preview].
    repeat apply conj; try reflexivity; assumption.
Qed.

Lemma stored_rows_match_response_witness :
  exists reader,
    read_csv ("a,b" ++ String LF ("1,x" ++ String LF "")) = Done (["a"; "b"], reader) /\
    calls (upload_csv (fun _ _ => Done "id7") (fun _ => Done tt) true 5 "t.csv"
             ("a,b" ++ String LF ("1,x" ++ String LF ""))) =
    [CreateDocument "dataset"
       {| Schemas.name := "t.csv"; Schemas.columns := ["a"; "b"];
          Schemas.column_types := <["b" := "string"]> (<["a" := "number"]> ∅);
          Schemas.row_count := 1 |};
     InsertMany "record"
       (map (fun r => {| dataset_id := "id7"; data := r;
                         created_at := 5; updated_at := 5 |}) reader)].
Proof.
  destruct (stored_rows_match_response (fun _ _ => Done "id7") (fun _ => Done tt)
              true 5 "t.csv" ("a,b" ++ String LF ("1,x" ++ String LF ""))
              {| resp_dataset_id := "id7"; resp_name := "t.csv";
                 resp_columns := ["a"; "b"];
                 resp_column_types := <["b" := "string"]> (<["a" := "number"]> ∅);
                 resp_row_count := 1;
                 resp_preview := [dict_row ["a"; "b"] ["1"; "x"]] |})
    as (reader & Hr & _ & _ & _ & Hn & _ & _ & Hc).
  - vm_compute. reflexivity.
  - exists reader. split; [exact Hr |].
    cbn [resp_row_count resp_columns resp_column_types resp_dataset_id] in *.
    rewrite Hc. destruct reader as [|r reader]; [discriminate |]. reflexivity.
Defined.

(** X15. Where a failed upload stops.  It fails before the store is called
    at all, for the file name, for the missing header or with an error of
    the reader; or after the one call that creates the dataset, with the
    exception of that call or with status 500 because the database is not
    available; or in the call that inserts the rows, with its exception.
    Rows are never inserted before the dataset document is created, and
    only the last case can leave rows behind. *)
Theorem failed_upload_stops
  (create_document : string -> Schemas.Dataset -> outcome upload_error string)
  (insert_many : list record_doc -> outcome upload_error unit)
  (db_available : bool) (now : Z) (filename text : string) (e : upload_error) :
  let r := upload_csv create_document insert_many db_available now filename text in
  answer r = Failed e ->
  (calls r = [] /\
   (e = HTTPError 400 "Only CSV files are supported" \/
    e = HTTPError 400 "CSV has no header row" \/
    exists ce, e = CsvError ce)) \/
  (exists ds,
     calls r = [CreateDocument "dataset" ds] /\
     (create_document "dataset" ds = Failed e \/
      (exists id, create_document "dataset" ds = Done id) /\
      db_available = false /\
      e = HTTPError 500 "Database not available")) \/
  (exists ds recs,
     calls r = [CreateDocument "dataset" ds; InsertMany "record" recs] /\
     recs <> [] /\ db_available = true /\ insert_many recs = Failed e).
Proof.
  intros r. unfold r, upload_csv.
  destruct (endswith (lower filename) ".csv"); cbn [negb].
  - destruct (read_csv text) as [[cols reader]|e'] eqn:Hr.
    + rewrite store_upload_run.
      destruct (create_document "dataset" _) as [id|e'] eqn:Hc.
      * destruct db_available; cbn [negb].
        -- destruct reader as [|row reader]; [discriminate |]. cbv zeta.
           destruct (insert_many _) as [[]|e'] eqn:Hi; [discriminate |].
           intros [= <-]. right. right. eexists. eexists.
           split; [reflexivity |]. repeat apply conj; try reflexivity.
           ++ discriminate.
           ++ exact Hi.
        -- intros [= <-]. right. left. eexists. split; [reflexivity |].
           right. rewrite Hc. eauto.
      * intros [= <-]. right. left. eexists. split; [reflexivity |]. now left.
    + intros [= <-]. left. split; [reflexivity |].
      apply read_csv_errors in Hr as [-> | H]; auto.
  - intros [= <-]. left. auto.
Qed.

Lemma failed_upload_stops_witness :
  calls (upload_csv (fun _ _ => Done "id") (fun _ => Done tt) true 0
           "notes.txt" "a,b") = [] /\
  exists ds, calls (upload_csv (fun _ _ => Done "id") (fun _ => Done tt) false 0
                      "t.csv" "a,b") =
             [CreateDocument "dataset" ds].
Proof.
  split.
  - destruct (failed_upload_stops (fun _ _ => Done "id") (fun _ => Done tt) true 0
                "notes.txt" "a,b" (HTTPError 400 "Only CSV files are supported"))
      as [[H _] | [(ds & H & _) | (ds & recs & H & _)]];
      [reflexivity | exact H | discriminate H | discriminate H].
  - destruct (failed_upload_stops (fun _ _ => Done "id") (fun _ => Done tt) false 0
                "t.csv" "a,b" (HTTPError 500 "Database not available"))
      as [[H _] | [(ds & H & _) | (ds & recs & H & _)]];
      [reflexivity | discriminate H | eauto | discriminate H].
Defined.

(** X16. The check that the database is there comes after the dataset is
    created: when it is not there and [create_document] still returns,
    every upload that passes the checks of name and header leaves a dataset
    document that announces the rows read, stores none of them and answers
    with status 500. *)
Theorem unavailable_db_leaves_dataset
  (create_document : string -> Schemas.Dataset -> outcome upload_error string)
  (insert_many : list record_doc -> outcome upload_error unit)
  (now : Z) (stem ext text : string) (cols : list string) (reader : list row) :
  lower ext = ".csv" ->
  read_csv text = Done (cols, reader) ->
  (forall ds, exists id, create_document "dataset" ds = Done id) ->
  exists ds,
    upload_csv create_document insert_many false now (stem ++ ext) text =
      raises [CreateDocument "dataset" ds]
             (HTTPError 500 "Database not available") /\
    Schemas.name ds = stem ++ ext /\
    Schemas.columns ds = cols /\
    Schemas.row_count ds = Z.of_nat (length reader).
Proof.
  intros He Hr Hc. unfold upload_csv.
  replace (endswith (lower (stem ++ ext)) ".csv") with true
    by (symmetry; apply csv_name; eauto).
  cbn [negb]. rewrite Hr, store_upload_run.
  match goal with
  | |- context [create_document "dataset" ?d] =>
      destruct (Hc d) as [id ->]; exists d
  end.
  cbn [negb]. repeat apply conj; reflexivity.
Qed.

Lemma unavailable_db_leaves_dataset_witness :
  exists ds,
    upload_csv (fun _ _ => Done "id") (fun _ => Done tt) false 0 "t.csv"
      ("a,b" ++ String LF ("1,2" ++ String LF "")) =
      raises [CreateDocument "dataset" ds]
             (HTTPError 500 "Database not available") /\
    Schemas.row_count ds = 1%Z.
Proof.
  destruct (unavailable_db_leaves_dataset (fun _ _ => Done "id") (fun _ => Done tt)
              0 "t" ".csv"
              ("a,b" ++ String LF ("1,2" ++ String LF "")) ["a"; "b"]
              [dict_row ["a"; "b"] ["1"; "2"]])
    as (ds & H & _ & _ & Hn).
  - reflexivity.
  - vm_compute. reflexivity.
  - intros ds. exists "id". reflexivity.
  - exists ds. split; [exact H | exact Hn].
Defined.

Lemma dict_rows_plain (h : list string) (t : list (list string)) :
  forallb is_plain_record t = true -> dict_rows h t = map (dict_row h) t.
Proof.
  unfold dict_rows. induction t as [|r t IH]; [reflexivity |].
  cbn [forallb]. intros H. apply andb_prop in H as [Hr Ht].
  destruct r as [|x xs]; [discriminate |].
  cbn [List.filter is_empty_record negb map]. now rewrite (IH Ht).
Qed.

Lemma plain_records_lines (t : list (list string)) :
  forallb is_plain_record t = true -> forallb is_plain_line t = true.
Proof.
  induction t as [|r t IH]; [reflexivity |].
  cbn [forallb]. intros H. apply andb_prop in H as [Hr Ht].
  unfold is_plain_line at 1. now rewrite Hr, orb_true_r, (IH Ht).
Qed.

(** X17. From the file to the store: a file with a name in [.csv] that holds a
    plain header and [n >= 1] plain rows, none longer than the header, is
    stored, when the database is there and takes the rows, as one dataset
    document with that name, that header and [row_count = n], and [n]
    records in the order of the lines, each holding its cells under the
    header names; the answer repeats the dataset and previews the first 50
    rows. *)
Theorem upload_plain_table
  (create_document : string -> Schemas.Dataset -> outcome upload_error string)
  (insert_many : list record_doc -> outcome upload_error unit)
  (now : Z) (eol stem ext id : string) (h : list string)
  (t : list (list string)) :
  lower ext = ".csv" ->
  In eol line_ends ->
  is_plain_record h = true ->
  forallb is_plain_record t = true ->
  forallb (fits_header h) t = true ->
  t <> [] ->
  let types :=
    column_types_of h
      (type_counts (scan_rows h 0 (map (dict_row h) t) (scan_start h))) in
  let ds := {| Schemas.name := stem ++ ext; Schemas.columns := h;
               Schemas.column_types := types;
               Schemas.row_count := Z.of_nat (length t) |} in
  let recs := map (fun r => {| dataset_id := id; data := dict_row h r;
                               created_at := now; updated_at := now |}) t in
  create_document "dataset" ds = Done id ->
  insert_many recs = Done tt ->
  upload_csv create_document insert_many true now (stem ++ ext)
    (write_table eol (h :: t)) =
  {| calls := [CreateDocument "dataset" ds; InsertMany "record" recs];
     answer :=
       Done {| resp_dataset_id := id; resp_name := stem ++ ext;
               resp_columns := h; resp_column_types := types;
               resp_row_count := length t;
               resp_preview := map (dict_row h) (take 50 t) |} |}.
Proof.
  intros He Hl Hh Ht _ Hne types ds recs Hc Hi. unfold upload_csv.
  replace (endswith (lower (stem ++ ext)) ".csv") with true
    by (symmetry; apply csv_name; eauto).
  cbn [negb].
  rewrite (read_plain_table eol h t Hl Hh (plain_records_lines t Ht)).
  rewrite (dict_rows_plain h t Ht), store_upload_run.
  rewrite length_map. fold types. fold ds. rewrite Hc. cbn [negb].
  unfold make_records. rewrite map_map, firstn_map. fold recs.
  destruct t as [|r t]; [congruence |].
  cbn [map]. cbv zeta.
  change (_ :: map _ t) with recs. now rewrite Hi.
Qed.

Lemma upload_plain_table_witness :
  let types :=
    column_types_of ["name"; "age"]
      (type_counts (scan_rows ["name"; "age"] 0
         (map (dict_row ["name"; "age"]) [["Ann"; "31"]; ["Bob"; "27"]])
         (scan_start ["name"; "age"]))) in
  let ds := {| Schemas.name := "People.CSV"; Schemas.columns := ["name"; "age"];
               Schemas.column_types := types; Schemas.row_count := 2 |} in
  upload_csv (fun _ _ => Done "id7") (fun _ => Done tt) true 5 "People.CSV"
    ("name,age" ++ String LF ("Ann,31" ++ String LF ("Bob,27" ++ String LF ""))) =
  {| calls :=
       [CreateDocument "dataset" ds;
        InsertMany "record"
          (map (fun r => {| dataset_id := "id7"; data := dict_row ["name"; "age"] r;
                            created_at := 5; updated_at := 5 |})
               [["Ann"; "31"]; ["Bob"; "27"]])];
     answer :=
       Done {| resp_dataset_id := "id7"; resp_name := "People.CSV";
               resp_columns := ["name"; "age"]; resp_column_types := types;
               resp_row_count := 2;
               resp_preview := map (dict_row ["name"; "age"])
                                   [["Ann"; "31"]; ["Bob"; "27"]] |} |}.
Proof.
  apply (upload_plain_table (fun _ _ => Done "id7") (fun _ => Done tt) 5
           (String LF "") "People" ".CSV" "id7" ["name"; "age"]
           [["Ann"; "31"]; ["Bob"; "27"]]).
  - reflexivity.
  - left. reflexivity.
  - vm_compute. reflexivity.
  - vm_compute. reflexivity.
  - reflexivity.
  - discriminate.
  - reflexivity.
  - reflexivity.
Defined.

End HandlerFacts.

(** ** The answer of a query, the list of datasets and the report *)

Module AnswerFacts.
Import Query QueryAnswer QueryFacts.



End AnswerFacts.

Module AdminFacts.
Import PyCsv Admin.

Lemma length_take_chars (n : nat) (s : string) :
  (String.length (take_chars n s) <= n)%nat.
Proof.
  revert s. induction n as [|n IH]; intros s; [cbn; lia |].
  destruct s as [|c s]; cbn [take_chars String.length]; [lia |].
  specialize (IH s). lia.
Qed.

(** X19. The listing keeps every dataset document, in order, and changes
    nothing in it but [_id], which afterwards is always there and is a
    string, or [None] where there was none: never the identifier object of
    the store. *)
Theorem listed_ids_are_text (str : bson -> string)
  (docs out : list (gmap string bson)) :
  list_datasets str (Some docs) = Ok out ->
  length out = length docs /\
  forall i d,
    docs !! i = Some d ->
    exists d',
      out !! i = Some d' /\
      d' !! "_id" = Some (match d !! "_id" with
                          | Some v => Text (str v)
                          | None => Null
                          end) /\
      forall key, key <> "_id" -> d' !! key = d !! key.
Proof.
  intros [= <-]. split; [apply length_map |].
  intros i d Hi. eexists. split.
  - rewrite list_lookup_fmap_Some. eauto.
  - split; [apply lookup_insert_eq |].
    intros key Hk. now apply lookup_insert_ne.
Qed.

Lemma listed_ids_are_text_witness :
  exists d' : gmap string bson,
    d' !! "_id" = Some (Text "65f0") /\ d' !! "name" = Some (Text "t.csv").
Proof.
  destruct (listed_ids_are_text
              (fun v => match v with ObjectId h => h | _ => "" end)
              [<["name" := Text "t.csv"]> (<["_id" := ObjectId "65f0"]> ∅)]
              _ eq_refl) as [_ H].
  destruct (H 0%nat _ eq_refl) as (d' & _ & Hid & Hk).
  exists d'. split; [exact Hid |].
  rewrite Hk by discriminate. reflexivity.
Defined.

(** X20. The report says of the address and of the name of the database
    only whether the environment sets [DATABASE_URL] and [DATABASE_NAME]
    to a text that is not empty, whatever the database; the state it
    reports is never one of the two it starts from; the connection is
    reported exactly when there is a database object; at most 10
    collection names are listed, and only of a database that works; an
    error text is cut to 50 characters. *)
Theorem report_of_environment (db : option database)
  (getenv : string -> option string) :
  let r := test_database db getenv in
  database_url r = (if is_set (getenv "DATABASE_URL") then IsSet else NotSet) /\
  database_name r = (if is_set (getenv "DATABASE_NAME") then IsSet else NotSet) /\
  database_state r <> NotAvailable /\ database_state r <> Available /\
  (connection_status r = Connected <-> db <> None) /\
  (length (collections r) <= 10)%nat /\
  (collections r <> [] -> database_state r = ConnectedAndWorking) /\
  (forall text, database_state r = ConnectedButError text ->
                (String.length text <= 50)%nat).
Proof.
  unfold test_database. destruct db as [[n [names | e]]|];
    cbn [name list_collection_names set_database set_database_url
         set_database_name set_connection_status set_collections
         database_state database_url database_name connection_status
         collections];
    repeat apply conj; try reflexivity; try discriminate; try congruence;
    try (split; congruence); try (cbn [length]; lia).
  - rewrite length_take. lia.
  - intros text H.
    assert (Ht : text = take_chars 50 e) by (symmetry; now injection H).
    rewrite Ht. apply length_take_chars.
Qed.

End AdminFacts.

(** ** Clauses joined by [and] *)

Module ConjunctionFacts.
Import Query QueryParts PyFacts QueryFacts.

Lemma and_separator_boundary (y rest : string) :
  y <> "" ->
  startswith (y ++ " and " ++ rest) " and " = startswith (y ++ " and") " and ".
Proof.
  destruct y as [|c1 [|c2 [|c3 [|c4 [|c5 y]]]]]; [congruence | | | | |];
    intros _; reflexivity.
Qed.

Lemma partition_and_skip (c rest : string) :
  contains " and " (c ++ " and") = false ->
  partition " and " (c ++ " and " ++ rest) = Some (c, rest).
Proof.
  induction c as [|x c IH]; [intros _; apply (partition_here " and ") |].
  rewrite (append_cons x c " and").
  intros H. apply contains_unfold_false in H as [Hhere Hlater].
  rewrite <- (append_cons x c " and") in Hhere.
  rewrite <- and_separator_boundary with (rest := rest) in Hhere by discriminate.
  rewrite (append_cons x c) in *.
  now rewrite partition_unfold, Hhere, (IH Hlater).
Qed.

Lemma split_and_cons (c rest : string) :
  contains " and " (c ++ " and") = false ->
  split " and " (c ++ " and " ++ rest) = c :: split " and " rest.
Proof.
  intros H. unfold split at 1.
  pose proof (partition_length _ _ _ _ (partition_and_skip c rest H)) as Hl.
  destruct (String.length (c ++ " and " ++ rest)) as [|n] eqn:Hn;
    [cbn [String.length] in Hl; lia |].
  cbn [split_fuel]. rewrite (partition_and_skip c rest H). f_equal.
  apply split_fuel_enough; [discriminate |].
  cbn [String.length] in Hl. lia.
Qed.

Lemma startswith_prefix (a b p : string) :
  startswith a p = true -> startswith (a ++ b) p = true.
Proof.
  revert a. induction p as [|x p IH]; intros a; [reflexivity |].
  destruct a as [|y a]; [discriminate |].
  rewrite append_cons, !startswith_cons. intros H.
  apply andb_prop in H as [-> H]. now rewrite (IH a H).
Qed.

Lemma contains_prefix (sep a b : string) :
  contains sep (a ++ b) = false -> contains sep a = false.
Proof.
  induction a as [|x a IH].
  - destruct sep as [|y sep]; [| reflexivity].
    unfold contains. rewrite find_unfold. cbn [startswith]. discriminate.
  - rewrite append_cons. intros H.
    apply contains_unfold_false in H as [Hhere Hlater].
    specialize (IH Hlater). unfold contains in *. rewrite find_unfold.
    destruct (startswith (String x a) sep) eqn:Hs.
    + apply startswith_prefix with (b := b) in Hs.
      rewrite append_cons in Hs. congruence.
    + now destruct (find sep a).
Qed.

Lemma single_clause_facts (c : string) :
  is_single_clause c = true ->
  strip c = c /\ c <> "" /\ contains " and " (c ++ " and") = false /\
  contains " and " c = false.
Proof.
  unfold is_single_clause. intros H.
  apply andb_prop in H as [H Hand]. apply andb_prop in H as [Hs Hne].
  apply String.eqb_eq in Hs. apply negb_true_iff in Hne, Hand.
  apply String.eqb_neq in Hne.
  repeat apply conj; auto. now apply contains_prefix with (b := " and").
Qed.

Lemma clauses_of_single (c : string) :
  strip c = c -> c <> "" -> contains " and " c = false -> clauses_of c = [c].
Proof.
  intros Hs Hne Hc. unfold clauses_of. rewrite (split_absent _ _ Hc).
  cbn [List.filter]. rewrite Hs.
  destruct (String.eqb_spec c "") as [-> | _]; [congruence |].
  cbn [negb map]. now rewrite Hs.
Qed.

Lemma strip_joined (c rest : string) :
  strip c = c -> c <> "" -> strip rest = rest -> rest <> "" ->
  strip (c ++ " and " ++ rest) = c ++ " and " ++ rest.
Proof.
  intros Hc Hne Hr Hre.
  apply strip_fixed in Hc as [Hcl _]. apply strip_fixed in Hr as [_ Hrr].
  unfold strip. rewrite (lstrip_app c _ Hne Hcl).
  replace (c ++ " and " ++ rest) with ((c ++ " and ") ++ rest).
  - now apply rstrip_app.
  - clear. induction c as [|x c IH]; push_app; [reflexivity | now rewrite IH].
Qed.

Lemma build_filter_conditions (id q : string) :
  build_filter id q = Ok (scope_with id (conditions q)).
Proof.
  unfold build_filter, conditions, scope_with.
  destruct (String.eqb_spec (strip q) "") as [-> | _]; [reflexivity |].
  destruct (compile_clauses_appends (clauses_of (strip q))) as [new H].
  rewrite H. cbn [app]. now destruct new.
Qed.

(** X21. Clauses joined by [and] are compiled one by one, in order: the
    conditions of [c and rest], for a clause [c] that holds no separator,
    are the condition of [c], if it has one, followed by the conditions of
    [rest], and the filter is the dataset scope with them. *)
Theorem conjunction_compiles (id c rest : string) :
  is_single_clause c = true ->
  strip rest = rest ->
  rest <> "" ->
  conditions (c ++ " and " ++ rest) = (conditions c ++ conditions rest)%list /\
  (length (conditions c) <= 1)%nat /\
  build_filter id (c ++ " and " ++ rest) =
  Ok (scope_with id (conditions c ++ conditions rest)).
Proof.
  intros Hc Hr Hre.
  apply single_clause_facts in Hc as (Hs & Hne & Hand & Hno).
  assert (Hcond : conditions (c ++ " and " ++ rest) =
                  (conditions c ++ conditions rest)%list).
  { unfold conditions.
    rewrite (strip_joined c rest Hs Hne Hr Hre), Hs, Hr.
    rewrite (clauses_of_single c Hs Hne Hno).
    assert (Hcl : clauses_of (c ++ " and " ++ rest) = ([c] ++ clauses_of rest)%list).
    { unfold clauses_of. rewrite (split_and_cons c rest Hand).
      cbn [List.filter]. rewrite Hs.
      destruct (String.eqb_spec c "") as [-> | _]; [congruence |].
      cbn [negb map app]. now rewrite Hs. }
    rewrite Hcl, compile_clauses_app.
    destruct (compile_clauses_appends [c]) as [new1 H1].
    destruct (compile_clauses_appends (clauses_of rest)) as [new2 H2].
    now rewrite !H1, !H2. }
  repeat apply conj.
  - exact Hcond.
  - unfold conditions. rewrite Hs, (clauses_of_single c Hs Hne Hno).
    cbn [compile_clauses].
    destruct (compile_clause_appends c) as (new & Hlen & Hn).
    rewrite Hn. exact Hlen.
  - now rewrite build_filter_conditions, Hcond.
Qed.

Lemma conjunction_compiles_witness :
  build_filter "d1" "age >= 30 and city = Paris and contains name Ann" =
  Ok (And [Equals "dataset_id" "d1";
           Field "data.age" (Compare "$gte" (VInt 30));
           Field "data.city" (Compare "$eq" (VStr "Paris"));
           Field "data.name" (Regex "Ann" "i")]).
Proof.
  destruct (conjunction_compiles "d1" "age >= 30"
              "city = Paris and contains name Ann") as (_ & _ & H).
  - vm_compute. reflexivity.
  - vm_compute. reflexivity.
  - discriminate.
  - exact H.
Defined.

End ConjunctionFacts.

(** ** The [csv] reader on cells between quotes *)

Module QuotingFacts.
Import PyCsv UploadCsv Quoting PyFacts CsvFacts.

Lemma readlines_nonempty (t : string) : t <> "" -> readlines t <> [].
Proof.
  destruct t as [|c t]; [congruence |]. intros _. cbn [readlines].
  destruct (Ascii.eqb c LF); [discriminate |].
  destruct (readlines t); [discriminate |]. destruct t; discriminate.
Qed.

Lemma next_char (p : parser) (c : ascii) (t : string) :
  Ascii.eqb c LF = false -> t <> "" ->
  reader_next p (readlines (String c t)) =
  match parse_process_char p (Char c) with
  | Done p' => reader_next p' (readlines t)
  | Failed e => Failed e
  end.
Proof.
  intros Hc Ht. cbn [readlines]. rewrite Hc.
  destruct (readlines t) as [|l ls] eqn:Hl;
    [now apply readlines_nonempty in Hl |].
  destruct t as [|d t]; [congruence |].
  cbn [reader_next parse_line].
  now destruct (parse_process_char p (Char c)).
Qed.

Lemma next_LF (p : parser) (t : string) :
  reader_next p (readlines (String LF t)) =
  match parse_process_char p (Char LF) with
  | Failed e => Failed e
  | Done p1 =>
      match parse_process_char p1 EOL with
      | Failed e => Failed e
      | Done p2 =>
          if is_start_record (state p2) then Done (Some (fields p2, readlines t))
          else reader_next p2 (readlines t)
      end
  end.
Proof.
  cbn [readlines]. rewrite Ascii.eqb_refl. cbn [reader_next parse_line].
  destruct (parse_process_char p (Char LF)) as [p1|e]; [| reflexivity].
  now destruct (parse_process_char p1 EOL).
Qed.

Lemma next_chars (s t : string) (p : parser) :
  has_char LF s = false -> t <> "" ->
  reader_next p (readlines (s ++ t)) =
  match parse_chars p s with
  | Done p' => reader_next p' (readlines t)
  | Failed e => Failed e
  end.
Proof.
  revert p. induction s as [|c s IH]; intros p Hs Ht; push_app; [reflexivity |].
  cbn [has_char] in Hs. apply orb_false_elim in Hs as [Hc Hs].
  rewrite next_char; [| exact Hc | now apply append_nonempty].
  cbn [parse_chars]. destruct (parse_process_char p (Char c)); [| reflexivity].
  now apply IH.
Qed.

Lemma quoted_char_step (p : parser) (c : ascii) :
  state p = IN_QUOTED_FIELD ->
  Ascii.eqb c quotechar = false ->
  (N.of_nat (String.length (field p)) < field_size_limit)%N ->
  parse_process_char p (Char c) =
  Done {| state := IN_QUOTED_FIELD; field := field p ++ String c "";
          fields := fields p |}.
Proof.
  intros Hs Hc Hl. apply N.leb_gt in Hl. destruct p as [s f fs].
  cbn [state field fields] in *. subst s.
  unfold parse_process_char, parse_add_char. cbn [state field fields].
  now rewrite Hc, Hl.
Qed.

Lemma doubled_quote_step (p : parser) :
  state p = IN_QUOTED_FIELD ->
  (N.of_nat (String.length (field p)) < field_size_limit)%N ->
  exists p1,
    parse_process_char p (Char quotechar) = Done p1 /\
    parse_process_char p1 (Char quotechar) =
    Done {| state := IN_QUOTED_FIELD; field := field p ++ String quotechar "";
            fields := fields p |}.
Proof.
  intros Hs Hl. apply N.leb_gt in Hl. destruct p as [s f fs].
  cbn [state field fields] in *. subst s.
  eexists. split; [reflexivity |].
  unfold parse_process_char, parse_add_char, set_state.
  cbn [state field fields]. rewrite Ascii.eqb_refl. now rewrite Hl.
Qed.

Lemma quoted_content (x : string) (p : parser) (t : string) :
  state p = IN_QUOTED_FIELD ->
  (N.of_nat (String.length (field p) + String.length x) <= field_size_limit)%N ->
  t <> "" ->
  reader_next p (readlines (double_quotes x ++ t)) =
  reader_next {| state := IN_QUOTED_FIELD; field := field p ++ x;
                 fields := fields p |} (readlines t).
Proof.
  revert p. induction x as [|c x IH]; intros p Hs Hl Ht.
  - cbn [double_quotes]. push_app. rewrite append_empty.
    destruct p as [s f fs]. cbn [state field fields] in *. now subst s.
  - cbn [String.length] in Hl. cbn [double_quotes].
    assert (Hnext : forall q,
               state q = IN_QUOTED_FIELD -> fields q = fields p ->
               field q = field p ++ String c "" ->
               reader_next q (readlines (double_quotes x ++ t)) =
               reader_next {| state := IN_QUOTED_FIELD;
                              field := field p ++ String c x;
                              fields := fields p |} (readlines t)).
    { intros q Hq Hfs Hf. rewrite (IH q Hq); [| rewrite Hf, length_append;
        cbn [String.length]; lia | exact Ht].
      rewrite Hf, Hfs, append_assoc. now push_app. }
    destruct (Ascii.eqb c quotechar) eqn:Hq.
    + apply Ascii.eqb_eq in Hq. subst c. push_app.
      destruct (doubled_quote_step p Hs) as (p1 & H1 & H2); [lia |].
      rewrite next_char; [| reflexivity | discriminate]. rewrite H1.
      rewrite next_char;
        [| reflexivity | apply append_nonempty; exact Ht]. rewrite H2.
      now apply Hnext.
    + push_app. destruct (Ascii.eqb c LF) eqn:Hlf.
      * apply Ascii.eqb_eq in Hlf. subst c. rewrite next_LF.
        rewrite (quoted_char_step p LF Hs Hq) by lia.
        unfold parse_process_char at 1. cbn [state is_start_record].
        now apply Hnext.
      * rewrite next_char; [| exact Hlf | apply append_nonempty; exact Ht].
        rewrite (quoted_char_step p c Hs Hq) by lia.
        now apply Hnext.
Qed.

Lemma open_quote_step (p : parser) :
  is_open (state p) = true -> state p <> IN_FIELD ->
  parse_process_char p (Char quotechar) =
  Done {| state := IN_QUOTED_FIELD; field := field p; fields := fields p |}.
Proof.
  destruct p as [s f fs]; destruct s; cbn [state]; try discriminate;
    try congruence; intros _ _; reflexivity.
Qed.

Lemma quoted_cell (x : string) (p : parser) (t : string) :
  is_open (state p) = true -> state p <> IN_FIELD -> field p = "" ->
  (N.of_nat (String.length x) <= field_size_limit)%N ->
  t <> "" ->
  reader_next p (readlines (quoted x ++ t)) =
  reader_next {| state := QUOTE_IN_QUOTED_FIELD; field := x; fields := fields p |}
              (readlines t).
Proof.
  intros Ho Hs Hf Hl Ht. unfold quoted. push_app. rewrite append_assoc. push_app.
  rewrite next_char; [| reflexivity | apply append_nonempty; discriminate].
  rewrite (open_quote_step p Ho Hs), Hf.
  rewrite quoted_content; [| reflexivity | cbn [field String.length]; lia
                           | discriminate].
  cbn [field fields]. push_app.
  rewrite next_char; [| reflexivity | exact Ht]. reflexivity.
Qed.

Lemma written_cell (qx : bool * string) (p : parser) (t : string) :
  is_open (state p) = true -> state p <> IN_FIELD -> field p = "" ->
  is_written_cell qx = true ->
  t <> "" ->
  exists p',
    reader_next p (readlines (write_cell qx ++ t)) = reader_next p' (readlines t) /\
    field p' = snd qx /\ fields p' = fields p /\
    (is_cell_end (state p') = true \/ (p' = p /\ qx = (false, ""))).
Proof.
  intros Ho Hs Hf Hw Ht. destruct qx as [[|] x]; unfold is_written_cell in Hw;
    cbn [fst snd orb] in Hw; apply andb_prop in Hw as [Hp Hl]; unfold write_cell;
    cbn [fst snd].
  - apply N.leb_le in Hl. eexists. split; [now apply quoted_cell |].
    cbn [state field fields]. auto.
  - assert (Hx : is_plain_cell x = true) by (unfold is_plain_cell; now rewrite Hp, Hl).
    destruct (plain_cell_chars x p Ho Hf Hx) as (p' & Hc & _ & Hf' & Hfs' & He & Hn).
    exists p'. rewrite next_chars, Hc;
      [| now apply special_not_LF, negb_true_iff | exact Ht].
    repeat apply conj; auto.
    destruct x as [|c x]; [right; split; auto | left].
    rewrite Hn; [reflexivity | discriminate].
Qed.

Lemma cell_end_delimiter (p : parser) :
  is_cell_end (state p) = true \/ is_open (state p) = true ->
  parse_process_char p (Char delimiter) =
  Done {| state := START_FIELD; field := ""; fields := fields p ++ [field p] |}.
Proof.
  destruct p as [s f fs]; destruct s; cbn [state is_cell_end is_open];
    intros [H | H]; try discriminate; reflexivity.
Qed.

Lemma written_cells (r : list (bool * string)) (qx : bool * string)
  (p : parser) (t : string) :
  is_open (state p) = true -> state p <> IN_FIELD -> field p = "" ->
  forallb is_written_cell (qx :: r) = true ->
  t <> "" ->
  exists p',
    reader_next p (readlines (join "," (map write_cell (qx :: r)) ++ t)) =
    reader_next p' (readlines t) /\
    (fields p' ++ [field p'] = fields p ++ map snd (qx :: r))%list /\
    (is_cell_end (state p') = true \/ (p' = p /\ qx = (false, "") /\ r = [])).
Proof.
  revert qx p. induction r as [|qy r IH]; intros qx p Ho Hs Hf Hall Ht;
    cbn [forallb] in Hall; apply andb_prop in Hall as [Hx Hall].
  - destruct (written_cell qx p t Ho Hs Hf Hx Ht) as (p' & Hn & Hf' & Hfs' & He).
    exists p'. cbn [map join]. split; [exact Hn |].
    split; [now rewrite Hf', Hfs' |].
    destruct He as [He | [-> ->]]; auto.
  - destruct (written_cell qx p
                (String delimiter (join "," (map write_cell (qy :: r)) ++ t))
                Ho Hs Hf Hx) as (p1 & Hn & Hf1 & Hfs1 & He); [discriminate |].
    set (p2 := {| state := START_FIELD; field := "";
                  fields := fields p1 ++ [field p1] |}).
    destruct (IH qy p2 eq_refl) as (p' & Hn' & Hfs' & He');
      [discriminate | reflexivity | exact Hall | exact Ht |].
    exists p'. split; [| split].
    + change (map write_cell (qx :: qy :: r))
        with (write_cell qx :: map write_cell (qy :: r)).
      change (join "," (write_cell qx :: map write_cell (qy :: r)))
        with (write_cell qx ++ "," ++ join "," (map write_cell (qy :: r))).
      rewrite !append_assoc.
      change ("," ++ join "," (map write_cell (qy :: r)) ++ t)
        with (String delimiter (join "," (map write_cell (qy :: r)) ++ t)).
      rewrite Hn.
      rewrite next_char; [| reflexivity | apply append_nonempty; exact Ht].
      rewrite cell_end_delimiter;
        [| destruct He as [He | [-> _]]; [now left | now right]].
      exact Hn'.
    + rewrite Hfs'. unfold p2. cbn [fields map].
      now rewrite Hf1, Hfs1, <- app_assoc.
    + left. destruct He' as [He' | (-> & _)]; [exact He' | reflexivity].
Qed.

Lemma cell_end_line (p : parser) (eol t : string) :
  In eol line_ends ->
  is_cell_end (state p) = true ->
  reader_next p (readlines (eol ++ t)) =
  Done (Some ((fields p ++ [field p])%list, readlines t)).
Proof.
  intros [<- | [<- | []]] He; push_app.
  - rewrite next_LF.
    destruct p as [s f fs]; destruct s; cbn [state is_cell_end] in He;
      try discriminate; reflexivity.
  - rewrite next_char; [| reflexivity | discriminate].
    destruct p as [s f fs]; destruct s; cbn [state is_cell_end] in He;
      try discriminate;
      match goal with
      | |- match ?step with _ => _ end = _ =>
          change step with
            (Done (E := csv_error)
                  {| state := EAT_CRNL; field := ""; fields := fs ++ [f] |})
      end; cbv beta iota; rewrite next_LF; reflexivity.
Qed.

Lemma empty_line_next (eol t : string) :
  In eol line_ends ->
  reader_next parse_reset (readlines (eol ++ t)) = Done (Some ([], readlines t)).
Proof.
  intros [<- | [<- | []]]; push_app.
  - rewrite next_LF. reflexivity.
  - rewrite next_char; [| reflexivity | discriminate].
    change (parse_process_char parse_reset (Char CR))
      with (Done (E := csv_error) (set_state EAT_CRNL parse_reset)).
    cbv beta iota. rewrite next_LF. reflexivity.
Qed.

Lemma written_line (r : list (bool * string)) (eol t : string) :
  In eol line_ends ->
  is_written_line r = true ->
  reader_next parse_reset
    (readlines ((join "," (map write_cell r) ++ eol) ++ t)) =
  Done (Some (map snd r, readlines t)).
Proof.
  intros He Hr. destruct r as [|qx r].
  - cbn [map join]. push_app. now apply empty_line_next.
  - cbn [is_written_line] in Hr. unfold is_written_record in Hr.
    apply andb_prop in Hr as [Hall Hne]. rewrite append_assoc.
    destruct (written_cells r qx parse_reset (eol ++ t)) as (p' & Hn & Hfs & Hend);
      try reflexivity; try discriminate; try assumption.
    { destruct He as [<- | [<- | []]]; discriminate. }
    rewrite Hn. destruct Hend as [Hend | (_ & -> & ->)]; [| discriminate].
    rewrite (cell_end_line p' eol t He Hend). now rewrite Hfs.
Qed.

Lemma reader_all_next (lines : list string) (p : parser) :
  reader_all p lines =
  match reader_next p lines with
  | Failed e => Failed e
  | Done None => Done []
  | Done (Some (r, rest)) =>
      match reader_all parse_reset rest with
      | Done rs => Done (r :: rs)
      | Failed e => Failed e
      end
  end.
Proof.
  revert p. induction lines as [|line lines IH]; intros p; cbn [reader_all reader_next].
  - destruct (negb (String.eqb (field p) "") || is_in_quoted (state p)); reflexivity.
  - destruct (parse_line p line) as [p'|e]; [| reflexivity].
    destruct (is_start_record (state p')); [reflexivity | apply IH].
Qed.

Lemma written_table (eol : string) (t : list (list (bool * string))) :
  In eol line_ends ->
  forallb is_written_line t = true ->
  reader_all parse_reset (readlines (write_cells eol t)) = Done (map (map snd) t).
Proof.
  intros He. induction t as [|r t IH]; [reflexivity |].
  cbn [forallb]. intros H. apply andb_prop in H as [Hr Ht].
  cbn [write_cells map]. rewrite reader_all_next, (written_line r eol _ He Hr).
  now rewrite (IH Ht).
Qed.

(** X22. Cells between quotes may hold any character: in a table whose
    cells are written between quotes, quotes inside doubled, or as they
    are when they are plain, a cell is read back with its commas, quotes
    and line breaks, a line break inside a cell not ending the record. *)
Theorem quoted_table_round_trip (eol : string) (h : list (bool * string))
  (t : list (list (bool * string))) :
  In eol line_ends ->
  is_written_record h = true ->
  forallb is_written_line t = true ->
  forallb (fun r => fits_header (map snd h) (map snd r)) t = true ->
  read_csv (write_cells eol (h :: t)) =
  Done (map snd h, dict_rows (map snd h) (map (map snd) t)).
Proof.
  intros He Hh Ht _. unfold read_csv. cbn [write_cells].
  assert (Hl : is_written_line h = true) by (destruct h; [discriminate | exact Hh]).
  rewrite (written_line h eol _ He Hl).
  destruct h as [|qx h]; [discriminate |]. cbn [map].
  now rewrite (written_table eol t He Ht).
Qed.

Lemma quoted_table_round_trip_witness :
  let cell := "a, " ++ String quotechar ("b" ++ String LF "c") in
  read_csv (write_cells (String LF "")
              [[(false, "name"); (false, "note")];
               [(false, "Ann"); (true, cell)]]) =
  Done (["name"; "note"], [dict_row ["name"; "note"] ["Ann"; cell]]).
Proof.
  apply (quoted_table_round_trip (String LF "")
           [(false, "name"); (false, "note")]
           [[(false, "Ann");
             (true, "a, " ++ String quotechar ("b" ++ String LF "c"))]]).
  - left. reflexivity.
  - vm_compute. reflexivity.
  - vm_compute. reflexivity.
  - reflexivity.
Defined.

End QuotingFacts.
